(** * Point sampling of gridded datasets: a shallow embedding

    The development embeds the code cells of
    [Data/Copernicus_download_multiple_points_Toolbox.ipynb]:
    [sort_dimension], the "temporal points" cell (one value per point and
    date) and the "timeseries" cell (one series per point).

    Conventions of the embedding
    - coordinates, timestamps and sampled values are exact rationals ([Q]);
      a timestamp is the number it is stored as.  NaN and rounding are not
      modelled.
    - a Python exception is a value of [PyError]; code that may raise
      returns [Result A].
    - an xarray [Dataset] is a pair of dictionaries (coordinates and data
      variables); a data variable is a nested array with named dimensions.
    - the calls into xarray and pandas ([sortby], [rename], [sel], column
      access, [assign]) are modelled after their documented behaviour; each
      definition says which call it stands for. *)

From Stdlib Require Import QArith Qabs Lqa Lia Sorted.
From stdpp Require Import gmap strings list pretty.

(** ** Exceptions *)

Inductive PyError : Type :=
| KeyError (key : string)
| IndexError
| ValueError
| InvalidIndexError
| TypeError
| NameError (name : string).

Definition Result (A : Type) : Type := (PyError + A)%type.

Definition ok {A} (a : A) : Result A := inr a.
Definition raise {A} (e : PyError) : Result A := inl e.

#[global] Instance result_ret : MRet Result := fun A a => inr a.

#[global] Instance result_bind : MBind Result := fun A B k m =>
  match m with
  | inl e => inl e
  | inr a => k a
  end.

(** A comprehension [[f(x) for x in l]]: the first exception escapes. *)
Fixpoint traverse {A B} (f : A -> Result B) (l : list A) : Result (list B) :=
  match l with
  | [] => ok []
  | x :: l' => y ← f x; ys ← traverse f l'; ok (y :: ys)
  end.

(** A [for] loop threading a state. *)
Fixpoint fold_loop {A S} (f : S -> A -> Result S) (s : S) (l : list A) : Result S :=
  match l with
  | [] => ok s
  | x :: l' => s' ← f s x; fold_loop f s' l'
  end.

Definition from_option {A} (e : PyError) (o : option A) : Result A :=
  match o with
  | Some a => ok a
  | None => raise e
  end.

(** ** Arrays and datasets *)

(** An n-dimensional array, outermost dimension first. *)
#[warnings="-register-all"]
Inductive ndarray : Type :=
| Scalar (v : Q)
| Arr (items : list ndarray).

(** A data variable: the names of its dimensions and its values. *)
Record DataArray : Type := mkDataArray {
  dims : list string;
  values : ndarray
}.

Record Dataset : Type := mkDataset {
  coords : gmap string (list Q);
  data_vars : gmap string DataArray
}.

(** [a[i0, i1, ...]] with as many indices as dimensions. *)
Fixpoint get (a : ndarray) (idxs : list nat) : option Q :=
  match a, idxs with
  | Scalar v, [] => Some v
  | Arr items, i :: rest =>
      (fix pick (l : list ndarray) (n : nat) {struct l} : option Q :=
         match l, n with
         | x :: _, O => get x rest
         | _ :: l', S n' => pick l' n'
         | [], _ => None
         end) items i
  | _, _ => None
  end.

(** Positional selection of the entries [p] along axis number [k]
    (numpy's [take]).  The positions are those of [lexsort] below, which
    are always in range. *)
Fixpoint take_axis (k : nat) (p : list nat) (a : ndarray) : ndarray :=
  match a with
  | Scalar v => Scalar v
  | Arr items =>
      match k with
      | O => Arr (omap (fun i => items !! i) p)
      | S k' => Arr (map (take_axis k' p) items)
      end
  end.

(** Position of a dimension name in a [dims] tuple. *)
Fixpoint axis_of (d : string) (ds : list string) : option nat :=
  match ds with
  | [] => None
  | d' :: ds' => if String.eqb d d' then Some O else S <$> axis_of d ds'
  end.

(** [DataArray.isel({d: p})]: variables without the dimension are left
    alone. *)
Definition isel_var (d : string) (p : list nat) (v : DataArray) : DataArray :=
  match axis_of d (dims v) with
  | Some k => mkDataArray (dims v) (take_axis k p (values v))
  | None => v
  end.

(** ** Sorting *)

(** [np.lexsort] on one key: the stable ascending argsort. *)
Fixpoint insert_key (x : Q * nat) (l : list (Q * nat)) : list (Q * nat) :=
  match l with
  | [] => [x]
  | y :: l' => if Qle_bool (fst x) (fst y) then x :: l else y :: insert_key x l'
  end.

Fixpoint sort_keys (l : list (Q * nat)) : list (Q * nat) :=
  match l with
  | [] => []
  | x :: l' => insert_key x (sort_keys l')
  end.

Definition enumerate (c : list Q) : list (Q * nat) := zip c (seq 0 (length c)).

Definition lexsort (c : list Q) : list nat := (sort_keys (enumerate c)).*2.

(** [dataset.sortby(dim_name, ascending=True)]: the order of the
    coordinate is computed once and applied, by position, to the
    coordinate and to every variable that has the dimension. *)
Definition sortby (dataset : Dataset) (dim_name : string) : Result Dataset :=
  c ← from_option (KeyError dim_name) (coords dataset !! dim_name);
  let order := lexsort c in
  ok (mkDataset
        (<[dim_name := omap (fun i => c !! i) order]> (coords dataset))
        (isel_var dim_name order <$> data_vars dataset)).

(** [def sort_dimension(dataset, dim_name)]

    [dataset[dim_name]] is read as the coordinate of the dimension.  A
    dimension without a coordinate, for which xarray answers the
    positions 0 to n-1, is not modelled: the properties below concern
    dimensions that have a coordinate. *)
Definition sort_dimension (dataset : Dataset) (dim_name : string) : Result Dataset :=
  (* coordinates = dataset[dim_name].values *)
  coordinates ← from_option (KeyError dim_name) (coords dataset !! dim_name);
  (* coordinates[0] *)
  c0 ← from_option IndexError (head coordinates);
  (* if (coordinates[0] >= coordinates[:-1]).all(): *)
  if forallb (fun c => Qle_bool c c0) (removelast coordinates)
  then sortby dataset dim_name
  else ok dataset.


(** ** Label-based selection

    [sel] resolves a label to a position through the pandas index of the
    coordinate.  With [method="nearest"] this is
    [Index.get_indexer(..., method="nearest")]: the index has to be unique
    and monotonic; the candidates are the last entry not above the label
    ([pad]) and the first entry not below it ([backfill]); the closer one
    wins and, as pandas documents, tied distances are broken by preferring
    the larger index value. *)

Definition Qlt_bool (a b : Q) : bool := negb (Qle_bool b a).

(** Length of the longest prefix whose entries satisfy [p]: on a sorted
    list, the insertion point found by [searchsorted]. *)
Fixpoint prefix_len (p : Q -> bool) (l : list Q) : nat :=
  match l with
  | [] => O
  | x :: l' => if p x then S (prefix_len p l') else O
  end.

Fixpoint is_monotonic_increasing (l : list Q) : bool :=
  match l with
  | [] => true
  | x :: l' =>
      match l' with
      | [] => true
      | y :: _ => Qle_bool x y && is_monotonic_increasing l'
      end
  end.

Fixpoint is_monotonic_decreasing (l : list Q) : bool :=
  match l with
  | [] => true
  | x :: l' =>
      match l' with
      | [] => true
      | y :: _ => Qle_bool y x && is_monotonic_decreasing l'
      end
  end.

Fixpoint is_unique (l : list Q) : bool :=
  match l with
  | [] => true
  | x :: l' => negb (existsb (Qeq_bool x) l') && is_unique l'
  end.

(** [get_indexer(target, "pad")] and [get_indexer(target, "backfill")] on
    a monotonic index; [None] is the position [-1] of pandas. *)
Definition pad (increasing : bool) (index : list Q) (target : Q) : option nat :=
  let k := prefix_len (fun x => if increasing then Qle_bool x target
                                else Qle_bool target x) index in
  match k with
  | O => None
  | S k' => Some k'
  end.

Definition backfill (increasing : bool) (index : list Q) (target : Q) : option nat :=
  let k := prefix_len (fun x => if increasing then Qlt_bool x target
                                else Qlt_bool target x) index in
  if (k <? length index)%nat then Some k else None.

(** [abs(index[indexer] - target)]; the position [-1] reads the last
    entry, as numpy indexing does. *)
Definition distance (index : list Q) (indexer : option nat) (target : Q) : Q :=
  let at_position :=
    match indexer with
    | Some i => index !! i
    | None => last index
    end in
  Qabs (default 0%Q at_position - target).

(** [Index._get_nearest_indexer] for one label. *)
Definition get_nearest_indexer (index : list Q) (target : Q) : Result (option nat) :=
  if negb (is_unique index) then raise InvalidIndexError
  else if (length index =? 0)%nat then ok None
  else
    let increasing := is_monotonic_increasing index in
    if negb (increasing || is_monotonic_decreasing index) then raise ValueError
    else
      let left_indexer := pad increasing index target in
      let right_indexer := backfill increasing index target in
      let left_distances := distance index left_indexer target in
      let right_distances := distance index right_indexer target in
      (* op = operator.lt if self.is_monotonic_increasing else operator.le *)
      let op := if increasing then Qlt_bool else Qle_bool in
      ok (if op left_distances right_distances || bool_decide (right_indexer = None)
          then left_indexer else right_indexer).

(** The position selected by [sel(dim=label, method="nearest")]; xarray
    raises [KeyError] when pandas answers [-1]. *)
Definition sel_nearest (dim : string) (index : list Q) (label : Q) : Result nat :=
  indexer ← get_nearest_indexer index label;
  from_option (KeyError dim) indexer.

(** [a[..., i, ...]] at axis [k]: the axis is dropped.  The position is
    one that [sel_nearest] found on the coordinate of the axis, so it is in
    range whenever the array is as long as the coordinate. *)
Fixpoint index_axis (k i : nat) (a : ndarray) : ndarray :=
  match a with
  | Scalar v => Scalar v
  | Arr items =>
      match k with
      | O => default (Arr []) (items !! i)
      | S k' => Arr (map (index_axis k' i) items)
      end
  end.

(** [a[..., lo:hi, ...]] at axis [k]. *)
Fixpoint slice_axis (k lo hi : nat) (a : ndarray) : ndarray :=
  match a with
  | Scalar v => Scalar v
  | Arr items =>
      match k with
      | O => Arr (take (hi - lo) (drop lo items))
      | S k' => Arr (map (slice_axis k' lo hi) items)
      end
  end.

Fixpoint remove_at {A} (k : nat) (l : list A) : list A :=
  match l, k with
  | [], _ => []
  | _ :: l', O => l'
  | x :: l', S k' => x :: remove_at k' l'
  end.

(** [DataArray.sel(dim=label, method="nearest")] on a variable taken from
    a dataset with coordinates [cs]. *)
Definition sel_var (cs : gmap string (list Q)) (dim : string) (label : Q)
    (v : DataArray) : Result DataArray :=
  k ← from_option (KeyError dim) (axis_of dim (dims v));
  index ← from_option (KeyError dim) (cs !! dim);
  i ← sel_nearest dim index label;
  ok (mkDataArray (remove_at k (dims v)) (index_axis k i (values v))).

(** [float(x)] of a zero-dimensional array. *)
Definition float (v : DataArray) : Result Q :=
  match values v with
  | Scalar x => ok x
  | Arr _ => raise TypeError
  end.

(** [dataset[var]] *)
Definition getitem (dataset : Dataset) (var : string) : Result DataArray :=
  from_option (KeyError var) (data_vars dataset !! var).

(** [Dataset.sel(dim=label, method="nearest")]: every variable that has
    the dimension is indexed at the selected position; the dimension is no
    longer one of the dataset. *)
Definition index_var (dim : string) (i : nat) (v : DataArray) : DataArray :=
  match axis_of dim (dims v) with
  | Some k => mkDataArray (remove_at k (dims v)) (index_axis k i (values v))
  | None => v
  end.

Definition sel_dataset (dim : string) (label : Q) (dataset : Dataset) : Result Dataset :=
  index ← from_option (KeyError dim) (coords dataset !! dim);
  i ← sel_nearest dim index label;
  ok (mkDataset (delete dim (coords dataset)) (index_var dim i <$> data_vars dataset)).

(** The two ends of a label slice, [Index.slice_locs]: on a monotonic
    index the insertion points of the labels; otherwise a label has to
    occur in the index, in one contiguous run. *)
Definition slice_bound (dim : string) (index : list Q) (label : Q) (right : bool) : Result nat :=
  if is_monotonic_increasing index then
    ok (prefix_len (fun x => if right then Qle_bool x label else Qlt_bool x label) index)
  else if is_monotonic_decreasing index then
    ok (prefix_len (fun x => if right then Qle_bool label x else Qlt_bool label x) index)
  else
    let first := prefix_len (fun x => negb (Qeq_bool x label)) index in
    let run := prefix_len (Qeq_bool label) (drop first index) in
    if (0 <? run)%nat && (run =? length (filter (fun x => Qeq_bool label x = true) index))%nat
    then ok (if right then first + run else first)%nat
    else raise (KeyError dim).

Definition slice_var (dim : string) (lo hi : nat) (v : DataArray) : DataArray :=
  match axis_of dim (dims v) with
  | Some k => mkDataArray (dims v) (slice_axis k lo hi (values v))
  | None => v
  end.

(** [Dataset.sel(time=slice(start, stop))]: both ends are included. *)
Definition sel_slice (dim : string) (start stop : Q) (dataset : Dataset) : Result Dataset :=
  index ← from_option (KeyError dim) (coords dataset !! dim);
  lo ← slice_bound dim index start false;
  hi ← slice_bound dim index stop true;
  ok (mkDataset (<[dim := take (hi - lo) (drop lo index)]> (coords dataset))
                (slice_var dim lo hi <$> data_vars dataset)).

(** [dataset[variables]] with a list of names. *)
Definition getitems (dataset : Dataset) (variables : list string) : Result Dataset :=
  vs ← traverse (fun var => v ← getitem dataset var; ok (var, v)) variables;
  ok (mkDataset (coords dataset) (list_to_map vs)).

(** [Dataset.rename({old: new})] for a coordinate [old]. *)
Definition rename_dim (old new : string) (d : string) : string :=
  if String.eqb d old then new else d.

Definition rename (dataset : Dataset) (old new : string) : Result Dataset :=
  match coords dataset !! old with
  | None => raise ValueError
  | Some c =>
      if bool_decide (is_Some (coords dataset !! new))
         || bool_decide (is_Some (data_vars dataset !! new))
      then raise ValueError
      else ok (mkDataset
                 (<[new := c]> (delete old (coords dataset)))
                 ((fun v => mkDataArray (rename_dim old new <$> dims v) (values v))
                    <$> data_vars dataset))
  end.

(** ** Axis normalisation

    The first steps of both cells:
<<
   for coordinate in dataset.coords:
       if coordinate=='lon':
           dataset = dataset.rename({'lon': 'longitude'})
       if coordinate=='lat':
           dataset = dataset.rename({'lat': 'latitude'})
   dataset = sort_dimension(dataset, 'latitude')
   dataset = sort_dimension(dataset, 'longitude')
>> *)
Definition rename_step (dataset : Dataset) (coordinate : string) : Result Dataset :=
  dataset ← (if String.eqb coordinate "lon"
             then rename dataset "lon" "longitude" else ok dataset);
  if String.eqb coordinate "lat"
  then rename dataset "lat" "latitude" else ok dataset.

Definition rename_axes (dataset : Dataset) : Result Dataset :=
  fold_loop rename_step dataset (map_to_list (coords dataset)).*1.

Definition normalize (dataset : Dataset) : Result Dataset :=
  dataset ← rename_axes dataset;
  dataset ← sort_dimension dataset "latitude";
  sort_dimension dataset "longitude".

(** ** The table of points *)

Record DataFrame : Type := mkDataFrame {
  nrows : nat;
  columns : gmap string (list Q)
}.

(** [df[name]] *)
Definition column (df : DataFrame) (name : string) : Result (list Q) :=
  from_option (KeyError name) (columns df !! name).

(** [df.assign(name=values)]: the new column has to have one value per
    row. *)
Definition assign (df : DataFrame) (name : string) (col : list Q) : Result DataFrame :=
  if (length col =? nrows df)%nat
  then ok (mkDataFrame (nrows df) (<[name := col]> (columns df)))
  else raise ValueError.

Definition assign_all (df : DataFrame) (cols : list (string * list Q)) : Result DataFrame :=
  fold_loop (fun df c => assign df c.1 c.2) df cols.

(** ** Sampling one point *)

Definition has_depth (dataset : Dataset) : bool :=
  bool_decide (is_Some (coords dataset !! "depth")).

(** [float(dataset[var].sel(time=row[0], depth=row[3], method="nearest")
           .sel(latitude=row[1], longitude=row[2], method='nearest'))]
    for a row [(Date, Latitude, Longitude, Depth)]; each label is resolved
    on its own axis. *)
Definition sample_3d (dataset : Dataset) (var : string) (row : Q * Q * Q * Q) : Result Q :=
  let '(date, latitude, longitude, depth) := row in
  v ← getitem dataset var;
  v ← sel_var (coords dataset) "time" date v;
  v ← sel_var (coords dataset) "depth" depth v;
  v ← sel_var (coords dataset) "latitude" latitude v;
  v ← sel_var (coords dataset) "longitude" longitude v;
  float v.

(** [float(dataset[var].sel(time=row[0], method="nearest")
           .sel(latitude=row[1], longitude=row[2], method='nearest'))]
    for a row [(Date, Latitude, Longitude)]. *)
Definition sample_2d (dataset : Dataset) (var : string) (row : Q * Q * Q) : Result Q :=
  let '(date, latitude, longitude) := row in
  v ← getitem dataset var;
  v ← sel_var (coords dataset) "time" date v;
  v ← sel_var (coords dataset) "latitude" latitude v;
  v ← sel_var (coords dataset) "longitude" longitude v;
  float v.

(** [dataset.sel(time=date, method="nearest").time.values] *)
Definition matched_time (dataset : Dataset) (date : Q) : Result Q :=
  time ← from_option (KeyError "time") (coords dataset !! "time");
  i ← sel_nearest "time" time date;
  from_option IndexError (time !! i).

(** The table written for one dataset by the "temporal points" cell. *)
Definition temporal_points (dataset : Dataset) (variables : list string)
    (dataframe_coordinates : DataFrame) : Result DataFrame :=
  let dataframe_final := dataframe_coordinates in
  sampled ←
    (if has_depth dataset then
       traverse (fun var =>
               date ← column dataframe_final "Date";
               latitude ← column dataframe_final "Latitude";
               longitude ← column dataframe_final "Longitude";
               depth ← column dataframe_final "Depth";
               col ← traverse (sample_3d dataset var)
                          (zip (zip (zip date latitude) longitude) depth);
               ok (var, col)) variables
     else
       traverse (fun var =>
               date ← column dataframe_final "Date";
               latitude ← column dataframe_final "Latitude";
               longitude ← column dataframe_final "Longitude";
               col ← traverse (sample_2d dataset var)
                          (zip (zip date latitude) longitude);
               ok (var, col)) variables);
  dataframe_final ← assign_all dataframe_final sampled;
  date ← column dataframe_final "Date";
  date_dataset ← traverse (matched_time dataset) date;
  assign dataframe_final "Date_dataset" date_dataset.

(** [dataset[variables].sel(time=slice(start, end))
      .sel(latitude=.., longitude=.., depth=.., method="nearest")] *)
Definition series_3d (dataset : Dataset) (variables : list string)
    (row : Q * Q * Q * Q * Q) : Result Dataset :=
  let '(start, stop, latitude, longitude, depth) := row in
  d ← getitems dataset variables;
  d ← sel_slice "time" start stop d;
  d ← sel_dataset "latitude" latitude d;
  d ← sel_dataset "longitude" longitude d;
  sel_dataset "depth" depth d.

(** [dataset[variables].sel(time=slice(start, end))
      .sel(latitude=.., longitude=.., method="nearest")] *)
Definition series_2d (dataset : Dataset) (variables : list string)
    (row : Q * Q * Q * Q) : Result Dataset :=
  let '(start, stop, latitude, longitude) := row in
  d ← getitems dataset variables;
  d ← sel_slice "time" start stop d;
  d ← sel_dataset "latitude" latitude d;
  sel_dataset "longitude" longitude d.

(** ** The notebook

    The cells run in one kernel: names bound in a cell (a loop variable
    included) stay bound for the cells run after it.  Of the kernel we
    keep the two names the loops bind, the identifiers handed to
    [copernicusmarine.open_dataset] and the files written, both in order.
    An exception stops the cell; what was bound and written before it
    stays. *)

Inductive Output : Type :=
| CsvTable (table : DataFrame)
| CsvSeries (point : Dataset).

Record Kernel : Type := mkKernel {
  dataset_id : option string;
  datset_id : option string;
  opened : list string;
  files : list (string * Output)
}.

Definition Cell (A : Type) : Type := Kernel -> Kernel * Result A.

#[global] Instance cell_ret : MRet Cell := fun A a k => (k, inr a).

#[global] Instance cell_bind : MBind Cell := fun A B f m k =>
  match m k with
  | (k', inl e) => (k', inl e)
  | (k', inr a) => f a k'
  end.

Definition lift {A} (r : Result A) : Cell A := fun k => (k, r).

Fixpoint for_each {A} (l : list A) (body : A -> Cell unit) : Cell unit :=
  match l with
  | [] => mret tt
  | x :: l' => _ ← body x; for_each l' body
  end.

Definition bind_dataset_id (id : string) : Cell unit := fun k =>
  (mkKernel (Some id) (datset_id k) (opened k) (files k), inr tt).

Definition bind_datset_id (id : string) : Cell unit := fun k =>
  (mkKernel (dataset_id k) (Some id) (opened k) (files k), inr tt).

(** Reading the name [dataset_id]. *)
Definition read_dataset_id : Cell string := fun k =>
  (k, from_option (NameError "dataset_id") (dataset_id k)).

(** [df.to_csv(path)] *)
Definition to_csv (path : string) (content : Output) : Cell unit := fun k =>
  (mkKernel (dataset_id k) (datset_id k) (opened k) (files k ++ [(path, content)]),
   inr tt).

(** The cell "Download parameters". *)
Record Parameters : Type := mkParameters {
  list_datasetID : list string;
  output_names : list string;
  variables : list string;
  output_dir : string;
  dataframe_coordinates : DataFrame
}.

Section Notebook.

(** [copernicusmarine.open_dataset], the catalogue behind it included. *)
Variable catalogue : string -> Result Dataset.

Variable p : Parameters.

Definition open_dataset (id : string) : Cell Dataset := fun k =>
  (mkKernel (dataset_id k) (datset_id k) (opened k ++ [id]) (files k),
   catalogue id).

(** One round of the loop of the cell "Download temporal points". *)
Definition temporal_round (entry : string * string) : Cell unit :=
  (* for dataset_id, output_name in zip(list_datasetID, output_names): *)
  let output_name := entry.2 in
  _ ← bind_dataset_id entry.1;
  id ← read_dataset_id;
  dataset ← open_dataset id;
  dataset ← lift (normalize dataset);
  dataframe_final ← lift (temporal_points dataset (variables p) (dataframe_coordinates p));
  to_csv (output_dir p +:+ output_name +:+ "_temporal_points.csv")
         (CsvTable dataframe_final).

Definition temporal_cell : Cell unit :=
  for_each (zip (list_datasetID p) (output_names p)) temporal_round.

(** One round of the loop of the cell "Download timeseries". *)
Definition timeseries_round (entry : string * string) : Cell unit :=
  (* for datset_id, output_name in zip(list_datasetID, output_names): *)
  let output_name := entry.2 in
  _ ← bind_datset_id entry.1;
  (* dataset = copernicusmarine.open_dataset(dataset_id = dataset_id) *)
  id ← read_dataset_id;
  dataset ← open_dataset id;
  dataset ← lift (normalize dataset);
  let df := dataframe_coordinates p in
  if has_depth dataset then
    start ← lift (column df "Start");
    stop ← lift (column df "End");
    latitude ← lift (column df "Latitude");
    longitude ← lift (column df "Longitude");
    depth ← lift (column df "Depth");
    for_each (zip (zip (zip (zip (zip start stop) latitude) longitude) depth)
                  (seq 0 (nrows df)))
      (fun row =>
         dataset_point ← lift (series_3d dataset (variables p) row.1);
         to_csv (output_dir p +:+ output_name +:+ "point_" +:+ pretty row.2 +:+ ".csv")
                (CsvSeries dataset_point))
  else
    start ← lift (column df "Start");
    stop ← lift (column df "End");
    latitude ← lift (column df "Latitude");
    longitude ← lift (column df "Longitude");
    for_each (zip (zip (zip (zip start stop) latitude) longitude)
                  (seq 0 (nrows df)))
      (fun row =>
         dataset_point ← lift (series_2d dataset (variables p) row.1);
         (* f"point_{row[5]}.csv": the row has five entries *)
         _ ← lift (raise IndexError : Result unit);
         to_csv (output_dir p +:+ output_name +:+ "point_" +:+ pretty row.2 +:+ ".csv")
                (CsvSeries dataset_point)).

Definition timeseries_cell : Cell unit :=
  for_each (zip (list_datasetID p) (output_names p)) timeseries_round.

End Notebook.

(** A kernel in which no cell has run. *)
Definition fresh : Kernel := mkKernel None None [] [].

(** * Properties *)

(** ** Vocabulary *)

Definition strictly_ascending (c : list Q) : Prop := StronglySorted Qlt c.

Definition ascending (c : list Q) : Prop := StronglySorted Qle c.

(** An array has the given lengths along its dimensions. *)
Fixpoint shape_ok (shape : list nat) (a : ndarray) {struct shape} : bool :=
  match shape, a with
  | [], Scalar _ => true
  | n :: shape', Arr items => (length items =? n)%nat && forallb (shape_ok shape') items
  | _, _ => false
  end.

Definition shape_of (cs : gmap string (list Q)) (ds : list string) : option (list nat) :=
  mapM (fun d => length <$> cs !! d) ds.

(** What xarray guarantees of any dataset: the dimensions of a variable
    are distinct, each has a coordinate, and the array of the variable is
    as long along a dimension as that coordinate. *)
Definition fits (cs : gmap string (list Q)) (v : DataArray) : bool :=
  bool_decide (NoDup (dims v)) &&
  match shape_of cs (dims v) with
  | Some shape => shape_ok shape (values v)
  | None => false
  end.

Definition consistent (dataset : Dataset) : Prop :=
  map_Forall (fun _ v => fits (coords dataset) v = true) (data_vars dataset).

#[global] Instance consistent_dec (dataset : Dataset) : Decision (consistent dataset).
Proof. unfold consistent. apply _. Defined.

(** Position of a coordinate value on an axis ([sel] without a method). *)
Fixpoint index_of (c : list Q) (label : Q) : option nat :=
  match c with
  | [] => None
  | x :: c' => if Qeq_bool x label then Some O else S <$> index_of c' label
  end.

Fixpoint positions (cs : gmap string (list Q)) (ds : list string) (point : list Q)
    : option (list nat) :=
  match ds, point with
  | [], [] => Some []
  | d :: ds', label :: point' =>
      c ← cs !! d;
      i ← index_of c label;
      idxs ← positions cs ds' point';
      Some (i :: idxs)
  | _, _ => None
  end.

(** The value of a variable at a physical point, one coordinate value per
    dimension of the variable. *)
Definition value_at (dataset : Dataset) (var : string) (point : list Q) : option Q :=
  v ← data_vars dataset !! var;
  idxs ← positions (coords dataset) (dims v) point;
  get (values v) idxs.


(** No coordinate value occurs twice on an axis. *)
Definition unique_coords (dataset : Dataset) : Prop :=
  map_Forall (fun _ c => is_unique c = true) (coords dataset).

#[global] Instance unique_coords_dec (dataset : Dataset) : Decision (unique_coords dataset).
Proof. unfold unique_coords. apply _. Defined.

(** The dimensions of a variable of the grid, in their fixed order. *)
Definition grid_dims (dataset : Dataset) : list string :=
  if has_depth dataset
  then ["time"; "depth"; "latitude"; "longitude"]
  else ["time"; "latitude"; "longitude"].

(** An axis that can be searched: not empty, strictly ascending. *)
Definition axis_ok (dataset : Dataset) (d : string) : bool :=
  match coords dataset !! d with
  | Some c => negb (length c =? 0)%nat && is_unique c && is_monotonic_increasing c
  | None => false
  end.

Definition var_ok (dataset : Dataset) (var : string) : bool :=
  match data_vars dataset !! var with
  | Some v => bool_decide (dims v = grid_dims dataset) && fits (coords dataset) v
  | None => false
  end.

(** A normalised grid that holds the requested variables. *)
Definition well_formed (dataset : Dataset) (variables : list string) : bool :=
  forallb (axis_ok dataset) (grid_dims dataset) && forallb (var_ok dataset) variables.

(** The table has the named columns, each with one cell per row. *)
Definition has_columns (df : DataFrame) (names : list string) : bool :=
  forallb (fun name =>
             match columns df !! name with
             | Some c => (length c =? nrows df)%nat
             | None => false
             end) names.

(** The position selected on an axis: as close to the label as any other,
    and the highest of those that are as close. *)
Definition nearest_to (index : list Q) (q : Q) (i : nat) : Prop :=
  exists y, index !! i = Some y /\
    forall j x, index !! j = Some x ->
      (Qabs (y - q) <= Qabs (x - q))%Q /\
      ((Qabs (x - q) == Qabs (y - q))%Q -> (j <= i)%nat).

(** [x] is the value of the variable at the positions selected, one axis
    at a time, for the labels given for its dimensions. *)
Definition sampled_at (dataset : Dataset) (var : string) (labels : list (string * Q))
    (x : Q) : Prop :=
  exists v idxs,
    data_vars dataset !! var = Some v /\ dims v = labels.*1 /\
    Forall2 (fun l i => exists c, coords dataset !! l.1 = Some c /\
                          sel_nearest l.1 c l.2 = ok i /\ nearest_to c l.2 i)
            labels idxs /\
    get (values v) idxs = Some x.

(** What [normalize] keeps true of a dataset, step after step: the
    values of the dataset [dataset0] it started from, at their points, and
    no value where that dataset had none. *)
Definition kept (dataset0 dataset : Dataset) : Prop :=
  consistent dataset /\ unique_coords dataset /\
  (forall var point x,
     value_at dataset0 var point = Some x -> value_at dataset var point = Some x) /\
  (forall var point,
     is_Some (value_at dataset var point) -> is_Some (value_at dataset0 var point)).


(** Order of the keys of [lexsort]. *)
Definition key_le (a b : Q * nat) : Prop := (a.1 <= b.1)%Q.


(** The columns of the table that the cells read for a point. *)
Definition query_columns (dataset : Dataset) : list string :=
  if has_depth dataset
  then ["Date"; "Latitude"; "Longitude"; "Depth"]
  else ["Date"; "Latitude"; "Longitude"].

Definition cell (df : DataFrame) (name : string) (k : nat) : option Q :=
  columns df !! name ≫= fun c => c !! k.

(** What row [k] of the table asks for, axis by axis. *)
Definition query_labels (dataset : Dataset) (df : DataFrame) (k : nat)
    : option (list (string * Q)) :=
  date ← cell df "Date" k;
  latitude ← cell df "Latitude" k;
  longitude ← cell df "Longitude" k;
  if has_depth dataset then
    depth ← cell df "Depth" k;
    Some [("time", date); ("depth", depth); ("latitude", latitude);
          ("longitude", longitude)]
  else
    Some [("time", date); ("latitude", latitude); ("longitude", longitude)].

(** The table with one column set, as read from a file that has it. *)
Definition with_column (name : string) (col : list Q) (df : DataFrame) : DataFrame :=
  mkDataFrame (nrows df) (<[name := col]> (columns df)).

(** The table that one round of the "temporal points" cell computes for a
    dataset identifier. *)
Definition temporal_table (catalogue : string -> Result Dataset) (p : Parameters)
    (id : string) : Result DataFrame :=
  dataset ← catalogue id;
  dataset ← normalize dataset;
  temporal_points dataset (variables p) (dataframe_coordinates p).

Definition temporal_path (p : Parameters) (output_name : string) : string :=
  output_dir p +:+ output_name +:+ "_temporal_points.csv".

(** [start <= t <= stop] *)
Definition in_interval (start stop t : Q) : bool :=
  Qle_bool start t && Qle_bool t stop.

(** The time steps of an axis that fall in an interval, ends included. *)
Definition steps_within (start stop : Q) (time : list Q) : list Q :=
  filter (fun t => in_interval start stop t = true) time.

(** ** Example data *)

(** One time step, latitude stored from north to south; [uo] is 1.5 at
    latitude 42, longitude 6. *)
Definition scenario : Dataset := mkDataset
  (<["time" := [0]%Q]> (<["latitude" := [42; 41; 40]%Q]>
     (<["longitude" := [5; 6; 7]%Q]> ∅)))
  (<["uo" := mkDataArray ["time"; "latitude"; "longitude"]
       (Arr [Arr [Arr [Scalar 1; Scalar (3 # 2); Scalar 2];
                  Arr [Scalar 3; Scalar 4; Scalar 5];
                  Arr [Scalar 6; Scalar 7; Scalar 8]]])]> ∅).

Definition scenario_normalized : Dataset := mkDataset
  (<["time" := [0]%Q]> (<["latitude" := [40; 41; 42]%Q]>
     (<["longitude" := [5; 6; 7]%Q]> ∅)))
  (<["uo" := mkDataArray ["time"; "latitude"; "longitude"]
       (Arr [Arr [Arr [Scalar 6; Scalar 7; Scalar 8];
                  Arr [Scalar 3; Scalar 4; Scalar 5];
                  Arr [Scalar 1; Scalar (3 # 2); Scalar 2]]])]> ∅).

(** The same grid with a latitude axis that is neither ascending nor
    descending. *)
Definition zigzag : Dataset := mkDataset
  (<["time" := [0]%Q]> (<["latitude" := [2; 3; 1]%Q]>
     (<["longitude" := [5; 6; 7]%Q]> ∅)))
  (<["uo" := mkDataArray ["time"; "latitude"; "longitude"]
       (Arr [Arr [Arr [Scalar 1; Scalar (3 # 2); Scalar 2];
                  Arr [Scalar 3; Scalar 4; Scalar 5];
                  Arr [Scalar 6; Scalar 7; Scalar 8]]])]> ∅).

(** The numbers a Python float holds for the decimals 40.05, 40.1 and
    40.2 (binary64, written exactly). *)
Definition f64_40_05 : Q := 2818268204315443 # 70368744177664.
Definition f64_40_1 : Q := 5643573283048653 # 140737488355328.
Definition f64_40_2 : Q := 2828823515942093 # 70368744177664.

(** Two small grids with a depth axis; they hold different values. *)
Definition grid_a : Dataset := mkDataset
  (<["time" := [0; 10]%Q]> (<["depth" := [0]%Q]> (<["latitude" := [40; 41]%Q]>
     (<["longitude" := [5; 6]%Q]> ∅))))
  (<["uo" := mkDataArray ["time"; "depth"; "latitude"; "longitude"]
       (Arr [Arr [Arr [Arr [Scalar 1; Scalar 2]; Arr [Scalar 11; Scalar 12]]];
        Arr [Arr [Arr [Scalar 1001; Scalar 1002]; Arr [Scalar 1011; Scalar
        1012]]]])]> ∅).

Definition grid_b : Dataset := mkDataset
  (<["time" := [0; 10]%Q]> (<["depth" := [0]%Q]> (<["latitude" := [40; 41]%Q]>
     (<["longitude" := [5; 6]%Q]> ∅))))
  (<["uo" := mkDataArray ["time"; "depth"; "latitude"; "longitude"]
       (Arr [Arr [Arr [Arr [Scalar 5001; Scalar 5002]; Arr [Scalar 5011; Scalar
        5012]]]; Arr [Arr [Arr [Scalar 6001; Scalar 6002]; Arr [Scalar 6011;
        Scalar 6012]]]])]> ∅).

(** A catalogue of three datasets: "A" and "B" with depth, "S" without. *)
Definition catalogue_ab (id : string) : Result Dataset :=
  if String.eqb id "A" then ok grid_a
  else if String.eqb id "B" then ok grid_b
  else if String.eqb id "S" then ok scenario
  else raise (KeyError id).

(** Two points, with and without the column "Depth". *)
Definition points_no_depth : DataFrame := mkDataFrame 2
  (<["Date" := [3; 9]%Q]> (<["Latitude" := [41; 201 # 5]%Q]>
     (<["Longitude" := [6; 1000]%Q]> (<["Start" := [0; 11]%Q]>
        (<["End" := [10; 12]%Q]> ∅))))).

Definition points : DataFrame := with_column "Depth" [1; 7]%Q points_no_depth.

(** Ten points. *)
Definition ten_points : DataFrame := mkDataFrame 10
  (<["Date" := replicate 10 3%Q]> (<["Latitude" := replicate 10 41%Q]>
     (<["Longitude" := replicate 10 6%Q]> (<["Depth" := replicate 10 1%Q]>
        (<["Start" := replicate 10 0%Q]> (<["End" := replicate 10 10%Q]> ∅)))))).

Definition parameters_ab : Parameters :=
  mkParameters ["A"; "B"] ["a_"; "b_"] ["uo"] "Dataframes/" points.

(** Ten points, and a variable that the datasets do not hold. *)
Definition parameters_absent : Parameters :=
  mkParameters ["A"; "B"] ["a_"; "b_"] ["uo"; "zz"] "Dataframes/" ten_points.

(** One point against the dataset without depth. *)
Definition parameters_2d : Parameters :=
  mkParameters ["S"] ["s_"] ["uo"] "Dataframes/" points.

(** ** Further vocabulary *)

Definition strictly_descending (c : list Q) : Prop :=
  StronglySorted (fun x y => (y < x)%Q) c.

(** The condition under which [sort_dimension] sorts: the first entry of
    the axis is at least every entry but the last. *)
Definition first_is_largest (c : list Q) : Prop :=
  match c with
  | [] => False
  | c0 :: _ => Forall (fun x => (x <= c0)%Q) (removelast c)
  end.

(** A name that [rename] cannot give to a coordinate. *)
Definition name_taken (dataset : Dataset) (name : string) : Prop :=
  is_Some (coords dataset !! name) \/ is_Some (data_vars dataset !! name).

(** [rename] of a coordinate that may be absent, as one round of the
    renaming loop applies it. *)
Definition rename_if_present (old new : string) (dataset : Dataset) : Result Dataset :=
  if bool_decide (is_Some (coords dataset !! old))
  then rename dataset old new
  else ok dataset.

(** The name of a coordinate after the renaming loop. *)
Definition canonical_name (d : string) : string :=
  if String.eqb d "lon" then "longitude"
  else if String.eqb d "lat" then "latitude"
  else d.

(** The renaming loop has to give a name that is in use. *)
Definition rename_conflict (dataset : Dataset) : Prop :=
  (is_Some (coords dataset !! "lon") /\ name_taken dataset "longitude") \/
  (is_Some (coords dataset !! "lat") /\ name_taken dataset "latitude").

(** The grid of [scenario] under the short axis names. *)
Definition scenario_short : Dataset := mkDataset
  (<["time" := [0]%Q]> (<["lat" := [42; 41; 40]%Q]>
     (<["lon" := [5; 6; 7]%Q]> ∅)))
  (<["uo" := mkDataArray ["time"; "lat"; "lon"]
       (Arr [Arr [Arr [Scalar 1; Scalar (3 # 2); Scalar 2];
                  Arr [Scalar 3; Scalar 4; Scalar 5];
                  Arr [Scalar 6; Scalar 7; Scalar 8]]])]> ∅).

(** A dataset that has both a coordinate [lon] and a coordinate
    [longitude]. *)
Definition scenario_both : Dataset := mkDataset
  (<["lon" := [5; 6; 7]%Q]> (coords scenario)) (data_vars scenario).

(** A grid whose horizontal axes have names the cells do not know. *)
Definition scenario_xy : Dataset := mkDataset
  (<["time" := [0]%Q]> (<["y" := [42; 41; 40]%Q]> (<["x" := [5; 6; 7]%Q]> ∅)))
  (<["uo" := mkDataArray ["time"; "y"; "x"]
       (Arr [Arr [Arr [Scalar 1; Scalar (3 # 2); Scalar 2];
                  Arr [Scalar 3; Scalar 4; Scalar 5];
                  Arr [Scalar 6; Scalar 7; Scalar 8]]])]> ∅).

(** A table without rows that has the columns of [points]. *)
Definition no_points : DataFrame := mkDataFrame 0
  (<["Date" := []]> (<["Latitude" := []]> (<["Longitude" := []]>
     (<["Depth" := []]> (<["Start" := []]> (<["End" := []]> ∅)))))).

(** The name bound by a [for] loop once it has run over [entries]. *)
Definition bound_after (entries : list (string * string)) (before : option string)
    : option string :=
  match last entries with
  | Some entry => Some entry.1
  | None => before
  end.

(** The file of point [i] in the "timeseries" cell. *)
Definition series_path (p : Parameters) (output_name : string) (i : nat) : string :=
  output_dir p +:+ output_name +:+ "point_" +:+ pretty i +:+ ".csv".

(** Row [i] of the table as the branch with depth of the "timeseries" cell
    reads it. *)
Definition series_row (df : DataFrame) (i : nat) : option (Q * Q * Q * Q * Q) :=
  start ← cell df "Start" i;
  stop ← cell df "End" i;
  latitude ← cell df "Latitude" i;
  longitude ← cell df "Longitude" i;
  depth ← cell df "Depth" i;
  Some (start, stop, latitude, longitude, depth).

(** The series of point [i] of the table on a dataset with depth. *)
Definition series_of (dataset : Dataset) (p : Parameters) (i : nat) (point : Dataset)
    : Prop :=
  exists row, series_row (dataframe_coordinates p) i = Some row /\
              series_3d dataset (variables p) row = ok point.

(** One dataset, as in the notebook. *)
Definition parameters_a : Parameters :=
  mkParameters ["A"] ["a_"] ["uo"] "Dataframes/" points.

(** More datasets than output names. *)
Definition parameters_short : Parameters :=
  mkParameters ["A"; "B"] ["a_"] ["uo"] "Dataframes/" points.

(** ** The table of fake points

    The cell "Create fake csv" draws the points and writes them to a
    file; the cell "Read input csv file" reads the file back and converts
    the three date columns.  Together:
<<
   n = 10
   fake_lat = [(40 + 2 * random.random()) for i in range(n)]
   fake_lon = [(4 + 4 * random.random()) for i in range(n)]
   start_dates = ["2020-01-01"] * n
   end_dates = ["2020-12-31"] * n
   depth = [(5 * random.random()) for i in range(n)]
   date = "2020-01-01"
   data = {'Latitude': fake_lat, 'Longitude': fake_lon,
        'Start': start_dates, 'End': end_dates,
        'Depth': depth, 'Date': date}
>>
    The values that [random.random()] returns, in the order of the calls,
    and the conversion of a date are parameters. *)
Section FakePoints.

Variable random : nat -> Q.

Variable to_datetime : string -> Q.

Definition fake_coords (n : nat) : DataFrame :=
  let fake_lat := (fun i => 40 + 2 * random i)%Q <$> seq 0 n in
  let fake_lon := (fun i => 4 + 4 * random i)%Q <$> seq n n in
  let start_dates := replicate n "2020-01-01" in
  let end_dates := replicate n "2020-12-31" in
  let depth := (fun i => 5 * random i)%Q <$> seq (2 * n) n in
  let date := "2020-01-01" in
  mkDataFrame n
    (<["Latitude" := fake_lat]> (<["Longitude" := fake_lon]>
       (<["Start" := to_datetime <$> start_dates]>
          (<["End" := to_datetime <$> end_dates]>
             (<["Depth" := depth]>
                (<["Date" := replicate n (to_datetime date)]> ∅)))))).

End FakePoints.

(** ** Axes in either direction

    Only latitude and longitude are sorted by the cells; time and depth
    are searched in the order in which the dataset stores them. *)

(** An axis that [sel(..., method="nearest")] can search: not empty,
    without repeated values, ascending or descending. *)
Definition axis_searchable (dataset : Dataset) (d : string) : bool :=
  match coords dataset !! d with
  | Some c =>
      negb (length c =? 0)%nat && is_unique c
      && (is_monotonic_increasing c || is_monotonic_decreasing c)
  | None => false
  end.

(** The position selected on an axis, whatever its direction: as close to
    the label as any other, and of the coordinates that are as close the
    largest. *)
Definition nearest_value (index : list Q) (q : Q) (i : nat) : Prop :=
  exists y, index !! i = Some y /\
    forall j x, index !! j = Some x ->
      (Qabs (y - q) <= Qabs (x - q))%Q /\
      ((Qabs (x - q) == Qabs (y - q))%Q -> (x <= y)%Q).

(** [x] is the value of the variable at the positions selected for the
    labels, each on the axis of its own dimension and by the label of that
    dimension alone; a label that is a coordinate of its axis selects the
    position of that coordinate. *)
Definition sampled_nearest (dataset : Dataset) (var : string)
    (labels : list (string * Q)) (x : Q) : Prop :=
  exists v idxs,
    data_vars dataset !! var = Some v /\ dims v = labels.*1 /\
    Forall2 (fun l i => exists c, coords dataset !! l.1 = Some c /\
                          sel_nearest l.1 c l.2 = ok i /\ nearest_value c l.2 i /\
                          forall j y, c !! j = Some y -> (y == l.2)%Q -> i = j)
            labels idxs /\
    get (values v) idxs = Some x.

(** A grid whose depth axis goes downwards, as stored. *)
Definition grid_deep : Dataset := mkDataset
  (<["time" := [0]%Q]> (<["depth" := [0; -5; -10]%Q]> (<["latitude" := [40; 41]%Q]>
     (<["longitude" := [5; 6]%Q]> ∅))))
  (<["uo" := mkDataArray ["time"; "depth"; "latitude"; "longitude"]
       (Arr [Arr [Arr [Arr [Scalar 1; Scalar 2]; Arr [Scalar 3; Scalar 4]];
                  Arr [Arr [Scalar 101; Scalar 102]; Arr [Scalar 103; Scalar 104]];
                  Arr [Arr [Scalar 201; Scalar 202]; Arr [Scalar 203; Scalar 204]]]])]> ∅).
(** ** The exception monad *)

Lemma bind_ok {A B} (m : Result A) (k : A -> Result B) (b : B) :
  (m ≫= k) = inr b -> exists a, m = inr a /\ k a = inr b.
Proof. destruct m as [e|a]; simpl; [discriminate | eauto]. Qed.

Lemma bind_ret {A B} (a : A) (k : A -> Result B) : (ok a ≫= k) = k a.
Proof. reflexivity. Qed.

Lemma traverse_length {A B} (f : A -> Result B) (l : list A) (r : list B) :
  traverse f l = inr r -> length r = length l.
Proof.
  revert r. induction l as [|x l IH]; intros r; simpl.
  - intros [= <-]. reflexivity.
  - intros H. apply bind_ok in H as (y & _ & H).
    apply bind_ok in H as (ys & Hys & [= <-]).
    simpl. f_equal. eauto.
Qed.

Lemma traverse_Forall2 {A B} (f : A -> Result B) (l : list A) (r : list B) :
  traverse f l = inr r -> Forall2 (fun x y => f x = inr y) l r.
Proof.
  revert r. induction l as [|x l IH]; intros r; simpl.
  - intros [= <-]. constructor.
  - intros H. apply bind_ok in H as (y & Hy & H).
    apply bind_ok in H as (ys & Hys & [= <-]).
    constructor; eauto.
Qed.

Lemma traverse_total {A B} (f : A -> Result B) (l : list A) :
  Forall (fun x => exists y, f x = inr y) l -> exists r, traverse f l = inr r.
Proof.
  induction 1 as [|x l [y Hy] _ [r Hr]]; simpl.
  - eexists; reflexivity.
  - rewrite Hy. simpl. rewrite Hr. simpl. eexists; reflexivity.
Qed.

(** ** Arrays *)

Lemma get_Arr (items : list ndarray) (i : nat) (rest : list nat) :
  get (Arr items) (i :: rest) = items !! i ≫= fun x => get x rest.
Proof.
  simpl. revert i. induction items as [|x items IH]; intros [|i]; simpl; auto.
Qed.

Lemma omap_lookup_seq {A} (pre l : list A) :
  omap (fun i => (pre ++ l) !! i) (seq (length pre) (length l)) = l.
Proof.
  revert pre. induction l as [|x l IH]; intros pre; simpl; [reflexivity|].
  rewrite list_lookup_middle by reflexivity.
  f_equal. specialize (IH (pre ++ [x])).
  rewrite <- app_assoc, length_app in IH. simpl in IH.
  rewrite Nat.add_1_r in IH. exact IH.
Qed.

Lemma omap_lookup_id {A} (l : list A) :
  omap (fun i => l !! i) (seq 0 (length l)) = l.
Proof. exact (omap_lookup_seq [] l). Qed.

Lemma take_axis_id (shape : list nat) (a : ndarray) (k n : nat) :
  shape_ok shape a = true -> shape !! k = Some n -> take_axis k (seq 0 n) a = a.
Proof.
  revert a k. induction shape as [|m shape IH]; intros a k Ha Hk.
  - destruct k; discriminate.
  - destruct a as [v|items]; simpl in Ha; [discriminate|].
    apply andb_true_iff in Ha as [Hlen Hall].
    apply Nat.eqb_eq in Hlen. rewrite forallb_forall in Hall.
    destruct k as [|k]; simpl in *.
    + injection Hk as <-. rewrite <- Hlen. f_equal. apply omap_lookup_id.
    + f_equal. rewrite <- (map_id items) at 2.
      apply map_ext_in. intros x Hx. apply IH; auto.
Qed.

Lemma axis_of_lookup (d : string) (ds : list string) (k : nat) :
  axis_of d ds = Some k -> ds !! k = Some d.
Proof.
  revert k. induction ds as [|d' ds IH]; intros k; simpl; [discriminate|].
  destruct (String.eqb_spec d d') as [->|Hne].
  - intros [= <-]. reflexivity.
  - destruct (axis_of d ds) as [k'|]; simpl; [|discriminate].
    intros [= <-]. simpl. auto.
Qed.

(** ** Sorting *)

Lemma insert_key_perm (x : Q * nat) (l : list (Q * nat)) :
  insert_key x l ≡ₚ x :: l.
Proof.
  induction l as [|y l IH]; simpl; [reflexivity|].
  destruct (Qle_bool x.1 y.1); [reflexivity|].
  rewrite IH. apply Permutation_swap.
Qed.

Lemma sort_keys_perm (l : list (Q * nat)) : sort_keys l ≡ₚ l.
Proof.
  induction l as [|x l IH]; simpl; [reflexivity|].
  rewrite insert_key_perm, IH. reflexivity.
Qed.

Lemma insert_key_sorted (x : Q * nat) (l : list (Q * nat)) :
  Sorted key_le l -> Sorted key_le (insert_key x l).
Proof.
  induction 1 as [|y l Hs IH Hhd]; simpl.
  - repeat constructor.
  - destruct (Qle_bool x.1 y.1) eqn:E.
    + apply Qle_bool_iff in E. repeat constructor; assumption.
    + assert (y.1 <= x.1)%Q as Hyx.
      { apply Qlt_le_weak, Qnot_le_lt. intros H.
        apply Qle_bool_iff in H. congruence. }
      constructor; [assumption|].
      destruct Hhd as [|z l Hz]; simpl.
      * constructor. exact Hyx.
      * destruct (Qle_bool x.1 z.1); constructor; assumption.
Qed.

Lemma sort_keys_sorted (l : list (Q * nat)) : Sorted key_le (sort_keys l).
Proof.
  induction l as [|x l IH]; simpl; [constructor|].
  apply insert_key_sorted, IH.
Qed.

(** A stable sort leaves a sorted list alone. *)
Lemma sort_keys_id (l : list (Q * nat)) : Sorted key_le l -> sort_keys l = l.
Proof.
  induction 1 as [|x l Hs IH Hhd]; simpl; [reflexivity|].
  rewrite IH. destruct Hhd as [|y l Hy]; simpl; [reflexivity|].
  apply Qle_bool_iff in Hy. rewrite Hy. reflexivity.
Qed.

Lemma enumerate_from_fst (c : list Q) (s : nat) : (zip c (seq s (length c))).*1 = c.
Proof.
  revert s. induction c as [|x c IH]; intros s; simpl; [reflexivity|].
  f_equal. apply IH.
Qed.

Lemma enumerate_from_snd (c : list Q) (s : nat) :
  (zip c (seq s (length c))).*2 = seq s (length c).
Proof.
  revert s. induction c as [|x c IH]; intros s; simpl; [reflexivity|].
  f_equal. apply IH.
Qed.

Lemma enumerate_from_sorted (c : list Q) (s : nat) :
  Sorted Qle c -> Sorted key_le (zip c (seq s (length c))).
Proof.
  intros H. revert s. induction H as [|x c Hs IH Hhd]; intros s; simpl.
  - constructor.
  - constructor; [apply IH|].
    destruct Hhd as [|y c Hy]; simpl; constructor. exact Hy.
Qed.

Lemma lexsort_perm (c : list Q) : lexsort c ≡ₚ seq 0 (length c).
Proof.
  unfold lexsort, enumerate.
  rewrite sort_keys_perm. rewrite enumerate_from_snd. reflexivity.
Qed.

Lemma lexsort_sorted_id (c : list Q) : Sorted Qle c -> lexsort c = seq 0 (length c).
Proof.
  intros H. unfold lexsort, enumerate.
  rewrite sort_keys_id by (apply enumerate_from_sorted, H).
  apply enumerate_from_snd.
Qed.

(** ** Datasets *)

Lemma fits_inv (cs : gmap string (list Q)) (v : DataArray) :
  fits cs v = true ->
  NoDup (dims v) /\
  exists shape, shape_of cs (dims v) = Some shape /\ shape_ok shape (values v) = true.
Proof.
  unfold fits. intros H. apply andb_true_iff in H as [Hnd Hs].
  apply bool_decide_eq_true in Hnd. split; [assumption|].
  destruct (shape_of cs (dims v)) as [shape|]; [eauto | discriminate].
Qed.

Lemma shape_of_lookup (cs : gmap string (list Q)) (ds : list string)
    (shape : list nat) (k : nat) (d : string) (c : list Q) :
  shape_of cs ds = Some shape -> ds !! k = Some d -> cs !! d = Some c ->
  shape !! k = Some (length c).
Proof.
  unfold shape_of. intros Hs Hk Hc. apply mapM_Some in Hs.
  destruct (Forall2_lookup_l _ _ _ _ _ Hs Hk) as (n & Hn & Hd).
  rewrite Hc in Hd. simpl in Hd. congruence.
Qed.

Lemma isel_var_id (cs : gmap string (list Q)) (d : string) (c : list Q) (v : DataArray) :
  fits cs v = true -> cs !! d = Some c -> isel_var d (seq 0 (length c)) v = v.
Proof.
  intros Hv Hc. apply fits_inv in Hv as (_ & shape & Hshape & Hok).
  unfold isel_var. destruct (axis_of d (dims v)) as [k|] eqn:Hk; [|reflexivity].
  apply axis_of_lookup in Hk.
  rewrite (take_axis_id shape) by eauto using shape_of_lookup.
  destruct v; reflexivity.
Qed.

Lemma strictly_ascending_Sorted (c : list Q) : strictly_ascending c -> Sorted Qle c.
Proof.
  induction 1 as [|x c Hs IH Hall]; constructor; [assumption|].
  destruct Hall as [|y c Hy _]; constructor. apply Qlt_le_weak, Hy.
Qed.

(** Sorting an axis that is in order changes nothing. *)
Lemma sortby_sorted_id (dataset : Dataset) (dim_name : string) (c : list Q) :
  consistent dataset ->
  coords dataset !! dim_name = Some c ->
  Sorted Qle c ->
  sortby dataset dim_name = ok dataset.
Proof.
  intros Hcons Hc Hs. unfold sortby. rewrite Hc. simpl.
  rewrite lexsort_sorted_id by assumption. rewrite omap_lookup_id.
  unfold ok. f_equal. destruct dataset as [cs vs]; simpl in *. f_equal.
  - apply insert_id, Hc.
  - apply map_eq. intros name. rewrite lookup_fmap.
    destruct (vs !! name) as [v|] eqn:Hv; simpl; [|reflexivity].
    f_equal. eapply isel_var_id; [|eassumption]. exact (Hcons name v Hv).
Qed.

(** ** Exact lookup of a coordinate value *)

Lemma index_of_lookup (c : list Q) (q : Q) (i : nat) :
  index_of c q = Some i -> exists x, c !! i = Some x /\ Qeq_bool x q = true.
Proof.
  revert i. induction c as [|y c IH]; intros i; simpl; [discriminate|].
  destruct (Qeq_bool y q) eqn:E.
  - intros [= <-]. eauto.
  - destruct (index_of c q) as [i'|]; simpl; [|discriminate].
    intros [= <-]. simpl. eauto.
Qed.

Lemma index_of_found (c : list Q) (q : Q) (j : nat) (x : Q) :
  c !! j = Some x -> Qeq_bool x q = true -> exists i, index_of c q = Some i.
Proof.
  revert j. induction c as [|y c IH]; intros j; simpl; [discriminate|].
  destruct (Qeq_bool y q) eqn:E; [eauto|].
  destruct j as [|j]; simpl.
  - intros [= ->]. congruence.
  - intros Hj Hx. destruct (IH j Hj Hx) as [i ->]. simpl. eauto.
Qed.

Lemma existsb_Qeq_false (x : Q) (c : list Q) (j : nat) (y : Q) :
  existsb (Qeq_bool x) c = false -> c !! j = Some y -> Qeq_bool x y = false.
Proof.
  revert j. induction c as [|z c IH]; intros j; simpl; [discriminate|].
  intros H. apply orb_false_iff in H as [Hz Hc].
  destruct j as [|j]; simpl; [intros [= <-]; assumption | eauto].
Qed.

Lemma Qeq_bool_sym (x y : Q) : Qeq_bool x y = Qeq_bool y x.
Proof.
  destruct (Qeq_bool x y) eqn:E1, (Qeq_bool y x) eqn:E2; try reflexivity.
  - apply Qeq_bool_iff in E1. symmetry in E1. apply Qeq_bool_iff in E1. congruence.
  - apply Qeq_bool_iff in E2. symmetry in E2. apply Qeq_bool_iff in E2. congruence.
Qed.

Lemma is_unique_lookup (c : list Q) (i j : nat) (x y : Q) :
  is_unique c = true -> c !! i = Some x -> c !! j = Some y ->
  Qeq_bool x y = true -> i = j.
Proof.
  revert i j. induction c as [|z c IH]; intros i j Hu; simpl in *; [discriminate|].
  apply andb_true_iff in Hu as [Hz Hu]. apply negb_true_iff in Hz.
  destruct i as [|i], j as [|j]; simpl; try reflexivity.
  - intros [= ->] Hj E. rewrite (existsb_Qeq_false _ _ _ _ Hz Hj) in E. discriminate.
  - intros Hi [= ->] E. rewrite Qeq_bool_sym in E.
    rewrite (existsb_Qeq_false _ _ _ _ Hz Hi) in E. discriminate.
  - intros Hi Hj E. f_equal. eauto.
Qed.

Lemma omap_lookup_in_range {A} (l : list A) (p : list nat) (j : nat) :
  Forall (fun i => (i < length l)%nat) p ->
  omap (fun i => l !! i) p !! j = p !! j ≫= fun i => l !! i.
Proof.
  intros Hp. revert j. induction Hp as [|i p Hi Hp IH]; intros j; simpl.
  - destruct j; reflexivity.
  - destruct (lookup_lt_is_Some_2 l i Hi) as [x Hx]. rewrite Hx.
    destruct j as [|j]; simpl; [symmetry; exact Hx | apply IH].
Qed.

Lemma omap_lookup_length {A} (l : list A) (p : list nat) :
  Forall (fun i => (i < length l)%nat) p ->
  length (omap (fun i => l !! i) p) = length p.
Proof.
  induction 1 as [|i p Hi Hp IH]; simpl; [reflexivity|].
  destruct (lookup_lt_is_Some_2 l i Hi) as [x ->]. simpl. f_equal. exact IH.
Qed.

Lemma lexsort_in_range (c : list Q) :
  Forall (fun i => (i < length c)%nat) (lexsort c).
Proof.
  apply Forall_forall. intros i Hi.
  rewrite lexsort_perm in Hi. apply elem_of_seq in Hi. lia.
Qed.

Lemma lexsort_NoDup (c : list Q) : NoDup (lexsort c).
Proof. rewrite lexsort_perm. apply NoDup_seq. Qed.

Lemma lexsort_length (c : list Q) : length (lexsort c) = length c.
Proof. rewrite lexsort_perm. apply length_seq. Qed.

(** Every position of the axis is one position of the sorted axis. *)
Lemma lexsort_onto (c : list Q) (i : nat) :
  (i < length c)%nat -> exists j, lexsort c !! j = Some i.
Proof.
  intros Hi. apply list_elem_of_lookup. rewrite lexsort_perm.
  apply elem_of_seq. lia.
Qed.

(** The label found at position [i] of the axis is found, after the sort,
    at the position that came from [i]. *)
Lemma index_of_sorted (c : list Q) (q : Q) (i : nat) :
  is_unique c = true ->
  index_of c q = Some i ->
  exists j, index_of (omap (fun i => c !! i) (lexsort c)) q = Some j /\
            lexsort c !! j = Some i.
Proof.
  intros Hu Hi.
  destruct (index_of_lookup _ _ _ Hi) as (x & Hx & Ex).
  destruct (lexsort_onto c i) as [j Hj]; [eapply lookup_lt_Some, Hx|].
  pose proof (lexsort_in_range c) as Hr.
  assert (omap (fun i => c !! i) (lexsort c) !! j = Some x) as Hjx.
  { rewrite omap_lookup_in_range by assumption. rewrite Hj. exact Hx. }
  destruct (index_of_found _ _ _ _ Hjx Ex) as [j' Hj'].
  exists j'. split; [assumption|].
  destruct (index_of_lookup _ _ _ Hj') as (y & Hy & Ey).
  rewrite omap_lookup_in_range in Hy by assumption.
  destruct (lexsort c !! j') as [i'|] eqn:Hi'; simpl in Hy; [|discriminate].
  assert (i' = i) as ->; [|reflexivity].
  eapply is_unique_lookup; eauto.
  apply Qeq_bool_iff in Ex, Ey. apply Qeq_bool_iff. rewrite Ex, Ey. reflexivity.
Qed.

(** ** Reordering an axis *)

Lemma get_take_axis (shape : list nat) (a : ndarray) (k n : nat) (p idxs : list nat)
    (j i : nat) :
  shape_ok shape a = true -> shape !! k = Some n ->
  Forall (fun i => (i < n)%nat) p ->
  idxs !! k = Some j -> p !! j = Some i ->
  get (take_axis k p a) idxs = get a (<[k:=i]> idxs).
Proof.
  revert a k idxs. induction shape as [|m shape IH]; intros a k idxs Ha Hk Hp Hj Hi.
  - destruct k; discriminate.
  - destruct a as [v|items]; simpl in Ha; [discriminate|].
    apply andb_true_iff in Ha as [Hlen Hall].
    apply Nat.eqb_eq in Hlen. rewrite forallb_forall in Hall.
    destruct idxs as [|j0 rest]; [discriminate|].
    destruct k as [|k]; simpl in Hk, Hj.
    + injection Hk as <-. injection Hj as ->.
      cbn [take_axis]. simpl insert. rewrite !get_Arr.
      rewrite <- Hlen in Hp. rewrite omap_lookup_in_range by assumption.
      rewrite Hi. reflexivity.
    + cbn [take_axis]. simpl insert. rewrite !get_Arr.
      rewrite list_lookup_fmap.
      destruct (items !! j0) as [x|] eqn:Hx; simpl; [|reflexivity].
      apply (IH x k rest); auto.
      apply Hall. apply list_elem_of_In. eapply list_elem_of_lookup_2, Hx.
Qed.

Lemma shape_ok_take_axis (shape : list nat) (a : ndarray) (k n : nat) (p : list nat) :
  shape_ok shape a = true -> shape !! k = Some n ->
  Forall (fun i => (i < n)%nat) p ->
  shape_ok (<[k:=length p]> shape) (take_axis k p a) = true.
Proof.
  revert a k. induction shape as [|m shape IH]; intros a k Ha Hk Hp.
  - destruct k; discriminate.
  - destruct a as [v|items]; simpl in Ha; [discriminate|].
    apply andb_true_iff in Ha as [Hlen Hall].
    apply Nat.eqb_eq in Hlen. rewrite forallb_forall in Hall.
    destruct k as [|k]; simpl in Hk.
    + injection Hk as <-. cbn [take_axis]. simpl.
      rewrite <- Hlen in Hp. rewrite omap_lookup_length by assumption.
      rewrite Nat.eqb_refl. simpl. apply forallb_forall. intros x Hx.
      apply Hall. apply list_elem_of_In in Hx. apply list_elem_of_In.
      apply list_elem_of_omap in Hx as (i & _ & Hx).
      eapply list_elem_of_lookup_2, Hx.
    + cbn [take_axis]. simpl. rewrite length_map, Hlen, Nat.eqb_refl. simpl.
      apply forallb_forall. intros x Hx. apply in_map_iff in Hx as (y & <- & Hy).
      apply IH; auto.
Qed.

Lemma axis_of_None (d : string) (ds : list string) : axis_of d ds = None -> d ∉ ds.
Proof.
  induction ds as [|d' ds IH]; simpl; [intros _; apply not_elem_of_nil|].
  destruct (String.eqb_spec d d') as [->|Hne]; [discriminate|].
  destruct (axis_of d ds); simpl; [discriminate|].
  intros _. apply not_elem_of_cons. auto.
Qed.

Lemma positions_other (cs : gmap string (list Q)) (d : string) (c' : list Q)
    (ds : list string) (point : list Q) :
  d ∉ ds -> positions (<[d:=c']> cs) ds point = positions cs ds point.
Proof.
  revert point. induction ds as [|d0 ds IH]; intros point Hd; [reflexivity|].
  apply not_elem_of_cons in Hd as [Hne Hd].
  destruct point as [|q point]; [reflexivity|]. simpl.
  rewrite lookup_insert_ne by auto. rewrite IH by assumption. reflexivity.
Qed.

Lemma positions_sorted (cs : gmap string (list Q)) (d : string) (c : list Q)
    (ds : list string) (point : list Q) (idxs : list nat) (k : nat) :
  cs !! d = Some c -> is_unique c = true ->
  NoDup ds -> ds !! k = Some d ->
  positions cs ds point = Some idxs ->
  exists i j,
    idxs !! k = Some i /\ lexsort c !! j = Some i /\
    positions (<[d := omap (fun i => c !! i) (lexsort c)]> cs) ds point
      = Some (<[k:=j]> idxs).
Proof.
  intros Hc Hu. revert point idxs k.
  induction ds as [|d0 ds IH]; intros point idxs k Hnd Hk Hpos; [discriminate|].
  apply NoDup_cons in Hnd as [Hd0 Hnd].
  destruct point as [|q point]; [discriminate|]. simpl in Hpos.
  destruct (cs !! d0) as [c0|] eqn:Hc0; simpl in Hpos; [|discriminate].
  destruct (index_of c0 q) as [i0|] eqn:Hi0; simpl in Hpos; [|discriminate].
  destruct (positions cs ds point) as [rest|] eqn:Hrest; simpl in Hpos; [|discriminate].
  injection Hpos as <-.
  destruct k as [|k]; simpl in Hk.
  - injection Hk as ->. rewrite Hc in Hc0. injection Hc0 as <-.
    destruct (index_of_sorted c q i0 Hu Hi0) as (j & Hj & Hji).
    exists i0, j. split; [reflexivity|]. split; [assumption|].
    simpl. rewrite lookup_insert_eq. simpl. rewrite Hj. simpl.
    rewrite positions_other by assumption. rewrite Hrest. reflexivity.
  - destruct (IH point rest k Hnd Hk Hrest) as (i & j & Hi & Hj & Hp).
    exists i, j. split; [assumption|]. split; [assumption|].
    assert (d ≠ d0) as Hne.
    { intros ->. apply Hd0. eapply list_elem_of_lookup_2, Hk. }
    simpl. rewrite lookup_insert_ne by assumption. rewrite Hc0. simpl.
    rewrite Hi0. simpl. rewrite Hp. reflexivity.
Qed.

(** The sort moves no value away from its coordinates: what is read at a
    physical point before [sortby] is read there after it. *)
Lemma sortby_value_at (dataset dataset' : Dataset) (dim_name : string) (c : list Q)
    (var : string) (point : list Q) (x : Q) :
  consistent dataset ->
  coords dataset !! dim_name = Some c -> is_unique c = true ->
  sortby dataset dim_name = ok dataset' ->
  value_at dataset var point = Some x ->
  value_at dataset' var point = Some x.
Proof.
  intros Hcons Hc Hu Hsort Hval. unfold sortby in Hsort. rewrite Hc in Hsort.
  injection Hsort as <-. unfold value_at in *. simpl.
  rewrite lookup_fmap.
  destruct (data_vars dataset !! var) as [v|] eqn:Hv; simpl in *; [|discriminate].
  destruct (positions (coords dataset) (dims v) point) as [idxs|] eqn:Hpos;
    simpl in Hval; [|discriminate].
  destruct (fits_inv _ _ (Hcons var v Hv)) as (Hnd & shape & Hshape & Hok).
  unfold isel_var. destruct (axis_of dim_name (dims v)) as [k|] eqn:Hk; simpl.
  - apply axis_of_lookup in Hk.
    destruct (positions_sorted _ _ _ _ _ _ _ Hc Hu Hnd Hk Hpos)
      as (i & j & Hi & Hj & ->). simpl.
    rewrite (get_take_axis shape _ k (length c) _ _ j i); eauto.
    + rewrite list_insert_insert_eq, list_insert_id; assumption.
    + eapply shape_of_lookup; eauto.
    + apply lexsort_in_range.
    + apply list_lookup_insert_eq. eapply lookup_lt_Some, Hi.
  - rewrite positions_other by (apply axis_of_None, Hk).
    rewrite Hpos. simpl. exact Hval.
Qed.

Lemma sort_dimension_value_at (dataset dataset' : Dataset) (dim_name : string)
    (c : list Q) (var : string) (point : list Q) (x : Q) :
  consistent dataset ->
  coords dataset !! dim_name = Some c -> is_unique c = true ->
  sort_dimension dataset dim_name = ok dataset' ->
  value_at dataset var point = Some x ->
  value_at dataset' var point = Some x.
Proof.
  intros Hcons Hc Hu Hsort. unfold sort_dimension in Hsort. rewrite Hc in Hsort.
  simpl in Hsort. destruct (head c) as [c0|]; simpl in Hsort; [|discriminate].
  destruct (forallb _ _).
  - eapply sortby_value_at; eauto.
  - injection Hsort as <-. auto.
Qed.

(** ** Nothing is read after the sort that was not there before *)

Lemma get_defined (shape : list nat) (a : ndarray) (idxs : list nat) :
  shape_ok shape a = true -> Forall2 (fun i n => (i < n)%nat) idxs shape ->
  is_Some (get a idxs).
Proof.
  revert a idxs. induction shape as [|n shape IH]; intros a idxs Ha Hin.
  - apply Forall2_nil_inv_r in Hin as ->. destruct a; [simpl; eauto | discriminate].
  - apply Forall2_cons_inv_r in Hin as (i & rest & Hi & Hrest & ->).
    destruct a as [v|items]; simpl in Ha; [discriminate|].
    apply andb_true_iff in Ha as [Hlen Hall]. apply Nat.eqb_eq in Hlen.
    rewrite forallb_forall in Hall.
    destruct (lookup_lt_is_Some_2 items i ltac:(lia)) as [x Hx].
    rewrite get_Arr, Hx. simpl. apply IH; [|assumption].
    apply Hall, list_elem_of_In. eapply list_elem_of_lookup_2, Hx.
Qed.

Lemma positions_in_range (cs : gmap string (list Q)) (ds : list string)
    (point : list Q) (idxs : list nat) (shape : list nat) :
  positions cs ds point = Some idxs -> shape_of cs ds = Some shape ->
  Forall2 (fun i n => (i < n)%nat) idxs shape.
Proof.
  unfold shape_of. revert point idxs shape.
  induction ds as [|d ds IH]; intros point idxs shape; simpl.
  - destruct point; [|discriminate]. intros [= <-] [= <-]. constructor.
  - destruct point as [|q point]; [discriminate|].
    destruct (cs !! d) as [c|]; simpl; [|discriminate].
    destruct (index_of c q) as [i|] eqn:Hi; simpl; [|discriminate].
    destruct (positions cs ds point) as [rest|] eqn:Hrest; simpl; [|discriminate].
    destruct (mapM _ ds) as [shape'|] eqn:Hshape; simpl; [|discriminate].
    intros [= <-] [= <-]. constructor; [|eapply IH; eauto].
    destruct (index_of_lookup _ _ _ Hi) as (x & Hx & _). eapply lookup_lt_Some, Hx.
Qed.

Lemma value_at_defined (dataset : Dataset) (var : string) (v : DataArray)
    (point : list Q) :
  consistent dataset -> data_vars dataset !! var = Some v ->
  is_Some (positions (coords dataset) (dims v) point) ->
  is_Some (value_at dataset var point).
Proof.
  intros Hcons Hv [idxs Hpos]. unfold value_at. rewrite Hv. simpl. rewrite Hpos. simpl.
  destruct (fits_inv _ _ (Hcons var v Hv)) as (_ & shape & Hshape & Hok).
  eapply get_defined; eauto using positions_in_range.
Qed.

Lemma positions_unsorted (cs : gmap string (list Q)) (d : string) (c : list Q)
    (ds : list string) (point : list Q) :
  cs !! d = Some c ->
  is_Some (positions (<[d := omap (fun i => c !! i) (lexsort c)]> cs) ds point) ->
  is_Some (positions cs ds point).
Proof.
  intros Hc. revert point. induction ds as [|d0 ds IH]; intros point; simpl.
  - auto.
  - destruct point as [|q point]; [auto|]. intros [idxs H].
    destruct (decide (d = d0)) as [<-|Hne].
    + rewrite lookup_insert_eq in H. rewrite Hc. simpl in *.
      destruct (index_of (omap _ _) q) as [j|] eqn:Hj; simpl in H; [|discriminate].
      destruct (index_of_lookup _ _ _ Hj) as (x & Hx & Ex).
      rewrite omap_lookup_in_range in Hx by apply lexsort_in_range.
      destruct (lexsort c !! j) as [i|]; simpl in Hx; [|discriminate].
      destruct (index_of_found _ _ _ _ Hx Ex) as [i' ->]. simpl.
      destruct (positions (<[d:=_]> cs) ds point) as [rest|] eqn:Hrest;
        simpl in H; [|discriminate].
      destruct (IH point (ex_intro _ rest Hrest)) as [rest' ->]. simpl. eauto.
    + rewrite lookup_insert_ne in H by assumption.
      destruct (cs !! d0) as [c0|]; simpl in *; [|discriminate].
      destruct (index_of c0 q); simpl in *; [|discriminate].
      destruct (positions (<[d:=_]> cs) ds point) as [rest|] eqn:Hrest;
        simpl in H; [|discriminate].
      destruct (IH point (ex_intro _ rest Hrest)) as [rest' ->]. simpl. eauto.
Qed.

Lemma sortby_defined (dataset dataset' : Dataset) (dim_name : string)
    (var : string) (point : list Q) :
  consistent dataset -> sortby dataset dim_name = ok dataset' ->
  is_Some (value_at dataset' var point) -> is_Some (value_at dataset var point).
Proof.
  intros Hcons Hsort Hval. unfold sortby in Hsort.
  destruct (coords dataset !! dim_name) as [c|] eqn:Hc; [|discriminate].
  injection Hsort as <-. unfold value_at in Hval. simpl in Hval.
  rewrite lookup_fmap in Hval.
  destruct (data_vars dataset !! var) as [v|] eqn:Hv; simpl in Hval;
    [|destruct Hval; discriminate].
  apply (value_at_defined dataset var v point Hcons Hv).
  apply (positions_unsorted _ dim_name c _ _ Hc).
  assert (dims (isel_var dim_name (lexsort c) v) = dims v) as Hdims.
  { unfold isel_var. destruct (axis_of dim_name (dims v)); reflexivity. }
  rewrite Hdims in Hval.
  destruct (positions _ (dims v) point); [eauto | destruct Hval; discriminate].
Qed.

(** ** What the sort preserves *)

Lemma is_unique_intro (c : list Q) :
  (forall i j x y, c !! i = Some x -> c !! j = Some y -> Qeq_bool x y = true -> i = j) ->
  is_unique c = true.
Proof.
  induction c as [|z c IH]; intros H; simpl; [reflexivity|].
  apply andb_true_iff. split.
  - apply negb_true_iff. destruct (existsb (Qeq_bool z) c) eqn:E; [|reflexivity].
    apply existsb_exists in E as (y & Hy & E).
    apply list_elem_of_In, list_elem_of_lookup in Hy as [j Hj].
    specialize (H O (S j) z y eq_refl Hj E). discriminate.
  - apply IH. intros i j x y Hi Hj E.
    specialize (H (S i) (S j) x y Hi Hj E). congruence.
Qed.

Lemma is_unique_sorted (c : list Q) :
  is_unique c = true -> is_unique (omap (fun i => c !! i) (lexsort c)) = true.
Proof.
  intros Hu. apply is_unique_intro. intros a b x y Ha Hb E.
  pose proof (lexsort_in_range c) as Hr.
  rewrite omap_lookup_in_range in Ha, Hb by assumption.
  destruct (lexsort c !! a) as [i|] eqn:Hi; simpl in Ha; [|discriminate].
  destruct (lexsort c !! b) as [j|] eqn:Hj; simpl in Hb; [|discriminate].
  assert (i = j) as -> by (eapply is_unique_lookup; eauto).
  eapply NoDup_lookup; eauto using lexsort_NoDup.
Qed.

Lemma shape_of_ext (cs cs' : gmap string (list Q)) (ds : list string) :
  (forall d, d ∈ ds -> length <$> cs' !! d = length <$> cs !! d) ->
  shape_of cs' ds = shape_of cs ds.
Proof.
  unfold shape_of. induction ds as [|d ds IH]; intros H; [reflexivity|].
  simpl. rewrite H by apply list_elem_of_here.
  rewrite IH; [reflexivity|]. intros d' Hd'. apply H. by apply list_elem_of_further.
Qed.

Lemma sorted_length (c : list Q) :
  length (omap (fun i => c !! i) (lexsort c)) = length c.
Proof.
  rewrite omap_lookup_length by apply lexsort_in_range. apply lexsort_length.
Qed.

Lemma sortby_consistent (dataset dataset' : Dataset) (dim_name : string) :
  consistent dataset -> sortby dataset dim_name = ok dataset' -> consistent dataset'.
Proof.
  intros Hcons Hsort. unfold sortby in Hsort.
  destruct (coords dataset !! dim_name) as [c|] eqn:Hc; [|discriminate].
  injection Hsort as <-. intros name v'. simpl. rewrite lookup_fmap.
  destruct (data_vars dataset !! name) as [v|] eqn:Hv; simpl; [|discriminate].
  intros [= <-].
  destruct (fits_inv _ _ (Hcons name v Hv)) as (Hnd & shape & Hshape & Hok).
  assert (forall ds, shape_of (<[dim_name:=omap (fun i => c !! i) (lexsort c)]>
                       (coords dataset)) ds = shape_of (coords dataset) ds) as Hsame.
  { intros ds. apply shape_of_ext. intros d _.
    destruct (decide (dim_name = d)) as [<-|Hne].
    - rewrite lookup_insert_eq, Hc. simpl. f_equal. apply sorted_length.
    - rewrite lookup_insert_ne by assumption. reflexivity. }
  unfold fits, isel_var.
  destruct (axis_of dim_name (dims v)) as [k|] eqn:Hk; simpl.
  - rewrite Hsame, Hshape. rewrite bool_decide_eq_true_2 by assumption. simpl.
    apply axis_of_lookup in Hk.
    pose proof (shape_of_lookup _ _ _ _ _ _ Hshape Hk Hc) as Hn.
    rewrite <- (list_insert_id shape k (length c)) by assumption.
    rewrite <- (lexsort_length c).
    eapply shape_ok_take_axis; eauto. apply lexsort_in_range.
  - rewrite Hsame, Hshape. rewrite bool_decide_eq_true_2 by assumption. exact Hok.
Qed.

Lemma sortby_unique (dataset dataset' : Dataset) (dim_name : string) :
  unique_coords dataset -> sortby dataset dim_name = ok dataset' ->
  unique_coords dataset'.
Proof.
  intros Hu Hsort. unfold sortby in Hsort.
  destruct (coords dataset !! dim_name) as [c|] eqn:Hc; [|discriminate].
  injection Hsort as <-. unfold unique_coords. simpl.
  apply map_Forall_insert_2; [|exact Hu].
  apply is_unique_sorted. exact (Hu _ _ Hc).
Qed.

Lemma sort_dimension_kept (dataset0 dataset dataset' : Dataset) (dim_name : string) :
  kept dataset0 dataset -> sort_dimension dataset dim_name = ok dataset' ->
  kept dataset0 dataset'.
Proof.
  intros (Hcons & Hu & Hval & Hback) Hsort.
  pose proof Hsort as Hsort'. unfold sort_dimension in Hsort.
  destruct (coords dataset !! dim_name) as [c|] eqn:Hc; [|discriminate].
  simpl in Hsort. destruct (head c) as [c0|]; simpl in Hsort; [|discriminate].
  split; [|split; [|split]].
  - destruct (forallb _ _); [eapply sortby_consistent; eauto|].
    injection Hsort as <-. assumption.
  - destruct (forallb _ _); [eapply sortby_unique; eauto|].
    injection Hsort as <-. assumption.
  - intros var point x Hx.
    eapply sort_dimension_value_at; eauto; exact (Hu _ _ Hc).
  - intros var point Hx. apply Hback.
    destruct (forallb _ _); [eapply sortby_defined; eauto|].
    injection Hsort as <-. assumption.
Qed.

(** ** What renaming an axis preserves *)

Section Rename.

Variables (cs : gmap string (list Q)) (old new : string) (c : list Q).
Hypothesis Hold : cs !! old = Some c.
Hypothesis Hnew : cs !! new = None.

Let cs' : gmap string (list Q) := <[new := c]> (delete old cs).

Lemma rename_lookup (d : string) (c0 : list Q) :
  cs !! d = Some c0 -> cs' !! rename_dim old new d = Some c0.
Proof.
  intros Hd. unfold rename_dim, cs'. destruct (String.eqb_spec d old) as [->|Hne].
  - rewrite lookup_insert_eq. congruence.
  - rewrite lookup_insert_ne by congruence.
    rewrite lookup_delete_ne by congruence. exact Hd.
Qed.

Lemma rename_positions (ds : list string) (point : list Q) (idxs : list nat) :
  positions cs ds point = Some idxs ->
  positions cs' (rename_dim old new <$> ds) point = Some idxs.
Proof.
  revert point idxs. induction ds as [|d ds IH]; intros point idxs; simpl.
  - auto.
  - destruct point as [|q point]; [discriminate|].
    destruct (cs !! d) as [c0|] eqn:Hd; simpl; [|discriminate].
    rewrite (rename_lookup d c0 Hd). simpl.
    destruct (index_of c0 q); simpl; [|discriminate].
    destruct (positions cs ds point) as [rest|] eqn:Hrest; simpl; [|discriminate].
    change (list_fmap _ _ ?f ds) with (f <$> ds).
    rewrite (IH point rest Hrest). auto.
Qed.

Lemma rename_shape_of (ds : list string) (shape : list nat) :
  shape_of cs ds = Some shape ->
  shape_of cs' (rename_dim old new <$> ds) = Some shape.
Proof.
  unfold shape_of. revert shape. induction ds as [|d ds IH]; intros shape; simpl.
  - auto.
  - destruct (cs !! d) as [c0|] eqn:Hd; simpl; [|discriminate].
    rewrite (rename_lookup d c0 Hd). simpl.
    destruct (mapM _ ds) as [rest|] eqn:Hrest; simpl; [|discriminate].
    change (list_fmap _ _ ?f ds) with (f <$> ds).
    rewrite (IH rest eq_refl). auto.
Qed.

Lemma rename_positions_back (ds : list string) (point : list Q) :
  Forall (fun d => is_Some (cs !! d)) ds ->
  positions cs' (rename_dim old new <$> ds) point = positions cs ds point.
Proof.
  intros Hds. revert point. induction Hds as [|d ds [c0 Hd] _ IH]; intros point.
  - reflexivity.
  - destruct point as [|q point]; [reflexivity|].
    rewrite fmap_cons. cbn [positions].
    rewrite (rename_lookup d c0 Hd), Hd, IH. reflexivity.
Qed.

Lemma shape_of_dom (ds : list string) (shape : list nat) (d : string) :
  shape_of cs ds = Some shape -> d ∈ ds -> is_Some (cs !! d).
Proof.
  unfold shape_of. intros Hs Hd. apply mapM_Some in Hs.
  apply list_elem_of_lookup in Hd as [k Hk].
  destruct (Forall2_lookup_l _ _ _ _ _ Hs Hk) as (n & _ & Hn).
  destruct (cs !! d); [eauto | discriminate].
Qed.

Lemma rename_NoDup (ds : list string) (shape : list nat) :
  shape_of cs ds = Some shape -> NoDup ds -> NoDup (rename_dim old new <$> ds).
Proof.
  intros Hs. apply NoDup_fmap_2_strong. intros x y Hx Hy.
  destruct (shape_of_dom _ _ _ Hs Hx) as [cx Hcx].
  destruct (shape_of_dom _ _ _ Hs Hy) as [cy Hcy].
  unfold rename_dim.
  destruct (String.eqb_spec x old), (String.eqb_spec y old); congruence.
Qed.

End Rename.

Lemma rename_kept (dataset0 dataset dataset' : Dataset) (old new : string) :
  kept dataset0 dataset -> rename dataset old new = ok dataset' ->
  kept dataset0 dataset'.
Proof.
  intros (Hcons & Hu & Hval & Hback) Hren. unfold rename in Hren.
  destruct (coords dataset !! old) as [c|] eqn:Hold; [|discriminate].
  destruct (bool_decide (is_Some (coords dataset !! new))) eqn:Hnew;
    [discriminate|].
  apply bool_decide_eq_false in Hnew.
  assert (coords dataset !! new = None) as Hnone.
  { destruct (coords dataset !! new); [exfalso; eauto | reflexivity]. }
  simpl in Hren. destruct (bool_decide _); [discriminate|].
  injection Hren as <-. split; [|split; [|split]].
  - intros name v'. simpl. rewrite lookup_fmap.
    destruct (data_vars dataset !! name) as [v|] eqn:Hv; simpl; [|discriminate].
    intros [= <-].
    destruct (fits_inv _ _ (Hcons name v Hv)) as (Hnd & shape & Hshape & Hok).
    unfold fits. simpl.
    rewrite (rename_shape_of _ _ _ _ Hold Hnone _ _ Hshape).
    rewrite bool_decide_eq_true_2 by eauto using rename_NoDup. exact Hok.
  - unfold unique_coords. simpl. apply map_Forall_insert_2.
    + exact (Hu _ _ Hold).
    + apply map_Forall_delete, Hu.
  - intros var point x Hx. apply Hval in Hx. unfold value_at in *. simpl.
    rewrite lookup_fmap.
    destruct (data_vars dataset !! var) as [v|]; simpl in *; [|discriminate].
    destruct (positions (coords dataset) (dims v) point) as [idxs|] eqn:Hpos;
      simpl in Hx; [|discriminate].
    rewrite (rename_positions _ _ _ _ Hold Hnone _ _ _ Hpos). exact Hx.
  - intros var point Hx. apply Hback. unfold value_at in Hx. simpl in Hx.
    rewrite lookup_fmap in Hx.
    destruct (data_vars dataset !! var) as [v|] eqn:Hv; simpl in Hx;
      [|destruct Hx; discriminate].
    apply (value_at_defined dataset var v point Hcons Hv).
    destruct (fits_inv _ _ (Hcons var v Hv)) as (_ & shape & Hshape & _).
    rewrite rename_positions_back in Hx; auto.
    + destruct (positions _ (dims v) point); [eauto | destruct Hx; discriminate].
    + apply Forall_forall. intros d Hd. eapply shape_of_dom; eauto.
Qed.

Lemma fold_loop_invariant {A S} (P : S -> Prop) (f : S -> A -> Result S)
    (l : list A) (s s' : S) :
  (forall s a s', P s -> f s a = ok s' -> P s') ->
  P s -> fold_loop f s l = ok s' -> P s'.
Proof.
  intros Hf. revert s. induction l as [|a l IH]; intros s Hs; simpl.
  - intros [= <-]. exact Hs.
  - intros H. apply bind_ok in H as (s1 & H1 & H). eauto.
Qed.

Lemma rename_step_kept (dataset0 dataset dataset' : Dataset) (coordinate : string) :
  kept dataset0 dataset -> rename_step dataset coordinate = ok dataset' ->
  kept dataset0 dataset'.
Proof.
  intros Hk H. unfold rename_step in H.
  apply bind_ok in H as (d1 & H1 & H2).
  assert (kept dataset0 d1) as Hk1.
  { destruct (String.eqb coordinate "lon"); [eapply rename_kept; eauto|].
    injection H1 as <-. exact Hk. }
  destruct (String.eqb coordinate "lat"); [eapply rename_kept; eauto|].
  injection H2 as <-. exact Hk1.
Qed.

Lemma normalize_kept (dataset dataset' : Dataset) :
  consistent dataset -> unique_coords dataset ->
  normalize dataset = ok dataset' -> kept dataset dataset'.
Proof.
  intros Hcons Hu H. unfold normalize in H.
  apply bind_ok in H as (d1 & H1 & H). apply bind_ok in H as (d2 & H2 & H3).
  assert (kept dataset d1) as Hk1.
  { unfold rename_axes in H1.
    eapply (fold_loop_invariant (kept dataset)); [| |exact H1].
    - intros s a s'. apply rename_step_kept.
    - split; [|split; [|split]]; auto. }
  eauto using sort_dimension_kept.
Qed.

(** ** Nearest label on an ascending axis *)

Lemma Qlt_bool_iff (a b : Q) : Qlt_bool a b = true <-> (a < b)%Q.
Proof.
  unfold Qlt_bool. rewrite negb_true_iff. split.
  - intros H. apply Qnot_le_lt. intros Hle. apply Qle_bool_iff in Hle. congruence.
  - intros H. destruct (Qle_bool b a) eqn:E; [|reflexivity].
    apply Qle_bool_iff in E. lra.
Qed.

Lemma Qlt_bool_false (a b : Q) : Qlt_bool a b = false <-> (b <= a)%Q.
Proof.
  unfold Qlt_bool. rewrite negb_false_iff. apply Qle_bool_iff.
Qed.

Lemma Qle_bool_false (a b : Q) : Qle_bool a b = false <-> (b < a)%Q.
Proof.
  split.
  - intros H. apply Qnot_le_lt. intros Hle. apply Qle_bool_iff in Hle. congruence.
  - intros H. destruct (Qle_bool a b) eqn:E; [|reflexivity].
    apply Qle_bool_iff in E. lra.
Qed.

Lemma dist_below (x q : Q) : (x <= q)%Q -> (Qabs (x - q) == q - x)%Q.
Proof. intros H. rewrite Qabs_neg by lra. lra. Qed.

Lemma dist_above (x q : Q) : (q <= x)%Q -> (Qabs (x - q) == x - q)%Q.
Proof. intros H. rewrite Qabs_pos by lra. lra. Qed.

Lemma prefix_len_le (p : Q -> bool) (l : list Q) : (prefix_len p l <= length l)%nat.
Proof. induction l as [|x l IH]; simpl; [lia|]. destruct (p x); simpl; lia. Qed.

(** On a list sorted by [R], for a test that holds of everything before
    an entry of which it holds, the entries passing the test are those
    before position [prefix_len]. *)
Lemma prefix_len_spec (R : Q -> Q -> Prop) (p : Q -> bool) (l : list Q) (j : nat) (x : Q) :
  StronglySorted R l ->
  (forall a b, R a b -> p b = true -> p a = true) ->
  l !! j = Some x ->
  ((j < prefix_len p l)%nat <-> p x = true).
Proof.
  intros Hs Hp. revert j. induction Hs as [|x0 l Hs IH Hall]; intros j; [discriminate|].
  simpl. destruct (p x0) eqn:E0.
  - destruct j as [|j]; simpl.
    + intros [= <-]. split; [auto | lia].
    + intros Hj. rewrite <- (IH j Hj). lia.
  - destruct j as [|j]; simpl.
    + intros [= <-]. split; [lia | congruence].
    + intros Hj. split; [lia|]. intros Hx. exfalso.
      rewrite Forall_forall in Hall.
      assert (p x0 = true); [|congruence].
      eapply Hp; [|exact Hx]. apply Hall.
      eapply list_elem_of_lookup_2, Hj.
Qed.

Lemma strictly_ascending_lookup (c : list Q) (i j : nat) (x y : Q) :
  strictly_ascending c -> (i < j)%nat -> c !! i = Some x -> c !! j = Some y ->
  (x < y)%Q.
Proof.
  intros Hs. revert i j. induction Hs as [|x0 l Hs IH Hall]; intros i j Hij; [discriminate|].
  destruct j as [|j]; [lia|]. destruct i as [|i]; simpl.
  - intros [= <-] Hj. rewrite Forall_forall in Hall.
    apply Hall. eapply list_elem_of_lookup_2, Hj.
  - apply IH. lia.
Qed.

Lemma strictly_ascending_le (c : list Q) (i j : nat) (x y : Q) :
  strictly_ascending c -> (i <= j)%nat -> c !! i = Some x -> c !! j = Some y ->
  (x <= y)%Q.
Proof.
  intros Hs Hij Hi Hj. destruct (decide (i = j)) as [->|Hne].
  - rewrite Hi in Hj. injection Hj as <-. lra.
  - apply Qlt_le_weak.
    apply (strictly_ascending_lookup c i j x y Hs); [lia | assumption | assumption].
Qed.

Lemma strictly_ascending_unique (c : list Q) : strictly_ascending c -> is_unique c = true.
Proof.
  intros Hs. apply is_unique_intro. intros i j x y Hi Hj E.
  apply Qeq_bool_iff in E.
  destruct (Nat.lt_total i j) as [Hlt|[->|Hlt]]; [|reflexivity|].
  - pose proof (strictly_ascending_lookup _ _ _ _ _ Hs Hlt Hi Hj). lra.
  - pose proof (strictly_ascending_lookup _ _ _ _ _ Hs Hlt Hj Hi). lra.
Qed.

Lemma strictly_ascending_monotonic (c : list Q) :
  strictly_ascending c -> is_monotonic_increasing c = true.
Proof.
  induction 1 as [|x l Hs IH Hall]; [reflexivity|].
  simpl. destruct l as [|y l]; [reflexivity|].
  apply andb_true_iff. split; [|exact IH].
  apply Qle_bool_iff, Qlt_le_weak. inversion Hall; assumption.
Qed.

Section Nearest.

Variables (index : list Q) (q : Q).
Hypothesis Hasc : strictly_ascending index.
Hypothesis Hne : index <> [].

Let kL := prefix_len (fun x => Qle_bool x q) index.
Let kR := prefix_len (fun x => Qlt_bool x q) index.

Lemma kL_spec (j : nat) (x : Q) :
  index !! j = Some x -> ((j < kL)%nat <-> (x <= q)%Q).
Proof.
  intros Hj. unfold kL.
  rewrite (prefix_len_spec Qlt (fun x => Qle_bool x q) index j x Hasc); auto.
  - apply Qle_bool_iff.
  - intros a b Hab Hb. apply Qle_bool_iff in Hb. apply Qle_bool_iff. lra.
Qed.

Lemma kR_spec (j : nat) (x : Q) :
  index !! j = Some x -> ((j < kR)%nat <-> (x < q)%Q).
Proof.
  intros Hj. unfold kR.
  rewrite (prefix_len_spec Qlt (fun x => Qlt_bool x q) index j x Hasc); auto.
  - apply Qlt_bool_iff.
  - intros a b Hab Hb. apply Qlt_bool_iff in Hb. apply Qlt_bool_iff. lra.
Qed.

Lemma kR_le_kL : (kR <= kL)%nat.
Proof.
  destruct (le_lt_dec kR kL) as [H|H]; [assumption|exfalso].
  assert (kL < length index)%nat as Hlen.
  { pose proof (prefix_len_le (fun x => Qlt_bool x q) index). fold kR in H0. lia. }
  destruct (lookup_lt_is_Some_2 _ _ Hlen) as [x Hx].
  pose proof (proj1 (kR_spec kL x Hx) H) as H1.
  pose proof (kL_spec kL x Hx) as H2.
  assert (x <= q)%Q as H3 by lra. apply H2 in H3. lia.
Qed.

Lemma get_nearest_indexer_ascending :
  exists i, get_nearest_indexer index q = ok (Some i) /\ nearest_to index q i.
Proof.
  unfold get_nearest_indexer.
  rewrite (strictly_ascending_unique index Hasc). simpl.
  destruct (Nat.eqb_spec (length index) 0) as [H0|H0].
  { destruct index; [congruence | discriminate]. }
  rewrite (strictly_ascending_monotonic index Hasc). simpl.
  unfold pad, backfill. fold kL kR.
  pose proof kR_le_kL as HRL.
  pose proof (prefix_len_le (fun x => Qle_bool x q) index) as HL. fold kL in HL.
  destruct kL as [|k'] eqn:EL.
  - (* every coordinate is above the label *)
    assert (kR = 0)%nat as -> by lia.
    destruct (Nat.ltb_spec 0 (length index)) as [_|?]; [|lia].
    destruct (lookup_lt_is_Some_2 index 0 ltac:(lia)) as [x0 H0x].
    assert (q < x0)%Q as Hq.
    { apply Qnot_le_lt. intros Hle. apply (kL_spec 0 x0 H0x) in Hle. lia. }
    assert (forall j x, index !! j = Some x -> (x0 <= x)%Q) as Hmin.
    { intros j x Hj. eapply (strictly_ascending_le index 0 j); eauto. lia. }
    unfold distance. rewrite H0x. simpl default.
    destruct (last index) as [xl|] eqn:El.
    2:{ apply last_None in El. congruence. }
    simpl default.
    assert (x0 <= xl)%Q as Hl.
    { rewrite last_lookup in El. eapply Hmin, El. }
    assert (Qlt_bool (Qabs (xl - q)) (Qabs (x0 - q)) = false) as ->.
    { apply Qlt_bool_false. rewrite !dist_above by lra. lra. }
    simpl. exists 0%nat. split; [reflexivity|].
    exists x0. split; [assumption|]. intros j x Hj.
    pose proof (Hmin j x Hj) as Hx.
    pose proof (dist_above x0 q ltac:(lra)) as D0.
    pose proof (dist_above x q ltac:(lra)) as D.
    split; [lra|]. intros Heq.
    destruct j as [|j]; [lia|exfalso].
    pose proof (strictly_ascending_lookup index 0 (S j) x0 x Hasc ltac:(lia) H0x Hj).
    lra.
  - destruct (lookup_lt_is_Some_2 index k' ltac:(lia)) as [xL HxL].
    assert (xL <= q)%Q as HLq by (apply (kL_spec k' xL HxL); lia).
    unfold distance at 1. rewrite HxL. simpl default.
    destruct (Nat.ltb_spec kR (length index)) as [HR|HR].
    + (* a coordinate on either side *)
      destruct (lookup_lt_is_Some_2 index kR HR) as [xR HxR].
      assert (q <= xR)%Q as HRq.
      { apply Qnot_lt_le. intros Hlt. apply (kR_spec kR xR HxR) in Hlt. lia. }
      unfold distance. rewrite HxR. simpl default.
      rewrite (bool_decide_eq_false_2 (Some kR = None)) by discriminate.
      rewrite orb_false_r.
      pose proof (dist_below xL q HLq) as DL.
      pose proof (dist_above xR q HRq) as DR.
      destruct (Qlt_bool (Qabs (xL - q)) (Qabs (xR - q))) eqn:Eop.
      * apply Qlt_bool_iff in Eop.
        exists k'. split; [reflexivity|].
        exists xL. split; [assumption|]. intros j x Hj.
        destruct (le_lt_dec j k') as [Hjk|Hjk].
        -- pose proof (strictly_ascending_le index j k' x xL Hasc Hjk Hj HxL).
           pose proof (dist_below x q ltac:(lra)). split; [lra | auto].
        -- assert (xR <= x)%Q.
           { eapply (strictly_ascending_le index kR j); eauto. lia. }
           pose proof (dist_above x q ltac:(lra)). split; [lra|]. intros. lra.
      * apply Qlt_bool_false in Eop.
        exists kR. split; [reflexivity|].
        exists xR. split; [assumption|]. intros j x Hj.
        destruct (le_lt_dec j kR) as [Hjk|Hjk].
        -- split; [|auto].
           destruct (decide (j = kR)) as [->|Hjne].
           ++ rewrite HxR in Hj. injection Hj as <-. lra.
           ++ assert (x <= xL)%Q.
              { eapply (strictly_ascending_le index j k'); eauto. lia. }
              pose proof (dist_below x q ltac:(lra)). lra.
        -- pose proof (strictly_ascending_lookup index kR j xR x Hasc Hjk HxR Hj).
           pose proof (dist_above x q ltac:(lra)). split; [lra|]. intros. lra.
    + (* every coordinate is below the label *)
      rewrite (bool_decide_eq_true_2 (None = None)) by reflexivity.
      rewrite orb_true_r.
      exists k'. split; [reflexivity|].
      exists xL. split; [assumption|]. intros j x Hj.
      pose proof (lookup_lt_Some _ _ _ Hj) as Hjlen.
      assert (j <= k')%nat as Hjk by lia.
      pose proof (strictly_ascending_le index j k' x xL Hasc Hjk Hj HxL).
      pose proof (dist_below xL q HLq). pose proof (dist_below x q ltac:(lra)).
      split; [lra | auto].
Qed.

End Nearest.

Lemma sel_nearest_ascending_total (dim : string) (index : list Q) (q : Q) :
  strictly_ascending index -> index <> [] ->
  exists i, sel_nearest dim index q = ok i /\ nearest_to index q i.
Proof.
  intros Hasc Hne.
  destruct (get_nearest_indexer_ascending index q Hasc Hne) as (i & Hi & Hn).
  exists i. unfold sel_nearest. rewrite Hi. auto.
Qed.

Lemma nearest_to_exact (index : list Q) (q : Q) (i j : nat) (x : Q) :
  strictly_ascending index -> nearest_to index q i ->
  index !! j = Some x -> (x == q)%Q -> i = j.
Proof.
  intros Hasc (y & Hy & Hmin) Hj Hx.
  destruct (Hmin j x Hj) as [Hle Htie].
  assert (Qabs (x - q) == 0)%Q as Hx0.
  { pose proof (dist_below x q ltac:(lra)). lra. }
  assert (Qabs (y - q) <= 0)%Q as Hy0 by lra.
  apply Qabs_Qle_condition in Hy0 as [Hy1 Hy2].
  pose proof (Qabs_nonneg (y - q)) as Hnn.
  assert (j <= i)%nat as Hji.
  { apply Htie. lra. }
  destruct (decide (i = j)) as [|Hne]; [assumption|exfalso].
  pose proof (strictly_ascending_lookup index j i x y Hasc ltac:(lia) Hj Hy). lra.
Qed.

(** ** Sampling on a well-formed grid *)

Lemma ascending_of_checks (c : list Q) :
  is_unique c = true -> is_monotonic_increasing c = true -> strictly_ascending c.
Proof.
  intros Hu Hm. apply Sorted_StronglySorted.
  { intros x y z Hxy Hyz. lra. }
  induction c as [|x c IH]; [constructor|].
  simpl in Hu. apply andb_true_iff in Hu as [Hx Hu]. apply negb_true_iff in Hx.
  simpl in Hm. destruct c as [|y c]; [repeat constructor|].
  apply andb_true_iff in Hm as [Hxy Hm].
  constructor; [apply IH; assumption|]. constructor.
  apply Qle_bool_iff in Hxy. simpl in Hx. apply orb_false_iff in Hx as [Hne _].
  apply Qle_lt_or_eq in Hxy as [Hlt|Heq]; [assumption|].
  apply Qeq_bool_iff in Heq. congruence.
Qed.

Lemma axis_ok_inv (dataset : Dataset) (d : string) :
  axis_ok dataset d = true ->
  exists c, coords dataset !! d = Some c /\ strictly_ascending c /\ c <> [].
Proof.
  unfold axis_ok. destruct (coords dataset !! d) as [c|]; [|discriminate].
  intros H. apply andb_true_iff in H as [H Hm]. apply andb_true_iff in H as [Hn Hu].
  exists c. split; [reflexivity|]. split; [apply ascending_of_checks; assumption|].
  intros ->. discriminate.
Qed.

Lemma nearest_to_lt (index : list Q) (q : Q) (i : nat) :
  nearest_to index q i -> (i < length index)%nat.
Proof. intros (y & Hy & _). eapply lookup_lt_Some, Hy. Qed.

Lemma shape_ok_index_first (n : nat) (shape : list nat) (a : ndarray) (i : nat) :
  shape_ok (n :: shape) a = true -> (i < n)%nat ->
  shape_ok shape (index_axis 0 i a) = true /\
  forall rest, get (index_axis 0 i a) rest = get a (i :: rest).
Proof.
  intros Ha Hi. destruct a as [v|items]; simpl in Ha; [discriminate|].
  apply andb_true_iff in Ha as [Hlen Hall]. apply Nat.eqb_eq in Hlen.
  rewrite forallb_forall in Hall.
  destruct (lookup_lt_is_Some_2 items i ltac:(lia)) as [x Hx].
  cbn [index_axis]. rewrite Hx. simpl default. split.
  - apply Hall, list_elem_of_In. eapply list_elem_of_lookup_2, Hx.
  - intros rest. rewrite get_Arr, Hx. reflexivity.
Qed.

(** Selecting along the first dimension of a variable. *)
Lemma sel_var_first (cs : gmap string (list Q)) (dim : string) (ds : list string)
    (c : list Q) (shape : list nat) (a : ndarray) (q : Q) :
  cs !! dim = Some c -> strictly_ascending c -> c <> [] ->
  shape_ok (length c :: shape) a = true ->
  exists i,
    sel_nearest dim c q = ok i /\ nearest_to c q i /\
    sel_var cs dim q (mkDataArray (dim :: ds) a)
      = ok (mkDataArray ds (index_axis 0 i a)) /\
    shape_ok shape (index_axis 0 i a) = true /\
    forall rest, get (index_axis 0 i a) rest = get a (i :: rest).
Proof.
  intros Hc Hasc Hne Ha.
  destruct (sel_nearest_ascending_total dim c q Hasc Hne) as (i & Hi & Hn).
  destruct (shape_ok_index_first _ _ _ i Ha (nearest_to_lt _ _ _ Hn)) as [Hs Hg].
  exists i. repeat split; auto.
  unfold sel_var. simpl. rewrite String.eqb_refl. simpl.
  rewrite Hc. simpl. rewrite Hi. reflexivity.
Qed.

Lemma var_ok_inv (dataset : Dataset) (var : string) :
  var_ok dataset var = true ->
  exists a shape,
    data_vars dataset !! var = Some (mkDataArray (grid_dims dataset) a) /\
    shape_of (coords dataset) (grid_dims dataset) = Some shape /\
    shape_ok shape a = true.
Proof.
  unfold var_ok. destruct (data_vars dataset !! var) as [[ds a]|]; [|discriminate].
  intros H. apply andb_true_iff in H as [Hd Hf]. apply bool_decide_eq_true in Hd.
  simpl in Hd. subst ds. apply fits_inv in Hf as (_ & shape & Hs & Hok).
  exists a, shape. auto.
Qed.

Lemma shape_ok_scalar (a : ndarray) : shape_ok [] a = true -> exists x, a = Scalar x.
Proof. destruct a; [eauto | discriminate]. Qed.

Lemma sample_3d_ok (dataset : Dataset) (var : string) (date latitude longitude depth : Q) :
  has_depth dataset = true ->
  forallb (axis_ok dataset) (grid_dims dataset) = true ->
  var_ok dataset var = true ->
  exists x,
    sample_3d dataset var (date, latitude, longitude, depth) = ok x /\
    sampled_at dataset var
      [("time", date); ("depth", depth); ("latitude", latitude);
       ("longitude", longitude)] x.
Proof.
  intros Hd Hax Hv. apply var_ok_inv in Hv as (a & shape & Hv & Hshape & Hok).
  unfold grid_dims in *. rewrite Hd in *. simpl in Hax.
  repeat (apply andb_true_iff in Hax as [? Hax]).
  destruct (axis_ok_inv _ _ H) as (ct & Hct & At & Nt).
  destruct (axis_ok_inv _ _ H0) as (cd & Hcd & Ad & Nd).
  destruct (axis_ok_inv _ _ H1) as (cla & Hcla & Ala & Nla).
  destruct (axis_ok_inv _ _ H2) as (clo & Hclo & Alo & Nlo).
  unfold shape_of in Hshape. simpl in Hshape.
  rewrite Hct, Hcd, Hcla, Hclo in Hshape. simpl in Hshape. injection Hshape as <-.
  destruct (sel_var_first (coords dataset) "time" ["depth"; "latitude"; "longitude"]
              ct _ a date Hct At Nt Hok) as (it & Sit & Nit & E1 & Hok1 & G1).
  destruct (sel_var_first (coords dataset) "depth" ["latitude"; "longitude"]
              cd _ _ depth Hcd Ad Nd Hok1) as (id & Sid & Nid & E2 & Hok2 & G2).
  destruct (sel_var_first (coords dataset) "latitude" ["longitude"]
              cla _ _ latitude Hcla Ala Nla Hok2) as (ila & Sila & Nila & E3 & Hok3 & G3).
  destruct (sel_var_first (coords dataset) "longitude" []
              clo _ _ longitude Hclo Alo Nlo Hok3) as (ilo & Silo & Nilo & E4 & Hok4 & G4).
  destruct (shape_ok_scalar _ Hok4) as [x Hx].
  exists x. split.
  - unfold sample_3d, getitem. rewrite Hv. unfold from_option.
    rewrite bind_ret, E1, bind_ret, E2, bind_ret, E3, bind_ret, E4, bind_ret.
    unfold float. cbn [values]. rewrite Hx. reflexivity.
  - exists (mkDataArray ["time"; "depth"; "latitude"; "longitude"] a), [it; id; ila; ilo].
    split; [assumption|]. split; [reflexivity|]. split.
    + repeat constructor; simpl; eauto.
    + simpl values. rewrite <- G1, <- G2, <- G3, <- G4, Hx. reflexivity.
Qed.

Lemma sample_2d_ok (dataset : Dataset) (var : string) (date latitude longitude : Q) :
  has_depth dataset = false ->
  forallb (axis_ok dataset) (grid_dims dataset) = true ->
  var_ok dataset var = true ->
  exists x,
    sample_2d dataset var (date, latitude, longitude) = ok x /\
    sampled_at dataset var
      [("time", date); ("latitude", latitude); ("longitude", longitude)] x.
Proof.
  intros Hd Hax Hv. apply var_ok_inv in Hv as (a & shape & Hv & Hshape & Hok).
  unfold grid_dims in *. rewrite Hd in *. simpl in Hax.
  repeat (apply andb_true_iff in Hax as [? Hax]).
  destruct (axis_ok_inv _ _ H) as (ct & Hct & At & Nt).
  destruct (axis_ok_inv _ _ H0) as (cla & Hcla & Ala & Nla).
  destruct (axis_ok_inv _ _ H1) as (clo & Hclo & Alo & Nlo).
  unfold shape_of in Hshape. simpl in Hshape.
  rewrite Hct, Hcla, Hclo in Hshape. simpl in Hshape. injection Hshape as <-.
  destruct (sel_var_first (coords dataset) "time" ["latitude"; "longitude"]
              ct _ a date Hct At Nt Hok) as (it & Sit & Nit & E1 & Hok1 & G1).
  destruct (sel_var_first (coords dataset) "latitude" ["longitude"]
              cla _ _ latitude Hcla Ala Nla Hok1) as (ila & Sila & Nila & E3 & Hok3 & G3).
  destruct (sel_var_first (coords dataset) "longitude" []
              clo _ _ longitude Hclo Alo Nlo Hok3) as (ilo & Silo & Nilo & E4 & Hok4 & G4).
  destruct (shape_ok_scalar _ Hok4) as [x Hx].
  exists x. split.
  - unfold sample_2d, getitem. rewrite Hv. unfold from_option.
    rewrite bind_ret, E1, bind_ret, E3, bind_ret, E4, bind_ret.
    unfold float. cbn [values]. rewrite Hx. reflexivity.
  - exists (mkDataArray ["time"; "latitude"; "longitude"] a), [it; ila; ilo].
    split; [assumption|]. split; [reflexivity|]. split.
    + repeat constructor; simpl; eauto.
    + simpl values. rewrite <- G1, <- G3, <- G4, Hx. reflexivity.
Qed.

(** ** The table of the "temporal points" cell *)

Lemma traverse_ext {A B} (f g : A -> Result B) (l : list A) :
  (forall x, f x = g x) -> traverse f l = traverse g l.
Proof. intros H. induction l as [|x l IH]; simpl; [reflexivity|]. rewrite H, IH. reflexivity. Qed.

Lemma traverse_lookup {A B} (f : A -> Result B) (l : list A) (r : list B) (k : nat) (y : B) :
  traverse f l = inr r -> r !! k = Some y -> exists x, l !! k = Some x /\ f x = inr y.
Proof.
  intros H Hk. apply traverse_Forall2 in H.
  destruct (Forall2_lookup_r _ _ _ _ _ H Hk) as (x & Hx & Hf). eauto.
Qed.

Lemma has_columns_lookup (df : DataFrame) (names : list string) (name : string) :
  has_columns df names = true -> name ∈ names ->
  exists c, columns df !! name = Some c /\ length c = nrows df.
Proof.
  unfold has_columns. rewrite forallb_forall. intros H Hn.
  specialize (H name (proj1 (list_elem_of_In _ _) Hn)).
  destruct (columns df !! name) as [c|]; [|discriminate].
  apply Nat.eqb_eq in H. eauto.
Qed.

Lemma assign_ok (df : DataFrame) (name : string) (col : list Q) :
  length col = nrows df ->
  assign df name col = ok (mkDataFrame (nrows df) (<[name:=col]> (columns df))).
Proof. intros H. unfold assign. rewrite H, Nat.eqb_refl. reflexivity. Qed.

Lemma assign_all_ok (df : DataFrame) (cols : list (string * list Q)) :
  Forall (fun c => length c.2 = nrows df) cols ->
  exists df',
    assign_all df cols = ok df' /\ nrows df' = nrows df /\
    (forall name, name ∉ cols.*1 -> columns df' !! name = columns df !! name) /\
    (forall name, name ∈ cols.*1 ->
       exists c, (name, c) ∈ cols /\ columns df' !! name = Some c).
Proof.
  unfold assign_all. revert df. induction cols as [|[n c] cols IH]; intros df Hall.
  - exists df. repeat split; auto. intros name H. inversion H.
  - apply Forall_cons in Hall as [Hc Hall]. simpl in Hc.
    cbn [fold_loop fst snd]. rewrite (assign_ok df n c Hc), bind_ret.
    destruct (IH (mkDataFrame (nrows df) (<[n:=c]> (columns df))) Hall)
      as (df' & Hdf' & Hrows & Hout & Hin).
    exists df'. split; [exact Hdf'|]. split; [exact Hrows|]. split.
    + intros name Hname. rewrite fmap_cons in Hname.
      apply not_elem_of_cons in Hname as [Hne Hname]. simpl in Hne.
      rewrite (Hout name Hname). simpl. apply lookup_insert_ne. congruence.
    + intros name Hname.
      destruct (decide (name ∈ cols.*1)) as [Hc'|Hc'].
      * destruct (Hin name Hc') as (c' & Hc1 & Hc2). exists c'.
        split; [by apply list_elem_of_further | assumption].
      * rewrite fmap_cons in Hname. apply elem_of_cons in Hname as [->|?]; [|done].
        exists c. split; [apply list_elem_of_here|].
        rewrite (Hout _ Hc'). simpl. apply lookup_insert_eq.
Qed.

(** A comprehension over the variables, each a comprehension over the
    rows. *)
Lemma sampled_columns {R} (sample : string -> R -> Result Q) (P : string -> R -> Q -> Prop)
    (vars : list string) (rows : list R) :
  (forall var row, var ∈ vars -> row ∈ rows ->
     exists x, sample var row = ok x /\ P var row x) ->
  exists sampled,
    traverse (fun var => col ← traverse (sample var) rows; ok (var, col)) vars
      = ok sampled /\
    sampled.*1 = vars /\
    Forall (fun c => length c.2 = length rows /\
                     forall k x, c.2 !! k = Some x ->
                       exists row, rows !! k = Some row /\ P c.1 row x) sampled.
Proof.
  intros H. induction vars as [|var vars IH].
  - exists []. repeat split; constructor.
  - destruct IH as (sampled & Hs & Hnames & Hall).
    { intros v row Hv Hrow. apply H; [by apply list_elem_of_further | assumption]. }
    destruct (traverse_total (sample var) rows) as [col Hcol].
    { apply Forall_forall. intros row Hrow.
      destruct (H var row (list_elem_of_here _ _) Hrow) as (x & Hx & _). eauto. }
    exists ((var, col) :: sampled). cbn [traverse].
    rewrite Hcol. unfold ok at 1. rewrite bind_ret, bind_ret, Hs, bind_ret.
    split; [reflexivity|]. split; [rewrite fmap_cons, Hnames; reflexivity|].
    constructor; [|assumption]. simpl. split; [eapply traverse_length, Hcol|].
    intros k x Hk. destruct (traverse_lookup _ _ _ _ _ Hcol Hk) as (row & Hrow & Hx).
    exists row. split; [assumption|].
    destruct (H var row (list_elem_of_here _ _) (list_elem_of_lookup_2 _ _ _ Hrow))
      as (x' & Hx' & HP).
    rewrite Hx in Hx'. injection Hx' as <-. exact HP.
Qed.

Lemma matched_time_ok (dataset : Dataset) (date : Q) :
  axis_ok dataset "time" = true ->
  exists t ct i,
    matched_time dataset date = ok t /\
    coords dataset !! "time" = Some ct /\ nearest_to ct date i /\ ct !! i = Some t.
Proof.
  intros H. destruct (axis_ok_inv _ _ H) as (ct & Hct & Hasc & Hne).
  destruct (sel_nearest_ascending_total "time" ct date Hasc Hne) as (i & Hi & Hn).
  pose proof Hn as (t & Ht & _).
  exists t, ct, i. repeat split; auto.
  unfold matched_time. rewrite Hct. cbn [from_option].
  rewrite bind_ret, Hi, bind_ret, Ht. reflexivity.
Qed.

Lemma column_ok (df : DataFrame) (name : string) (c : list Q) :
  columns df !! name = Some c -> column df name = ok c.
Proof. intros H. unfold column. rewrite H. reflexivity. Qed.

Lemma zip_lookup {A B} (l : list A) (k : list B) (i : nat) (x : A) (y : B) :
  zip l k !! i = Some (x, y) -> l !! i = Some x /\ k !! i = Some y.
Proof.
  intros H. apply lookup_zip_with_Some in H as (x' & y' & [= -> ->] & Hx & Hy). auto.
Qed.

(** The end of the cell, once the variables are sampled. *)
Lemma temporal_points_finish (dataset : Dataset) (variables : list string)
    (df : DataFrame) (dates : list Q) (sampled : list (string * list Q)) :
  axis_ok dataset "time" = true ->
  columns df !! "Date" = Some dates -> length dates = nrows df ->
  "Date" ∉ variables -> sampled.*1 = variables ->
  Forall (fun c => length c.2 = nrows df) sampled ->
  exists df' matched,
    (dataframe_final ← assign_all df sampled;
     date ← column dataframe_final "Date";
     date_dataset ← traverse (matched_time dataset) date;
     assign dataframe_final "Date_dataset" date_dataset) = ok df' /\
    nrows df' = nrows df /\
    columns df' !! "Date_dataset" = Some matched /\ length matched = nrows df /\
    Forall2 (fun date t => exists ct i,
               coords dataset !! "time" = Some ct /\ nearest_to ct date i /\
               ct !! i = Some t) dates matched /\
    forall var, var ∈ variables -> var <> "Date_dataset" ->
      exists col, (var, col) ∈ sampled /\ columns df' !! var = Some col.
Proof.
  intros Ht Hdates Hlen Hno Hnames Hall.
  destruct (assign_all_ok df sampled Hall) as (df1 & Hdf1 & Hrows & Hout & Hin).
  destruct (traverse_total (matched_time dataset) dates) as [matched Hm].
  { apply Forall_forall. intros date _.
    destruct (matched_time_ok dataset date Ht) as (t & _ & _ & H & _). eauto. }
  exists (mkDataFrame (nrows df1) (<["Date_dataset" := matched]> (columns df1))), matched.
  assert (length matched = nrows df) as Hml.
  { rewrite (traverse_length _ _ _ Hm). exact Hlen. }
  split.
  { rewrite Hdf1, bind_ret. rewrite (column_ok df1 "Date" dates), bind_ret.
    - rewrite Hm. unfold ok. rewrite bind_ret. apply assign_ok. congruence.
    - rewrite Hout by (rewrite Hnames; exact Hno). exact Hdates. }
  simpl. split; [assumption|]. split; [apply lookup_insert_eq|].
  split; [assumption|]. split.
  - apply traverse_Forall2 in Hm. eapply Forall2_impl; [exact Hm|].
    intros date t Hdt. simpl in Hdt.
    destruct (matched_time_ok dataset date Ht) as (t' & ct & i & Hdt' & Hct & Hn & Hi).
    unfold ok in Hdt'. rewrite Hdt in Hdt'. injection Hdt' as ->. eauto.
  - intros var Hvar Hne. rewrite <- Hnames in Hvar.
    destruct (Hin var Hvar) as (col & Hc1 & Hc2). exists col. split; [assumption|].
    rewrite lookup_insert_ne by congruence. exact Hc2.
Qed.

Lemma column_with_column (n name : string) (c : list Q) (df : DataFrame) :
  name <> n -> column (with_column n c df) name = column df name.
Proof. intros H. unfold column, with_column. simpl. rewrite lookup_insert_ne; auto. Qed.

Lemma assign_with_column (n name : string) (c col : list Q) (df : DataFrame) :
  name <> n ->
  assign (with_column n c df) name col
  = (df' ← assign df name col; ok (with_column n c df')).
Proof.
  intros H. unfold assign. simpl. destruct (length col =? nrows df)%nat; [|reflexivity].
  rewrite bind_ret. unfold with_column, ok. simpl. f_equal. f_equal.
  apply insert_insert_ne. congruence.
Qed.

Lemma assign_all_with_column (n : string) (c : list Q) (cols : list (string * list Q))
    (df : DataFrame) :
  n ∉ cols.*1 ->
  assign_all (with_column n c df) cols
  = (df' ← assign_all df cols; ok (with_column n c df')).
Proof.
  unfold assign_all. revert df. induction cols as [|[name col] cols IH]; intros df Hn.
  - reflexivity.
  - rewrite fmap_cons in Hn. apply not_elem_of_cons in Hn as [Hne Hn]. simpl in Hne.
    cbn [fold_loop fst snd]. rewrite assign_with_column by congruence.
    destruct (assign df name col) as [e|df1]; [reflexivity|].
    rewrite !bind_ret. apply IH, Hn.
Qed.

Lemma traverse_fst {A} (g : string -> Result (string * A)) (vars : list string)
    (sampled : list (string * A)) :
  (forall var y, g var = ok y -> y.1 = var) ->
  traverse g vars = ok sampled -> sampled.*1 = vars.
Proof.
  intros Hg. revert sampled. induction vars as [|var vars IH]; intros sampled; simpl.
  - intros [= <-]. reflexivity.
  - intros H. apply bind_ok in H as (y & Hy & H).
    apply bind_ok in H as (ys & Hys & [= <-]).
    rewrite fmap_cons, (IH ys Hys), (Hg var y Hy). reflexivity.
Qed.

(** ** Label slices of an ascending axis *)

Lemma monotonic_increasing_sorted (c : list Q) :
  is_monotonic_increasing c = true -> ascending c.
Proof.
  intros H. apply Sorted_StronglySorted.
  { intros x y z Hxy Hyz. lra. }
  induction c as [|x c IH]; [constructor|].
  simpl in H. destruct c as [|y c]; [repeat constructor|].
  apply andb_true_iff in H as [Hxy H].
  constructor; [apply IH, H|]. constructor. apply Qle_bool_iff, Hxy.
Qed.

Lemma steps_within_none (start stop : Q) (time : list Q) :
  Forall (fun t => in_interval start stop t = false) time ->
  steps_within start stop time = [].
Proof.
  unfold steps_within. induction 1 as [|t time Ht _ IH]; [reflexivity|].
  rewrite filter_cons_False by congruence. exact IH.
Qed.

Lemma prefix_len_none (p : Q -> bool) (l : list Q) :
  Forall (fun t => p t = false) l -> prefix_len p l = 0%nat.
Proof. destruct 1 as [|t l Ht _]; simpl; [reflexivity|]. rewrite Ht. reflexivity. Qed.

(** On an ascending axis the positions between the two insertion points
    are the steps within the interval. *)
Lemma slice_steps_within (start stop : Q) (time : list Q) :
  ascending time ->
  take (prefix_len (fun x => Qle_bool x stop) time
        - prefix_len (fun x => Qlt_bool x start) time)
       (drop (prefix_len (fun x => Qlt_bool x start) time) time)
  = steps_within start stop time.
Proof.
  induction 1 as [|t time Hs IH Hall]; [reflexivity|].
  unfold steps_within in *. cbn [prefix_len].
  destruct (Qlt_bool t start) eqn:Elo; destruct (Qle_bool t stop) eqn:Ehi.
  - (* before the interval *)
    rewrite filter_cons_False.
    2:{ unfold in_interval. apply Qlt_bool_iff in Elo.
        rewrite (proj2 (Qle_bool_false start t) Elo). simpl. congruence. }
    cbn [drop]. rewrite Nat.sub_succ. exact IH.
  - (* after its end, and before its start: the interval is empty *)
    apply Qle_bool_false in Ehi.
    rewrite filter_cons_False.
    2:{ unfold in_interval. apply Qlt_bool_iff in Elo.
        rewrite (proj2 (Qle_bool_false start t) Elo). simpl. congruence. }
    simpl. symmetry. apply (steps_within_none start stop).
    eapply Forall_impl; [exact Hall|]. intros u Hu. simpl in Hu.
    unfold in_interval. rewrite (proj2 (Qle_bool_false u stop)) by lra.
    apply andb_false_r.
  - (* within the interval: so is nothing before what follows *)
    apply Qlt_bool_false in Elo. pose proof Ehi as Ehi'. apply Qle_bool_iff in Ehi.
    rewrite filter_cons_True.
    2:{ unfold in_interval. rewrite (proj2 (Qle_bool_iff start t) Elo), Ehi'.
        reflexivity. }
    rewrite Nat.sub_0_r. cbn [drop take]. f_equal.
    rewrite <- IH.
    rewrite (prefix_len_none (fun x => Qlt_bool x start) time).
    + rewrite Nat.sub_0_r. reflexivity.
    + eapply Forall_impl; [exact Hall|]. intros u Hu. simpl in Hu.
      apply Qlt_bool_false. lra.
  - (* after the interval *)
    apply Qle_bool_false in Ehi. apply Qlt_bool_false in Elo.
    rewrite filter_cons_False.
    2:{ unfold in_interval. rewrite (proj2 (Qle_bool_false t stop) Ehi).
        rewrite andb_false_r. congruence. }
    simpl. symmetry. apply (steps_within_none start stop).
    eapply Forall_impl; [exact Hall|]. intros u Hu. simpl in Hu.
    unfold in_interval. rewrite (proj2 (Qle_bool_false u stop)) by lra.
    apply andb_false_r.
Qed.

Lemma sel_slice_ascending (dim : string) (start stop : Q) (dataset : Dataset)
    (time : list Q) :
  coords dataset !! dim = Some time -> is_monotonic_increasing time = true ->
  exists lo hi,
    lo = prefix_len (fun x => Qlt_bool x start) time /\
    hi = prefix_len (fun x => Qle_bool x stop) time /\
    take (hi - lo) (drop lo time) = steps_within start stop time /\
    sel_slice dim start stop dataset
    = ok (mkDataset (<[dim := steps_within start stop time]> (coords dataset))
                    (slice_var dim lo hi <$> data_vars dataset)).
Proof.
  intros Hc Hm. eexists _, _. split; [reflexivity|]. split; [reflexivity|].
  pose proof (slice_steps_within start stop time (monotonic_increasing_sorted _ Hm)) as E.
  split; [exact E|].
  unfold sel_slice. rewrite Hc. cbn [from_option]. rewrite bind_ret.
  unfold slice_bound. rewrite Hm, !bind_ret, E. reflexivity.
Qed.

(** ** Indexing and slicing along any axis *)

Lemma shape_ok_inv (n : nat) (shape : list nat) (a : ndarray) :
  shape_ok (n :: shape) a = true ->
  exists items, a = Arr items /\ length items = n /\
                forall x, x ∈ items -> shape_ok shape x = true.
Proof.
  intros Ha. destruct a as [v|items]; simpl in Ha; [discriminate|].
  apply andb_true_iff in Ha as [Hlen Hall]. apply Nat.eqb_eq in Hlen.
  rewrite forallb_forall in Hall. exists items. repeat split; auto.
  intros x Hx. apply Hall, list_elem_of_In, Hx.
Qed.

Lemma shape_ok_intro (shape : list nat) (items : list ndarray) :
  (forall x, x ∈ items -> shape_ok shape x = true) ->
  shape_ok (length items :: shape) (Arr items) = true.
Proof.
  intros H. simpl. rewrite Nat.eqb_refl. simpl. apply forallb_forall.
  intros x Hx. apply H, list_elem_of_In, Hx.
Qed.

Lemma shape_ok_index_axis (shape : list nat) (a : ndarray) (k n i : nat) :
  shape_ok shape a = true -> shape !! k = Some n -> (i < n)%nat ->
  shape_ok (remove_at k shape) (index_axis k i a) = true.
Proof.
  revert a k. induction shape as [|m shape IH]; intros a k Ha Hk Hi.
  - destruct k; discriminate.
  - destruct (shape_ok_inv _ _ _ Ha) as (items & -> & Hlen & Hall).
    destruct k as [|k]; simpl in Hk.
    + injection Hk as <-. cbn [index_axis remove_at].
      destruct (lookup_lt_is_Some_2 items i ltac:(lia)) as [x Hx]. rewrite Hx.
      apply Hall. eapply list_elem_of_lookup_2, Hx.
    + cbn [index_axis remove_at]. rewrite <- Hlen, <- (length_map (index_axis k i)).
      apply shape_ok_intro. intros x Hx.
      apply list_elem_of_fmap in Hx as (y & -> & Hy). apply IH; auto.
Qed.

Lemma get_index_axis (shape : list nat) (a : ndarray) (k n i : nat) (idxs : list nat) :
  shape_ok shape a = true -> shape !! k = Some n -> (i < n)%nat ->
  S (length idxs) = length shape ->
  get (index_axis k i a) idxs = get a (take k idxs ++ i :: drop k idxs).
Proof.
  revert a k idxs. induction shape as [|m shape IH]; intros a k idxs Ha Hk Hi Hlen.
  - destruct k; discriminate.
  - destruct (shape_ok_inv _ _ _ Ha) as (items & -> & Hitems & Hall).
    destruct k as [|k]; simpl in Hk.
    + injection Hk as <-. cbn [index_axis]. rewrite take_0, drop_0. cbn [app].
      destruct (lookup_lt_is_Some_2 items i ltac:(lia)) as [x Hx].
      rewrite get_Arr, Hx. reflexivity.
    + destruct idxs as [|j rest].
      { simpl in Hlen. apply lookup_lt_Some in Hk. lia. }
      cbn [index_axis].
      change (take (S k) (j :: rest)) with (j :: take k rest).
      change (drop (S k) (j :: rest)) with (drop k rest).
      rewrite <- app_comm_cons, !get_Arr, list_lookup_fmap.
      destruct (items !! j) as [x|] eqn:Hx; [|reflexivity]. simpl.
      apply (IH x k rest); auto.
      apply Hall. eapply list_elem_of_lookup_2, Hx.
Qed.

Lemma shape_ok_slice_first (n : nat) (shape : list nat) (a : ndarray) (lo hi : nat) :
  shape_ok (n :: shape) a = true ->
  shape_ok (Nat.min (hi - lo) (n - lo) :: shape) (slice_axis 0 lo hi a) = true /\
  forall j rest, (j < Nat.min (hi - lo) (n - lo))%nat ->
    get (slice_axis 0 lo hi a) (j :: rest) = get a ((lo + j)%nat :: rest).
Proof.
  intros Ha. destruct (shape_ok_inv _ _ _ Ha) as (items & -> & Hlen & Hall).
  cbn [slice_axis]. split.
  - assert (length (take (hi - lo) (drop lo items)) = Nat.min (hi - lo) (n - lo)) as <-.
    { rewrite length_take, length_drop. lia. }
    apply shape_ok_intro. intros x Hx. apply Hall.
    apply subseteq_take, subseteq_drop in Hx. exact Hx.
  - intros j rest Hj. rewrite !get_Arr.
    rewrite lookup_take_lt by lia. rewrite lookup_drop. reflexivity.
Qed.

(** ** The series of one point *)

Lemma series_var_3d (a : ndarray) (nt nd nla nlo lo hi id ila ilo : nat) :
  shape_ok [nt; nd; nla; nlo] a = true ->
  (id < nd)%nat -> (ila < nla)%nat -> (ilo < nlo)%nat ->
  exists l,
    index_var "depth" id
      (index_var "longitude" ilo
         (index_var "latitude" ila
            (slice_var "time" lo hi
               (mkDataArray ["time"; "depth"; "latitude"; "longitude"] a))))
    = mkDataArray ["time"] (Arr l) /\
    length l = Nat.min (hi - lo) (nt - lo) /\
    forall k y, l !! k = Some y ->
      exists x, y = Scalar x /\ get a [(lo + k)%nat; id; ila; ilo] = Some x.
Proof.
  intros Ha Hid Hila Hilo.
  destruct (shape_ok_slice_first _ _ _ lo hi Ha) as [H1 G1].
  set (m := Nat.min (hi - lo) (nt - lo)) in *.
  pose proof (shape_ok_index_axis _ _ 2 nla ila H1 eq_refl Hila) as H2.
  pose proof (shape_ok_index_axis _ _ 2 nlo ilo H2 eq_refl Hilo) as H3.
  pose proof (shape_ok_index_axis _ _ 1 nd id H3 eq_refl Hid) as H4.
  cbn [remove_at] in H2, H3, H4.
  destruct (shape_ok_inv _ _ _ H4) as (l & El & Hlen & Hall).
  exists l. split; [|split; [exact Hlen|]].
  - unfold slice_var, index_var. cbn. f_equal. exact El.
  - intros k y Hk. destruct (shape_ok_scalar y (Hall y (list_elem_of_lookup_2 _ _ _ Hk)))
      as [x ->].
    exists x. split; [reflexivity|].
    pose proof (lookup_lt_Some _ _ _ Hk) as Hkm. rewrite Hlen in Hkm.
    rewrite <- (G1 k [id; ila; ilo] Hkm).
    change [k; id; ila; ilo] with (take 2 [k; id; ilo] ++ ila :: drop 2 [k; id; ilo]).
    rewrite <- (get_index_axis _ _ 2 nla ila [k; id; ilo] H1 eq_refl Hila eq_refl).
    change [k; id; ilo] with (take 2 [k; id] ++ ilo :: drop 2 [k; id]).
    rewrite <- (get_index_axis _ _ 2 nlo ilo [k; id] H2 eq_refl Hilo eq_refl).
    change [k; id] with (take 1 [k] ++ id :: drop 1 [k]).
    rewrite <- (get_index_axis _ _ 1 nd id [k] H3 eq_refl Hid eq_refl).
    rewrite El, get_Arr, Hk. reflexivity.
Qed.

Lemma series_var_2d (a : ndarray) (nt nla nlo lo hi ila ilo : nat) :
  shape_ok [nt; nla; nlo] a = true ->
  (ila < nla)%nat -> (ilo < nlo)%nat ->
  exists l,
    index_var "longitude" ilo
      (index_var "latitude" ila
         (slice_var "time" lo hi
            (mkDataArray ["time"; "latitude"; "longitude"] a)))
    = mkDataArray ["time"] (Arr l) /\
    length l = Nat.min (hi - lo) (nt - lo) /\
    forall k y, l !! k = Some y ->
      exists x, y = Scalar x /\ get a [(lo + k)%nat; ila; ilo] = Some x.
Proof.
  intros Ha Hila Hilo.
  destruct (shape_ok_slice_first _ _ _ lo hi Ha) as [H1 G1].
  set (m := Nat.min (hi - lo) (nt - lo)) in *.
  pose proof (shape_ok_index_axis _ _ 1 nla ila H1 eq_refl Hila) as H2.
  pose proof (shape_ok_index_axis _ _ 1 nlo ilo H2 eq_refl Hilo) as H3.
  cbn [remove_at] in H2, H3.
  destruct (shape_ok_inv _ _ _ H3) as (l & El & Hlen & Hall).
  exists l. split; [|split; [exact Hlen|]].
  - unfold slice_var, index_var. cbn. f_equal. exact El.
  - intros k y Hk. destruct (shape_ok_scalar y (Hall y (list_elem_of_lookup_2 _ _ _ Hk)))
      as [x ->].
    exists x. split; [reflexivity|].
    pose proof (lookup_lt_Some _ _ _ Hk) as Hkm. rewrite Hlen in Hkm.
    rewrite <- (G1 k [ila; ilo] Hkm).
    change [k; ila; ilo] with (take 1 [k; ilo] ++ ila :: drop 1 [k; ilo]).
    rewrite <- (get_index_axis _ _ 1 nla ila [k; ilo] H1 eq_refl Hila eq_refl).
    change [k; ilo] with (take 1 [k] ++ ilo :: drop 1 [k]).
    rewrite <- (get_index_axis _ _ 1 nlo ilo [k] H2 eq_refl Hilo eq_refl).
    rewrite El, get_Arr, Hk. reflexivity.
Qed.

Lemma getitems_ok (dataset : Dataset) (vars : list string) :
  Forall (fun var => is_Some (data_vars dataset !! var)) vars ->
  exists m,
    getitems dataset vars = ok (mkDataset (coords dataset) m) /\
    forall var, var ∈ vars -> m !! var = data_vars dataset !! var.
Proof.
  unfold getitems. induction 1 as [|var vars [v Hv] _ (m & Hm & Hlook)].
  - exists ∅. split; [reflexivity|]. intros var H. inversion H.
  - exists (<[var := v]> m).
    destruct (traverse _ vars) as [e|vs] eqn:Hvs; [discriminate|].
    rewrite bind_ret in Hm. injection Hm as <-.
    assert (getitem dataset var = ok v) as Hg.
    { unfold getitem. rewrite Hv. reflexivity. }
    cbn [traverse]. rewrite Hg, !bind_ret, Hvs, !bind_ret. split; [reflexivity|].
    intros var' Hvar'. destruct (decide (var = var')) as [<-|Hne].
    + rewrite lookup_insert_eq. auto.
    + rewrite lookup_insert_ne by assumption. apply Hlook.
      apply elem_of_cons in Hvar' as [->|?]; [congruence | assumption].
Qed.

Lemma sel_dataset_ok (dim : string) (q : Q) (dataset : Dataset) (c : list Q) :
  coords dataset !! dim = Some c -> strictly_ascending c -> c <> [] ->
  exists i,
    sel_nearest dim c q = ok i /\ nearest_to c q i /\
    sel_dataset dim q dataset
    = ok (mkDataset (delete dim (coords dataset))
                    (index_var dim i <$> data_vars dataset)).
Proof.
  intros Hc Hasc Hne.
  destruct (sel_nearest_ascending_total dim c q Hasc Hne) as (i & Hi & Hn).
  exists i. split; [assumption|]. split; [assumption|].
  unfold sel_dataset. rewrite Hc. cbn [from_option]. rewrite bind_ret, Hi, bind_ret.
  reflexivity.
Qed.

Lemma forallb_var_ok (dataset : Dataset) (vars : list string) :
  forallb (var_ok dataset) vars = true ->
  Forall (fun var => is_Some (data_vars dataset !! var)) vars.
Proof.
  rewrite forallb_forall. intros H. apply Forall_forall. intros var Hvar.
  destruct (var_ok_inv dataset var (H var (proj1 (list_elem_of_In _ _) Hvar)))
    as (a & shape & Hv & _). eauto.
Qed.

Lemma exact_step (time : list Q) (k : nat) (t : Q) :
  strictly_ascending time -> time !! k = Some t ->
  sel_nearest "time" time t = ok k /\ nearest_to time t k.
Proof.
  intros Hasc Hk.
  assert (time <> []) as Hne by (intros ->; discriminate).
  destruct (sel_nearest_ascending_total "time" time t Hasc Hne) as (i & Hi & Hn).
  assert (i = k) as -> by (eapply nearest_to_exact; eauto; reflexivity). auto.
Qed.

(** What the "timeseries" cell selects for one point on a grid with
    depth: the time steps within the interval, ends included, and for each
    requested variable one value per such step, the value of the variable
    at that step and at the depth, latitude and longitude matched for the
    point. *)
Lemma series_3d_ok (dataset : Dataset) (vars : list string)
    (start stop latitude longitude depth : Q) :
  has_depth dataset = true -> well_formed dataset vars = true ->
  exists point time,
    series_3d dataset vars (start, stop, latitude, longitude, depth) = ok point /\
    coords dataset !! "time" = Some time /\
    coords point !! "time" = Some (steps_within start stop time) /\
    forall var, var ∈ vars ->
      exists l,
        data_vars point !! var = Some (mkDataArray ["time"] (Arr l)) /\
        length l = length (steps_within start stop time) /\
        forall k y, l !! k = Some y ->
          exists t x,
            steps_within start stop time !! k = Some t /\ y = Scalar x /\
            sampled_at dataset var
              [("time", t); ("depth", depth); ("latitude", latitude);
               ("longitude", longitude)] x.
Proof.
  intros Hd Hwf. unfold well_formed in Hwf.
  apply andb_true_iff in Hwf as [Hax Hvars].
  pose proof (forallb_var_ok _ _ Hvars) as Hpresent.
  rewrite forallb_forall in Hvars.
  unfold grid_dims in Hax. rewrite Hd in Hax. simpl in Hax.
  repeat (apply andb_true_iff in Hax as [? Hax]).
  destruct (axis_ok_inv _ _ H) as (ct & Hct & At & Nt).
  destruct (axis_ok_inv _ _ H0) as (cd & Hcd & Ad & Nd).
  destruct (axis_ok_inv _ _ H1) as (cla & Hcla & Ala & Nla).
  destruct (axis_ok_inv _ _ H2) as (clo & Hclo & Alo & Nlo).
  destruct (getitems_ok dataset vars Hpresent) as (m & Hm & Hlook).
  destruct (sel_slice_ascending "time" start stop (mkDataset (coords dataset) m) ct
              Hct (strictly_ascending_monotonic _ At)) as (lo & hi & Elo & Ehi & Esteps & H1').
  set (steps := steps_within start stop ct) in *.
  destruct (sel_dataset_ok "latitude" latitude
              (mkDataset (<["time" := steps]> (coords dataset))
                         (slice_var "time" lo hi <$> m)) cla)
    as (ila & Sila & Nila & H2'); auto.
  { simpl. rewrite lookup_insert_ne by discriminate. exact Hcla. }
  destruct (sel_dataset_ok "longitude" longitude
              (mkDataset (delete "latitude" (<["time" := steps]> (coords dataset)))
                         (index_var "latitude" ila <$> (slice_var "time" lo hi <$> m)))
              clo) as (ilo & Silo & Nilo & H3'); auto.
  { simpl. rewrite lookup_delete_ne, lookup_insert_ne by discriminate. exact Hclo. }
  destruct (sel_dataset_ok "depth" depth
              (mkDataset (delete "longitude" (delete "latitude"
                            (<["time" := steps]> (coords dataset))))
                         (index_var "longitude" ilo <$>
                            (index_var "latitude" ila <$> (slice_var "time" lo hi <$> m))))
              cd) as (id & Sid & Nid & H4'); auto.
  { simpl. rewrite !lookup_delete_ne, lookup_insert_ne by discriminate. exact Hcd. }
  cbn [coords data_vars] in H1', H2', H3', H4'.
  eexists _, ct. split.
  { unfold series_3d. rewrite Hm, bind_ret, H1', bind_ret, H2', bind_ret, H3', bind_ret.
    exact H4'. }
  split; [assumption|]. split.
  { simpl. rewrite !lookup_delete_ne, lookup_insert_eq by discriminate. reflexivity. }
  intros var Hvar. simpl. rewrite !lookup_fmap, (Hlook var Hvar).
  destruct (var_ok_inv dataset var (Hvars var (proj1 (list_elem_of_In _ _) Hvar)))
    as (a & shape & Hv & Hshape & Hok).
  unfold grid_dims in *. rewrite Hd in *. rewrite Hv. simpl.
  unfold shape_of in Hshape. simpl in Hshape.
  rewrite Hct, Hcd, Hcla, Hclo in Hshape. simpl in Hshape. injection Hshape as <-.
  destruct (series_var_3d a _ _ _ _ lo hi id ila ilo Hok
              (nearest_to_lt _ _ _ Nid) (nearest_to_lt _ _ _ Nila)
              (nearest_to_lt _ _ _ Nilo)) as (l & El & Hlen & Hval).
  exists l. split; [f_equal; exact El|].
  assert (length l = length steps) as Hls.
  { rewrite Hlen, <- Esteps, length_take, length_drop. lia. }
  split; [exact Hls|].
  intros k y Hk. destruct (Hval k y Hk) as (x & -> & Hx).
  pose proof (lookup_lt_Some _ _ _ Hk) as Hkl. rewrite Hls in Hkl.
  destruct (lookup_lt_is_Some_2 steps k Hkl) as [t Ht].
  exists t, x. split; [assumption|]. split; [reflexivity|].
  assert (ct !! (lo + k)%nat = Some t) as Hpos.
  { rewrite <- Esteps in Ht.
    apply lookup_take_Some in Ht as [Ht _]. rewrite lookup_drop in Ht. exact Ht. }
  destruct (exact_step ct _ t At Hpos) as [St Nt'].
  exists (mkDataArray ["time"; "depth"; "latitude"; "longitude"] a),
         [(lo + k)%nat; id; ila; ilo].
  split; [assumption|]. split; [reflexivity|]. split; [|exact Hx].
  repeat constructor; simpl; eauto.
Qed.

(** The same on a grid without depth. *)
Lemma series_2d_ok (dataset : Dataset) (vars : list string)
    (start stop latitude longitude : Q) :
  has_depth dataset = false -> well_formed dataset vars = true ->
  exists point time,
    series_2d dataset vars (start, stop, latitude, longitude) = ok point /\
    coords dataset !! "time" = Some time /\
    coords point !! "time" = Some (steps_within start stop time) /\
    forall var, var ∈ vars ->
      exists l,
        data_vars point !! var = Some (mkDataArray ["time"] (Arr l)) /\
        length l = length (steps_within start stop time) /\
        forall k y, l !! k = Some y ->
          exists t x,
            steps_within start stop time !! k = Some t /\ y = Scalar x /\
            sampled_at dataset var
              [("time", t); ("latitude", latitude); ("longitude", longitude)] x.
Proof.
  intros Hd Hwf. unfold well_formed in Hwf.
  apply andb_true_iff in Hwf as [Hax Hvars].
  pose proof (forallb_var_ok _ _ Hvars) as Hpresent.
  rewrite forallb_forall in Hvars.
  unfold grid_dims in Hax. rewrite Hd in Hax. simpl in Hax.
  repeat (apply andb_true_iff in Hax as [? Hax]).
  destruct (axis_ok_inv _ _ H) as (ct & Hct & At & Nt).
  destruct (axis_ok_inv _ _ H0) as (cla & Hcla & Ala & Nla).
  destruct (axis_ok_inv _ _ H1) as (clo & Hclo & Alo & Nlo).
  destruct (getitems_ok dataset vars Hpresent) as (m & Hm & Hlook).
  destruct (sel_slice_ascending "time" start stop (mkDataset (coords dataset) m) ct
              Hct (strictly_ascending_monotonic _ At)) as (lo & hi & Elo & Ehi & Esteps & H1').
  set (steps := steps_within start stop ct) in *.
  destruct (sel_dataset_ok "latitude" latitude
              (mkDataset (<["time" := steps]> (coords dataset))
                         (slice_var "time" lo hi <$> m)) cla)
    as (ila & Sila & Nila & H2'); auto.
  { simpl. rewrite lookup_insert_ne by discriminate. exact Hcla. }
  destruct (sel_dataset_ok "longitude" longitude
              (mkDataset (delete "latitude" (<["time" := steps]> (coords dataset)))
                         (index_var "latitude" ila <$> (slice_var "time" lo hi <$> m)))
              clo) as (ilo & Silo & Nilo & H3'); auto.
  { simpl. rewrite lookup_delete_ne, lookup_insert_ne by discriminate. exact Hclo. }
  cbn [coords data_vars] in H1', H2', H3'.
  eexists _, ct. split.
  { unfold series_2d. rewrite Hm, bind_ret, H1', bind_ret, H2', bind_ret. exact H3'. }
  split; [assumption|]. split.
  { simpl. rewrite !lookup_delete_ne, lookup_insert_eq by discriminate. reflexivity. }
  intros var Hvar. simpl. rewrite !lookup_fmap, (Hlook var Hvar).
  destruct (var_ok_inv dataset var (Hvars var (proj1 (list_elem_of_In _ _) Hvar)))
    as (a & shape & Hv & Hshape & Hok).
  unfold grid_dims in *. rewrite Hd in *. rewrite Hv. simpl.
  unfold shape_of in Hshape. simpl in Hshape.
  rewrite Hct, Hcla, Hclo in Hshape. simpl in Hshape. injection Hshape as <-.
  destruct (series_var_2d a _ _ _ lo hi ila ilo Hok
              (nearest_to_lt _ _ _ Nila) (nearest_to_lt _ _ _ Nilo))
    as (l & El & Hlen & Hval).
  exists l. split; [f_equal; exact El|].
  assert (length l = length steps) as Hls.
  { rewrite Hlen, <- Esteps, length_take, length_drop. lia. }
  split; [exact Hls|].
  intros k y Hk. destruct (Hval k y Hk) as (x & -> & Hx).
  pose proof (lookup_lt_Some _ _ _ Hk) as Hkl. rewrite Hls in Hkl.
  destruct (lookup_lt_is_Some_2 steps k Hkl) as [t Ht].
  exists t, x. split; [assumption|]. split; [reflexivity|].
  assert (ct !! (lo + k)%nat = Some t) as Hpos.
  { rewrite <- Esteps in Ht.
    apply lookup_take_Some in Ht as [Ht _]. rewrite lookup_drop in Ht. exact Ht. }
  destruct (exact_step ct _ t At Hpos) as [St Nt'].
  exists (mkDataArray ["time"; "latitude"; "longitude"] a), [(lo + k)%nat; ila; ilo].
  split; [assumption|]. split; [reflexivity|]. split; [|exact Hx].
  repeat constructor; simpl; eauto.
Qed.

(** ** What [sort_dimension] does repair *)

Lemma enumerate_from_lookup (pre c : list Q) :
  Forall (fun e => (pre ++ c) !! e.2 = Some e.1) (zip c (seq (length pre) (length c))).
Proof.
  revert pre. induction c as [|x c IH]; intros pre; simpl; constructor.
  - simpl. apply list_lookup_middle. reflexivity.
  - specialize (IH (pre ++ [x])). rewrite <- app_assoc, length_app in IH.
    simpl in IH. rewrite Nat.add_1_r in IH. exact IH.
Qed.

Lemma omap_lookup_pairs (c : list Q) (l : list (Q * nat)) :
  Forall (fun e => c !! e.2 = Some e.1) l -> omap (fun i => c !! i) l.*2 = l.*1.
Proof.
  induction 1 as [|[q i] l Hqi _ IH]; simpl in *; [reflexivity|].
  rewrite Hqi. f_equal. exact IH.
Qed.

Lemma sorted_values (c : list Q) :
  omap (fun i => c !! i) (lexsort c) = (sort_keys (enumerate c)).*1.
Proof.
  unfold lexsort. apply omap_lookup_pairs.
  rewrite sort_keys_perm. exact (enumerate_from_lookup [] c).
Qed.

Lemma sorted_is_monotonic (l : list (Q * nat)) :
  Sorted key_le l -> is_monotonic_increasing l.*1 = true.
Proof.
  induction 1 as [|x l Hs IH Hhd]; [reflexivity|].
  simpl. destruct l as [|y l]; [reflexivity|]. simpl in *.
  apply andb_true_iff. split; [|exact IH].
  apply Qle_bool_iff. inversion Hhd. assumption.
Qed.

(** When the test of [sort_dimension] holds, the axis comes out strictly
    ascending (its coordinates being distinct), with the coordinates it
    had.  A strictly descending axis passes the test. *)
Lemma sort_dimension_sorts (dataset dataset' : Dataset) (dim_name : string)
    (c0 : Q) (c : list Q) :
  coords dataset !! dim_name = Some (c0 :: c) ->
  forallb (fun x => Qle_bool x c0) (removelast (c0 :: c)) = true ->
  is_unique (c0 :: c) = true ->
  sort_dimension dataset dim_name = ok dataset' ->
  exists c', coords dataset' !! dim_name = Some c' /\
             strictly_ascending c' /\ c' ≡ₚ c0 :: c.
Proof.
  intros Hc Hguard Hu Hsort. unfold sort_dimension in Hsort.
  rewrite Hc in Hsort. cbn [from_option] in Hsort. rewrite bind_ret in Hsort.
  apply bind_ok in Hsort as (c1 & Hc1 & Hsort). simpl in Hc1. injection Hc1 as <-.
  rewrite Hguard in Hsort. unfold sortby in Hsort.
  rewrite Hc in Hsort. cbn [from_option] in Hsort. rewrite bind_ret in Hsort.
  injection Hsort as <-. eexists. split; [apply lookup_insert_eq|]. split.
  - apply ascending_of_checks; [apply is_unique_sorted, Hu|].
    rewrite sorted_values. apply sorted_is_monotonic, sort_keys_sorted.
  - rewrite sorted_values, sort_keys_perm. unfold enumerate.
    rewrite enumerate_from_fst. reflexivity.
Qed.

Lemma removelast_incl {A} (l : list A) (x : A) : In x (removelast l) -> In x l.
Proof.
  induction l as [|y l IH]; simpl; [auto|].
  destruct l as [|z l]; [intros []|]. intros [->|H]; [left; reflexivity|].
  right. apply IH, H.
Qed.

Lemma descending_passes_test (c0 : Q) (c : list Q) :
  StronglySorted (fun x y => (y < x)%Q) (c0 :: c) ->
  forallb (fun x => Qle_bool x c0) (removelast (c0 :: c)) = true /\
  is_unique (c0 :: c) = true.
Proof.
  intros Hs. split.
  - apply forallb_forall. intros x Hx. apply Qle_bool_iff.
    apply removelast_incl in Hx.
    destruct Hx as [<-|Hx]; [lra|]. apply StronglySorted_inv in Hs as [_ Hall].
    rewrite Forall_forall in Hall. apply Qlt_le_weak, Hall, list_elem_of_In, Hx.
  - apply is_unique_intro. intros i j x y Hi Hj E. apply Qeq_bool_iff in E.
    assert (forall i j x y, (i < j)%nat -> (c0 :: c) !! i = Some x ->
                            (c0 :: c) !! j = Some y -> (y < x)%Q) as Hlt.
    { clear -Hs. induction Hs as [|z l Hs IH Hall]; intros i j x y Hij; [discriminate|].
      destruct j as [|j]; [lia|]. destruct i as [|i]; simpl.
      - intros [= <-] Hj. rewrite Forall_forall in Hall.
        apply Hall. eapply list_elem_of_lookup_2, Hj.
      - apply IH. lia. }
    destruct (Nat.lt_total i j) as [H|[->|H]]; [|reflexivity|].
    + pose proof (Hlt _ _ _ _ H Hi Hj). lra.
    + pose proof (Hlt _ _ _ _ H Hj Hi). lra.
Qed.

(** ** The table of the "temporal points" cell: success *)

(** Both branches of the cell, over the rows they build from the table. *)
Lemma temporal_points_rows (dataset : Dataset) (variables : list string) (df : DataFrame) :
  has_columns df (query_columns dataset) = true ->
  exists (R : Type) (sample : string -> R -> Result Q) (rows : list R) (dates : list Q),
    length rows = nrows df /\
    columns df !! "Date" = Some dates /\ length dates = nrows df /\
    (forall var row, data_vars dataset !! var = None ->
       sample var row = raise (KeyError var)) /\
    (forall var row, forallb (axis_ok dataset) (grid_dims dataset) = true ->
       var_ok dataset var = true -> exists x, sample var row = ok x) /\
    temporal_points dataset variables df
    = (sampled ← traverse (fun var => col ← traverse (sample var) rows; ok (var, col))
                   variables;
       dataframe_final ← assign_all df sampled;
       date ← column dataframe_final "Date";
       date_dataset ← traverse (matched_time dataset) date;
       assign dataframe_final "Date_dataset" date_dataset).
Proof.
  intros Hcols. unfold query_columns in Hcols. unfold temporal_points.
  destruct (has_depth dataset) eqn:Hd.
  - destruct (has_columns_lookup df _ "Date" Hcols) as (dates & Hdates & Ldates);
      [set_solver|].
    destruct (has_columns_lookup df _ "Latitude" Hcols) as (lats & Hlats & Llats);
      [set_solver|].
    destruct (has_columns_lookup df _ "Longitude" Hcols) as (lons & Hlons & Llons);
      [set_solver|].
    destruct (has_columns_lookup df _ "Depth" Hcols) as (depths & Hdepths & Ldepths);
      [set_solver|].
    exists (Q * Q * Q * Q)%type, (sample_3d dataset),
      (zip (zip (zip dates lats) lons) depths), dates.
    split; [rewrite !length_zip; lia|]. split; [exact Hdates|]. split; [exact Ldates|].
    split; [|split].
    + intros var [[[date lat] lon] depth] Hv. unfold sample_3d, getitem. rewrite Hv.
      reflexivity.
    + intros var [[[date lat] lon] depth] Hax Hv.
      destruct (sample_3d_ok dataset var date lat lon depth Hd Hax Hv) as (x & Hx & _).
      eauto.
    + f_equal. apply traverse_ext. intros var.
      rewrite (column_ok _ _ _ Hdates), bind_ret.
      rewrite (column_ok _ _ _ Hlats), bind_ret.
      rewrite (column_ok _ _ _ Hlons), bind_ret.
      rewrite (column_ok _ _ _ Hdepths), bind_ret. reflexivity.
  - destruct (has_columns_lookup df _ "Date" Hcols) as (dates & Hdates & Ldates);
      [set_solver|].
    destruct (has_columns_lookup df _ "Latitude" Hcols) as (lats & Hlats & Llats);
      [set_solver|].
    destruct (has_columns_lookup df _ "Longitude" Hcols) as (lons & Hlons & Llons);
      [set_solver|].
    exists (Q * Q * Q)%type, (sample_2d dataset), (zip (zip dates lats) lons), dates.
    split; [rewrite !length_zip; lia|]. split; [exact Hdates|]. split; [exact Ldates|].
    split; [|split].
    + intros var [[date lat] lon] Hv. unfold sample_2d, getitem. rewrite Hv.
      reflexivity.
    + intros var [[date lat] lon] Hax Hv.
      destruct (sample_2d_ok dataset var date lat lon Hd Hax Hv) as (x & Hx & _).
      eauto.
    + f_equal. apply traverse_ext. intros var.
      rewrite (column_ok _ _ _ Hdates), bind_ret.
      rewrite (column_ok _ _ _ Hlats), bind_ret.
      rewrite (column_ok _ _ _ Hlons), bind_ret. reflexivity.
Qed.

(** On a well-formed grid and a table that has the columns the cell
    reads, the cell computes a table. *)
Lemma temporal_points_succeeds (dataset : Dataset) (variables : list string)
    (df : DataFrame) :
  well_formed dataset variables = true ->
  has_columns df (query_columns dataset) = true ->
  exists df', temporal_points dataset variables df = ok df'.
Proof.
  intros Hwf Hcols. unfold well_formed in Hwf.
  apply andb_true_iff in Hwf as [Hax Hvars]. rewrite forallb_forall in Hvars.
  assert (axis_ok dataset "time" = true) as Ht.
  { rewrite forallb_forall in Hax. apply Hax. unfold grid_dims.
    destruct (has_depth dataset); simpl; auto. }
  destruct (temporal_points_rows dataset variables df Hcols)
    as (R & sample & rows & dates & Lrows & Hdates & Ldates & _ & Hsome & ->).
  destruct (sampled_columns sample (fun _ _ _ => True) variables rows)
    as (sampled & Hs & Hnames & Hall).
  { intros var row Hvar _. destruct (Hsome var row Hax) as [x Hx]; [|eauto].
    apply Hvars, list_elem_of_In, Hvar. }
  rewrite Hs, bind_ret.
  assert (Forall (fun c : string * list Q => length c.2 = nrows df) sampled) as Hlen.
  { eapply Forall_impl; [exact Hall|]. intros c [Hc _]. congruence. }
  destruct (assign_all_ok df sampled Hlen) as (df1 & H1 & Hr1 & Hout & Hin).
  rewrite H1, bind_ret.
  assert (exists dates1, columns df1 !! "Date" = Some dates1 /\ length dates1 = nrows df)
    as (dates1 & Hd1 & Ld1).
  { destruct (decide ("Date" ∈ sampled.*1)) as [Hv|Hv].
    - destruct (Hin _ Hv) as (c & Hc & Hcol). exists c. split; [exact Hcol|].
      rewrite Forall_forall in Hlen. exact (Hlen _ Hc).
    - exists dates. rewrite (Hout _ Hv). auto. }
  rewrite (column_ok _ _ _ Hd1), bind_ret.
  destruct (traverse_total (matched_time dataset) dates1) as [matched Hm].
  { apply Forall_forall. intros date _.
    destruct (matched_time_ok dataset date Ht) as (t & _ & _ & Hmt & _). eauto. }
  rewrite Hm, bind_ret. rewrite assign_ok; [eauto|].
  rewrite (traverse_length _ _ _ Hm). congruence.
Qed.

(** ** Nearest matching on a descending axis *)

Lemma strictly_descending_lookup (c : list Q) (i j : nat) (x y : Q) :
  strictly_descending c -> (i < j)%nat -> c !! i = Some x -> c !! j = Some y ->
  (y < x)%Q.
Proof.
  intros Hs. revert i j. induction Hs as [|x0 l Hs IH Hall]; intros i j Hij; [discriminate|].
  destruct j as [|j]; [lia|]. destruct i as [|i]; simpl.
  - intros [= <-] Hj. rewrite Forall_forall in Hall.
    apply Hall. eapply list_elem_of_lookup_2, Hj.
  - apply IH. lia.
Qed.

Lemma strictly_descending_le (c : list Q) (i j : nat) (x y : Q) :
  strictly_descending c -> (i <= j)%nat -> c !! i = Some x -> c !! j = Some y ->
  (y <= x)%Q.
Proof.
  intros Hs Hij Hi Hj. destruct (decide (i = j)) as [->|Hne].
  - rewrite Hi in Hj. injection Hj as <-. lra.
  - apply Qlt_le_weak.
    apply (strictly_descending_lookup c i j x y Hs); [lia | assumption | assumption].
Qed.

Lemma strictly_descending_unique (c : list Q) : strictly_descending c -> is_unique c = true.
Proof.
  intros Hs. apply is_unique_intro. intros i j x y Hi Hj E.
  apply Qeq_bool_iff in E.
  destruct (Nat.lt_total i j) as [Hlt|[->|Hlt]]; [|reflexivity|].
  - pose proof (strictly_descending_lookup _ _ _ _ _ Hs Hlt Hi Hj). lra.
  - pose proof (strictly_descending_lookup _ _ _ _ _ Hs Hlt Hj Hi). lra.
Qed.

Lemma strictly_descending_monotonic (c : list Q) :
  strictly_descending c -> is_monotonic_decreasing c = true.
Proof.
  induction 1 as [|x l Hs IH Hall]; [reflexivity|].
  simpl. destruct l as [|y l]; [reflexivity|].
  apply andb_true_iff. split; [|exact IH].
  apply Qle_bool_iff, Qlt_le_weak. inversion Hall; assumption.
Qed.

Lemma strictly_descending_not_increasing (c : list Q) :
  strictly_descending c -> (2 <= length c)%nat -> is_monotonic_increasing c = false.
Proof.
  intros Hs Hlen. destruct c as [|x [|y c]]; [simpl in Hlen; lia..|].
  simpl. apply andb_false_iff. left. apply Qle_bool_false.
  apply (strictly_descending_lookup (x :: y :: c) 0 1 x y Hs); [lia|reflexivity..].
Qed.

Lemma descending_of_checks (c : list Q) :
  is_unique c = true -> is_monotonic_decreasing c = true -> strictly_descending c.
Proof.
  intros Hu Hm. apply Sorted_StronglySorted.
  { intros x y z Hxy Hyz. lra. }
  induction c as [|x c IH]; [constructor|].
  simpl in Hu. apply andb_true_iff in Hu as [Hx Hu]. apply negb_true_iff in Hx.
  simpl in Hm. destruct c as [|y c]; [repeat constructor|].
  apply andb_true_iff in Hm as [Hxy Hm].
  constructor; [apply IH; assumption|]. constructor.
  apply Qle_bool_iff in Hxy. simpl in Hx. apply orb_false_iff in Hx as [Hne _].
  apply Qle_lt_or_eq in Hxy as [Hlt|Heq]; [assumption|].
  symmetry in Heq. apply Qeq_bool_iff in Heq. congruence.
Qed.

Lemma nearest_to_value (index : list Q) (q : Q) (i : nat) :
  strictly_ascending index -> nearest_to index q i -> nearest_value index q i.
Proof.
  intros Hasc (y & Hy & Hmin). exists y. split; [exact Hy|].
  intros j x Hj. destruct (Hmin j x Hj) as [Hle Htie]. split; [exact Hle|].
  intros E. eapply (strictly_ascending_le index j i); eauto.
Qed.

Lemma nearest_value_lt (index : list Q) (q : Q) (i : nat) :
  nearest_value index q i -> (i < length index)%nat.
Proof. intros (y & Hy & _). eapply lookup_lt_Some, Hy. Qed.

Lemma nearest_value_exact (index : list Q) (q : Q) (i j : nat) (x : Q) :
  is_unique index = true -> nearest_value index q i ->
  index !! j = Some x -> (x == q)%Q -> i = j.
Proof.
  intros Hu (y & Hy & Hmin) Hj Hx.
  destruct (Hmin j x Hj) as [Hle _].
  assert (Qabs (x - q) == 0)%Q as Hx0.
  { pose proof (dist_below x q ltac:(lra)). lra. }
  assert (Qabs (y - q) <= 0)%Q as Hy0 by lra.
  apply Qabs_Qle_condition in Hy0 as [Hy1 Hy2].
  apply (is_unique_lookup index i j y x Hu Hy Hj). apply Qeq_bool_iff. lra.
Qed.

Section NearestDescending.

Variables (index : list Q) (q : Q).
Hypothesis Hdesc : strictly_descending index.
Hypothesis Hlen : (2 <= length index)%nat.

Let kL := prefix_len (fun x => Qle_bool q x) index.
Let kR := prefix_len (fun x => Qlt_bool q x) index.

Lemma kL_desc_spec (j : nat) (x : Q) :
  index !! j = Some x -> ((j < kL)%nat <-> (q <= x)%Q).
Proof.
  intros Hj. unfold kL.
  rewrite (prefix_len_spec (fun a b => (b < a)%Q) (fun x => Qle_bool q x) index j x Hdesc);
    auto.
  - apply Qle_bool_iff.
  - intros a b Hab Hb. apply Qle_bool_iff in Hb. apply Qle_bool_iff. lra.
Qed.

Lemma kR_desc_spec (j : nat) (x : Q) :
  index !! j = Some x -> ((j < kR)%nat <-> (q < x)%Q).
Proof.
  intros Hj. unfold kR.
  rewrite (prefix_len_spec (fun a b => (b < a)%Q) (fun x => Qlt_bool q x) index j x Hdesc);
    auto.
  - apply Qlt_bool_iff.
  - intros a b Hab Hb. apply Qlt_bool_iff in Hb. apply Qlt_bool_iff. lra.
Qed.

Lemma kR_le_kL_desc : (kR <= kL)%nat.
Proof.
  destruct (le_lt_dec kR kL) as [H|H]; [assumption|exfalso].
  assert (kL < length index)%nat as Hl.
  { pose proof (prefix_len_le (fun x => Qlt_bool q x) index) as H0. fold kR in H0. lia. }
  destruct (lookup_lt_is_Some_2 _ _ Hl) as [x Hx].
  pose proof (proj1 (kR_desc_spec kL x Hx) H) as H1.
  pose proof (kL_desc_spec kL x Hx) as H2.
  assert (q <= x)%Q as H3 by lra. apply H2 in H3. lia.
Qed.

Lemma get_nearest_indexer_descending :
  exists i, get_nearest_indexer index q = ok (Some i) /\ nearest_value index q i.
Proof.
  unfold get_nearest_indexer.
  rewrite (strictly_descending_unique index Hdesc). simpl.
  destruct (Nat.eqb_spec (length index) 0) as [H0|H0]; [lia|].
  rewrite (strictly_descending_not_increasing index Hdesc Hlen).
  rewrite (strictly_descending_monotonic index Hdesc). simpl.
  unfold pad, backfill. fold kL kR.
  pose proof kR_le_kL_desc as HRL.
  pose proof (prefix_len_le (fun x => Qle_bool q x) index) as HL. fold kL in HL.
  destruct kL as [|k'] eqn:EL.
  - (* every coordinate is below the label *)
    assert (kR = 0)%nat as -> by lia.
    destruct (Nat.ltb_spec 0 (length index)) as [_|?]; [|lia].
    destruct (lookup_lt_is_Some_2 index 0 ltac:(lia)) as [x0 H0x].
    assert (x0 < q)%Q as Hq.
    { apply Qnot_le_lt. intros Hle. apply (kL_desc_spec 0 x0 H0x) in Hle. lia. }
    assert (forall j x, index !! j = Some x -> (x <= x0)%Q) as Hmax.
    { intros j x Hj. eapply (strictly_descending_le index 0 j); eauto. lia. }
    unfold distance. rewrite H0x. simpl default.
    destruct (last index) as [xl|] eqn:El.
    2:{ apply last_None in El. subst index. simpl in Hlen. lia. }
    simpl default.
    assert (xl < x0)%Q as Hl.
    { rewrite last_lookup in El.
      apply (strictly_descending_lookup index 0 (Nat.pred (length index)) x0 xl Hdesc);
        [lia|assumption..]. }
    assert (Qle_bool (Qabs (xl - q)) (Qabs (x0 - q)) = false) as ->.
    { apply Qle_bool_false. rewrite !dist_below by lra. lra. }
    simpl. exists 0%nat. split; [reflexivity|].
    exists x0. split; [assumption|]. intros j x Hj.
    pose proof (Hmax j x Hj) as Hx.
    pose proof (dist_below x0 q ltac:(lra)) as D0.
    pose proof (dist_below x q ltac:(lra)) as D.
    split; [lra|]. intros _. exact Hx.
  - destruct (lookup_lt_is_Some_2 index k' ltac:(lia)) as [xL HxL].
    assert (q <= xL)%Q as HLq by (apply (kL_desc_spec k' xL HxL); lia).
    unfold distance at 1. rewrite HxL. simpl default.
    destruct (Nat.ltb_spec kR (length index)) as [HR|HR].
    + (* a coordinate on either side *)
      destruct (lookup_lt_is_Some_2 index kR HR) as [xR HxR].
      assert (xR <= q)%Q as HRq.
      { apply Qnot_lt_le. intros Hlt. apply (kR_desc_spec kR xR HxR) in Hlt. lia. }
      unfold distance. rewrite HxR. simpl default.
      rewrite (bool_decide_eq_false_2 (Some kR = None)) by discriminate.
      rewrite orb_false_r.
      pose proof (dist_above xL q HLq) as DL.
      pose proof (dist_below xR q HRq) as DR.
      destruct (Qle_bool (Qabs (xL - q)) (Qabs (xR - q))) eqn:Eop.
      * apply Qle_bool_iff in Eop.
        exists k'. split; [reflexivity|].
        exists xL. split; [assumption|]. intros j x Hj.
        destruct (le_lt_dec j k') as [Hjk|Hjk].
        -- pose proof (strictly_descending_le index j k' x xL Hdesc Hjk Hj HxL).
           pose proof (dist_above x q ltac:(lra)). split; [lra|]. intros. lra.
        -- assert (x <= xR)%Q.
           { eapply (strictly_descending_le index kR j); eauto. lia. }
           pose proof (dist_below x q ltac:(lra)). split; [lra|]. intros. lra.
      * apply Qle_bool_false in Eop.
        exists kR. split; [reflexivity|].
        exists xR. split; [assumption|]. intros j x Hj.
        destruct (le_lt_dec kR j) as [Hjk|Hjk].
        -- pose proof (strictly_descending_le index kR j xR x Hdesc Hjk HxR Hj).
           pose proof (dist_below x q ltac:(lra)). split; [lra|]. intros. lra.
        -- assert (xL <= x)%Q.
           { eapply (strictly_descending_le index j k'); eauto. lia. }
           pose proof (dist_above x q ltac:(lra)). split; [lra|]. intros. lra.
    + (* every coordinate is above the label *)
      rewrite (bool_decide_eq_true_2 (None = None)) by reflexivity.
      rewrite orb_true_r.
      exists k'. split; [reflexivity|].
      exists xL. split; [assumption|]. intros j x Hj.
      pose proof (lookup_lt_Some _ _ _ Hj) as Hjlen.
      assert (j <= k')%nat as Hjk by lia.
      pose proof (strictly_descending_le index j k' x xL Hdesc Hjk Hj HxL).
      pose proof (dist_above xL q HLq). pose proof (dist_above x q ltac:(lra)).
      split; [lra|]. intros. lra.
Qed.

End NearestDescending.

(** The rule of [sel(..., method="nearest")] on an axis in either
    direction. *)
Lemma sel_nearest_monotonic (dim : string) (index : list Q) (q : Q) :
  strictly_ascending index \/ strictly_descending index -> index <> [] ->
  exists i, sel_nearest dim index q = ok i /\ nearest_value index q i /\
            is_unique index = true.
Proof.
  intros Hm Hne.
  assert (strictly_ascending index \/
          (strictly_descending index /\ (2 <= length index)%nat)) as [Hasc|[Hdesc Hlen]].
  { destruct Hm as [?|Hdesc]; [auto|].
    destruct index as [|x [|y l]]; [congruence| |right; split; [assumption|simpl; lia]].
    left. repeat constructor. }
  - destruct (sel_nearest_ascending_total dim index q Hasc Hne) as (i & Hi & Hn).
    exists i. split; [exact Hi|].
    split; [apply nearest_to_value; assumption|apply strictly_ascending_unique, Hasc].
  - destruct (get_nearest_indexer_descending index q Hdesc Hlen) as (i & Hi & Hn).
    exists i. unfold sel_nearest. rewrite Hi.
    split; [reflexivity|]. split; [exact Hn|apply strictly_descending_unique, Hdesc].
Qed.

Lemma axis_searchable_inv (dataset : Dataset) (d : string) :
  axis_searchable dataset d = true ->
  exists c, coords dataset !! d = Some c /\
            (strictly_ascending c \/ strictly_descending c) /\ c <> [].
Proof.
  unfold axis_searchable. destruct (coords dataset !! d) as [c|]; [|discriminate].
  intros H. apply andb_true_iff in H as [H Hm]. apply andb_true_iff in H as [Hn Hu].
  exists c. split; [reflexivity|]. split.
  - apply orb_true_iff in Hm as [Hm|Hm];
      [left; apply ascending_of_checks | right; apply descending_of_checks]; assumption.
  - intros ->. discriminate.
Qed.

Lemma sel_var_first_monotonic (cs : gmap string (list Q)) (dim : string)
    (ds : list string) (c : list Q) (shape : list nat) (a : ndarray) (q : Q) :
  cs !! dim = Some c -> strictly_ascending c \/ strictly_descending c -> c <> [] ->
  shape_ok (length c :: shape) a = true ->
  exists i,
    sel_nearest dim c q = ok i /\ nearest_value c q i /\
    (forall j y, c !! j = Some y -> (y == q)%Q -> i = j) /\
    sel_var cs dim q (mkDataArray (dim :: ds) a)
      = ok (mkDataArray ds (index_axis 0 i a)) /\
    shape_ok shape (index_axis 0 i a) = true /\
    forall rest, get (index_axis 0 i a) rest = get a (i :: rest).
Proof.
  intros Hc Hm Hne Ha.
  destruct (sel_nearest_monotonic dim c q Hm Hne) as (i & Hi & Hn & Hu).
  destruct (shape_ok_index_first _ _ _ i Ha (nearest_value_lt _ _ _ Hn)) as [Hs Hg].
  exists i. split; [exact Hi|]. split; [exact Hn|].
  split; [intros j y; apply nearest_value_exact; assumption|].
  split; [|split; assumption].
  unfold sel_var. simpl. rewrite String.eqb_refl. simpl.
  rewrite Hc. simpl. rewrite Hi. reflexivity.
Qed.

Lemma sample_3d_monotonic (dataset : Dataset) (var : string)
    (date latitude longitude depth : Q) :
  has_depth dataset = true ->
  forallb (axis_searchable dataset) (grid_dims dataset) = true ->
  var_ok dataset var = true ->
  exists x,
    sample_3d dataset var (date, latitude, longitude, depth) = ok x /\
    sampled_nearest dataset var
      [("time", date); ("depth", depth); ("latitude", latitude);
       ("longitude", longitude)] x.
Proof.
  intros Hd Hax Hv. apply var_ok_inv in Hv as (a & shape & Hv & Hshape & Hok).
  unfold grid_dims in *. rewrite Hd in *. simpl in Hax.
  repeat (apply andb_true_iff in Hax as [? Hax]).
  destruct (axis_searchable_inv _ _ H) as (ct & Hct & At & Nt).
  destruct (axis_searchable_inv _ _ H0) as (cd & Hcd & Ad & Nd).
  destruct (axis_searchable_inv _ _ H1) as (cla & Hcla & Ala & Nla).
  destruct (axis_searchable_inv _ _ H2) as (clo & Hclo & Alo & Nlo).
  unfold shape_of in Hshape. simpl in Hshape.
  rewrite Hct, Hcd, Hcla, Hclo in Hshape. simpl in Hshape. injection Hshape as <-.
  destruct (sel_var_first_monotonic (coords dataset) "time"
              ["depth"; "latitude"; "longitude"]
              ct _ a date Hct At Nt Hok) as (it & Sit & Nit & Xit & E1 & Hok1 & G1).
  destruct (sel_var_first_monotonic (coords dataset) "depth" ["latitude"; "longitude"]
              cd _ _ depth Hcd Ad Nd Hok1) as (id & Sid & Nid & Xid & E2 & Hok2 & G2).
  destruct (sel_var_first_monotonic (coords dataset) "latitude" ["longitude"]
              cla _ _ latitude Hcla Ala Nla Hok2)
    as (ila & Sila & Nila & Xila & E3 & Hok3 & G3).
  destruct (sel_var_first_monotonic (coords dataset) "longitude" []
              clo _ _ longitude Hclo Alo Nlo Hok3)
    as (ilo & Silo & Nilo & Xilo & E4 & Hok4 & G4).
  destruct (shape_ok_scalar _ Hok4) as [x Hx].
  exists x. split.
  - unfold sample_3d, getitem. rewrite Hv. unfold from_option.
    rewrite bind_ret, E1, bind_ret, E2, bind_ret, E3, bind_ret, E4, bind_ret.
    unfold float. cbn [values]. rewrite Hx. reflexivity.
  - exists (mkDataArray ["time"; "depth"; "latitude"; "longitude"] a), [it; id; ila; ilo].
    split; [assumption|]. split; [reflexivity|]. split.
    + repeat constructor; simpl; eauto 10.
    + simpl values. rewrite <- G1, <- G2, <- G3, <- G4, Hx. reflexivity.
Qed.

Lemma sample_2d_monotonic (dataset : Dataset) (var : string)
    (date latitude longitude : Q) :
  has_depth dataset = false ->
  forallb (axis_searchable dataset) (grid_dims dataset) = true ->
  var_ok dataset var = true ->
  exists x,
    sample_2d dataset var (date, latitude, longitude) = ok x /\
    sampled_nearest dataset var
      [("time", date); ("latitude", latitude); ("longitude", longitude)] x.
Proof.
  intros Hd Hax Hv. apply var_ok_inv in Hv as (a & shape & Hv & Hshape & Hok).
  unfold grid_dims in *. rewrite Hd in *. simpl in Hax.
  repeat (apply andb_true_iff in Hax as [? Hax]).
  destruct (axis_searchable_inv _ _ H) as (ct & Hct & At & Nt).
  destruct (axis_searchable_inv _ _ H0) as (cla & Hcla & Ala & Nla).
  destruct (axis_searchable_inv _ _ H1) as (clo & Hclo & Alo & Nlo).
  unfold shape_of in Hshape. simpl in Hshape.
  rewrite Hct, Hcla, Hclo in Hshape. simpl in Hshape. injection Hshape as <-.
  destruct (sel_var_first_monotonic (coords dataset) "time" ["latitude"; "longitude"]
              ct _ a date Hct At Nt Hok) as (it & Sit & Nit & Xit & E1 & Hok1 & G1).
  destruct (sel_var_first_monotonic (coords dataset) "latitude" ["longitude"]
              cla _ _ latitude Hcla Ala Nla Hok1)
    as (ila & Sila & Nila & Xila & E3 & Hok3 & G3).
  destruct (sel_var_first_monotonic (coords dataset) "longitude" []
              clo _ _ longitude Hclo Alo Nlo Hok3)
    as (ilo & Silo & Nilo & Xilo & E4 & Hok4 & G4).
  destruct (shape_ok_scalar _ Hok4) as [x Hx].
  exists x. split.
  - unfold sample_2d, getitem. rewrite Hv. unfold from_option.
    rewrite bind_ret, E1, bind_ret, E3, bind_ret, E4, bind_ret.
    unfold float. cbn [values]. rewrite Hx. reflexivity.
  - exists (mkDataArray ["time"; "latitude"; "longitude"] a), [it; ila; ilo].
    split; [assumption|]. split; [reflexivity|]. split.
    + repeat constructor; simpl; eauto 10.
    + simpl values. rewrite <- G1, <- G3, <- G4, Hx. reflexivity.
Qed.

(** ** Axis normalisation: the claims *)

(** C10.  On an axis that is strictly ascending and has at least two
    coordinates, [sort_dimension] returns the dataset it was given: either
    the test fails and nothing is done, or the sort is asked for and
    leaves every coordinate and every value where it was.  Normalising a
    normalised dataset is therefore a no-op on that axis. *)
Theorem sort_dimension_ascending_noop (dataset : Dataset) (dim_name : string)
    (c : list Q) :
  consistent dataset ->
  coords dataset !! dim_name = Some c ->
  strictly_ascending c ->
  (2 <= length c)%nat ->
  sort_dimension dataset dim_name = ok dataset.
Proof.
  intros Hcons Hc Hasc Hlen. unfold sort_dimension. rewrite Hc. simpl.
  destruct c as [|c0 c']; [simpl in Hlen; lia|]. simpl head. simpl.
  destruct (forallb _ _); [|reflexivity].
  eapply sortby_sorted_id; eauto using strictly_ascending_Sorted.
Qed.

Lemma sort_dimension_ascending_noop_witness :
  sort_dimension scenario_normalized "latitude" = ok scenario_normalized.
Proof.
  apply (sort_dimension_ascending_noop scenario_normalized "latitude" [40; 41; 42]%Q).
  - apply (bool_decide_unpack _). vm_compute. exact I.
  - vm_compute. reflexivity.
  - repeat constructor.
  - simpl. lia.
Defined.

(** C1.  The claim fails on the code: [sort_dimension] asks for the sort
    only when the first coordinate is not below any coordinate but the
    last.  The latitudes 2, 3, 1 are out of order and stay so: normalising
    the dataset returns it as it was, its latitude axis not ascending. *)
Theorem normalize_leaves_axis_unsorted :
  sort_dimension zigzag "latitude" = ok zigzag /\
  normalize zigzag = ok zigzag /\
  coords zigzag !! "latitude" = Some [2; 3; 1]%Q /\
  ~ strictly_ascending [2; 3; 1]%Q.
Proof.
  split; [vm_compute; reflexivity|].
  split; [vm_compute; reflexivity|].
  split; [vm_compute; reflexivity|].
  intros H. inversion_clear H as [|? ? _ Hall].
  inversion_clear Hall as [|? ? _ Hall'].
  inversion_clear Hall' as [|? ? Hlt _].
  vm_compute in Hlt. discriminate.
Qed.

(** C2.  Normalisation only moves values along with their coordinates:
    a variable holds a value at a physical point (one coordinate value per
    dimension) after [normalize] exactly when it held that value at that
    point before; no value is made up.  In the scenario of a latitude axis
    42, 41, 40 with [uo] = 1.5 at latitude 42, longitude 6, the axis
    becomes 40, 41, 42 and the point sampled after normalisation, at a
    time of the grid, yields 1.5. *)
Theorem normalize_round_trip :
  (forall (dataset dataset' : Dataset) (var : string) (point : list Q) (x : Q),
      consistent dataset -> unique_coords dataset ->
      normalize dataset = ok dataset' ->
      (value_at dataset' var point = Some x <-> value_at dataset var point = Some x)) /\
  (exists d,
      normalize scenario = ok d /\
      coords d !! "latitude" = Some [40; 41; 42]%Q /\
      value_at scenario "uo" [0; 42; 6]%Q = Some (3 # 2)%Q /\
      sample_2d d "uo" (0, 42, 6)%Q = ok (3 # 2)%Q).
Proof.
  split.
  - intros dataset dataset' var point x Hcons Hu Hn.
    destruct (normalize_kept _ _ Hcons Hu Hn) as (_ & _ & Hval & Hback).
    split; [|apply Hval].
    intros Hx. destruct (Hback var point (ex_intro _ x Hx)) as [y Hy].
    pose proof (Hval var point y Hy) as Hy'. congruence.
  - exists scenario_normalized. repeat split; vm_compute; reflexivity.
Qed.

Lemma normalize_round_trip_witness :
  value_at scenario_normalized "uo" [0; 42; 6]%Q = Some (3 # 2)%Q.
Proof.
  apply (proj1 normalize_round_trip scenario scenario_normalized "uo" [0; 42; 6]%Q).
  - apply (bool_decide_unpack _). vm_compute. exact I.
  - apply (bool_decide_unpack _). vm_compute. exact I.
  - vm_compute. reflexivity.
  - vm_compute. reflexivity.
Defined.

(** ** Nearest matching: the claims *)

(** C3, as the code has it.  The claim says that tied distances go to the
    lowest index; [sel(..., method="nearest")] sends them to the larger
    coordinate.  What holds, axis by axis, on every axis that is not empty
    and strictly ascending or strictly descending (latitude and longitude
    are sorted by the cells, depth and time are searched as stored): the
    position selected is as close to the requested value as any other; of
    the coordinates that are as close it holds the largest, which is the
    highest of these positions on an ascending axis; and a requested value
    that is a coordinate of the axis selects the position of that
    coordinate.  The sampler, with and without depth, returns the value of
    the variable at the positions selected in this way, each on the axis
    of its own dimension.  The float 40.05 against the floats 40.0, 40.1,
    40.2 selects position 0: as stored, it is strictly closer to 40.0.
    Halfway between two depths of a descending axis the upper one is
    selected, at the lower position. *)
Theorem sample_nearest_per_axis :
  (forall (dim : string) (index : list Q) (q : Q),
      strictly_ascending index \/ strictly_descending index -> index <> [] ->
      exists i, sel_nearest dim index q = ok i /\
        nearest_value index q i /\
        (strictly_ascending index -> nearest_to index q i) /\
        forall j x, index !! j = Some x -> (x == q)%Q -> i = j) /\
  (forall (dataset : Dataset) (var : string) (date latitude longitude depth : Q),
      has_depth dataset = true ->
      forallb (axis_searchable dataset) (grid_dims dataset) = true ->
      var_ok dataset var = true ->
      exists x,
        sample_3d dataset var (date, latitude, longitude, depth) = ok x /\
        sampled_nearest dataset var
          [("time", date); ("depth", depth); ("latitude", latitude);
           ("longitude", longitude)] x) /\
  (forall (dataset : Dataset) (var : string) (date latitude longitude : Q),
      has_depth dataset = false ->
      forallb (axis_searchable dataset) (grid_dims dataset) = true ->
      var_ok dataset var = true ->
      exists x,
        sample_2d dataset var (date, latitude, longitude) = ok x /\
        sampled_nearest dataset var
          [("time", date); ("latitude", latitude); ("longitude", longitude)] x) /\
  sel_nearest "latitude" [40%Q; f64_40_1; f64_40_2] f64_40_05 = ok 0%nat /\
  sel_nearest "depth" [0; -5; -10]%Q (-15 # 2)%Q = ok 1%nat.
Proof.
  split; [|split; [|split; [|split; vm_compute; reflexivity]]].
  - intros dim index q Hm Hne.
    destruct (sel_nearest_monotonic dim index q Hm Hne) as (i & Hi & Hn & Hu).
    exists i. split; [exact Hi|]. split; [exact Hn|]. split.
    + intros Hasc.
      destruct (sel_nearest_ascending_total dim index q Hasc Hne) as (i' & Hi' & Hn').
      assert (i' = i) as <- by (unfold ok in *; congruence). exact Hn'.
    + intros j x. apply nearest_value_exact; assumption.
  - apply sample_3d_monotonic.
  - apply sample_2d_monotonic.
Qed.

Lemma sample_nearest_per_axis_witness :
  (exists i, sel_nearest "latitude" [40; 41; 42]%Q (83 # 2)%Q = ok i /\
     nearest_value [40; 41; 42]%Q (83 # 2)%Q i /\
     (strictly_ascending [40; 41; 42]%Q -> nearest_to [40; 41; 42]%Q (83 # 2)%Q i) /\
     forall j x, [40; 41; 42]%Q !! j = Some x -> (x == 83 # 2)%Q -> i = j) /\
  (exists x,
     sample_3d grid_deep "uo" (0, 40, 5, -15 # 2)%Q = ok x /\
     sampled_nearest grid_deep "uo"
       [("time", 0%Q); ("depth", (-15 # 2)%Q); ("latitude", 40%Q); ("longitude", 5%Q)] x).
Proof.
  destruct sample_nearest_per_axis as (H1 & H3 & _).
  split.
  - apply (H1 "latitude" [40; 41; 42]%Q (83 # 2)%Q).
    + left. repeat constructor.
    + discriminate.
  - apply (H3 grid_deep "uo" 0 40 5 (-15 # 2))%Q; vm_compute; reflexivity.
Defined.

(** C3, as the claim has it: halfway between two coordinates the lowest
    index would be selected.  At 40.5 on the axis 40, 41 the two distances
    are equal and position 1 is selected, not position 0.  So it is for the
    decimals of the claim's example, were they stored exactly: 40.05 is
    halfway between 40 and 40.1, and position 1 is selected. *)
Lemma sel_nearest_tie_not_lowest :
  (Qabs (40 - (81 # 2)) == Qabs (41 - (81 # 2)))%Q /\
  sel_nearest "latitude" [40; 41]%Q (81 # 2)%Q = ok 1%nat /\
  sel_nearest "latitude" [40; 41]%Q (81 # 2)%Q <> ok 0%nat /\
  sel_nearest "latitude" [40; 401 # 10; 402 # 10]%Q (4005 # 100)%Q = ok 1%nat.
Proof.
  split; [reflexivity|]. split; [vm_compute; reflexivity|].
  split; [vm_compute; discriminate | vm_compute; reflexivity].
Qed.

(** C7, as the code has it.  No requested value is too far from the axis:
    on a strictly ascending axis a value above the last coordinate selects
    the last position and a value below the first coordinate selects the
    first, whatever the distance. *)
Theorem sel_nearest_outside_span (dim : string) (index : list Q) (q lo hi : Q) :
  strictly_ascending index ->
  head index = Some lo -> last index = Some hi ->
  ((hi < q)%Q -> sel_nearest dim index q = ok (length index - 1)%nat) /\
  ((q < lo)%Q -> sel_nearest dim index q = ok 0%nat).
Proof.
  intros Hasc Hlo Hhi.
  assert (index <> []) as Hne by (intros ->; discriminate).
  destruct (sel_nearest_ascending_total dim index q Hasc Hne)
    as (i & Hi & y & Hy & Hmin).
  rewrite Hi. rewrite last_lookup in Hhi. rewrite head_lookup in Hlo.
  pose proof (lookup_lt_Some _ _ _ Hy) as Hlen.
  split; intros Hq; f_equal.
  - destruct (Hmin _ _ Hhi) as [Hle _].
    destruct (decide (i = pred (length index))) as [->|Hne']; [lia|exfalso].
    pose proof (strictly_ascending_lookup index i (pred (length index)) y hi
                  Hasc ltac:(lia) Hy Hhi).
    pose proof (dist_below y q ltac:(lra)). pose proof (dist_below hi q ltac:(lra)).
    lra.
  - destruct (Hmin _ _ Hlo) as [Hle _].
    destruct i as [|i]; [reflexivity|exfalso].
    pose proof (strictly_ascending_lookup index 0 (S i) lo y Hasc ltac:(lia) Hlo Hy).
    pose proof (dist_above y q ltac:(lra)). pose proof (dist_above lo q ltac:(lra)).
    lra.
Qed.

Lemma sel_nearest_outside_span_witness :
  sel_nearest "latitude" [40; 41; 42]%Q 2000 = ok 2%nat /\
  sel_nearest "latitude" [40; 41; 42]%Q 0 = ok 0%nat.
Proof.
  split.
  - apply (sel_nearest_outside_span "latitude" [40; 41; 42]%Q 2000 40 42);
      [repeat constructor | reflexivity | reflexivity | reflexivity].
  - apply (sel_nearest_outside_span "latitude" [40; 41; 42]%Q 0 40 42);
      [repeat constructor | reflexivity | reflexivity | reflexivity].
Defined.

(** C7, as the claim has it: a query far outside the grid would fail.
    Latitude 2000 is a thousand grid steps and more above the axis 40, 41,
    42; the sample does not fail and is the value at latitude 42. *)
Lemma sample_far_outside_span :
  (42 + 1000 * (41 - 40) < 2000)%Q /\
  sel_nearest "latitude" [40; 41; 42]%Q 2000 = ok 2%nat /\
  sample_2d scenario_normalized "uo" (0, 2000, 6)%Q = ok (3 # 2)%Q.
Proof.
  split; [reflexivity|]. split; vm_compute; reflexivity.
Qed.

(** ** The "temporal points" cell: the claims *)

(** C5.  On a well-formed grid and a table that has the columns of a
    query, the "temporal points" cell produces one table: it has the rows
    of the table of points, one per query; its column "Date_dataset" holds,
    row by row, the time coordinate of the dataset that is nearest to the
    date asked for; and each requested variable has a column holding, row
    by row, the value of the variable at the positions matched for that
    row. *)
Theorem temporal_points_table (dataset : Dataset) (variables : list string)
    (df : DataFrame) :
  well_formed dataset variables = true ->
  has_columns df (query_columns dataset) = true ->
  "Date" ∉ variables ->
  exists df' dates matched,
    temporal_points dataset variables df = ok df' /\
    nrows df' = nrows df /\
    columns df !! "Date" = Some dates /\
    columns df' !! "Date_dataset" = Some matched /\
    length matched = nrows df /\
    Forall2 (fun date t => exists ct i,
               coords dataset !! "time" = Some ct /\ nearest_to ct date i /\
               ct !! i = Some t) dates matched /\
    forall var, var ∈ variables -> var <> "Date_dataset" ->
      exists col,
        columns df' !! var = Some col /\ length col = nrows df /\
        forall k x, col !! k = Some x ->
          exists labels,
            query_labels dataset df k = Some labels /\
            sampled_at dataset var labels x.
Proof.
  intros Hwf Hcols Hno. unfold well_formed in Hwf.
  apply andb_true_iff in Hwf as [Hax Hvars]. rewrite forallb_forall in Hvars.
  assert (axis_ok dataset "time" = true) as Ht.
  { rewrite forallb_forall in Hax. apply Hax. unfold grid_dims.
    destruct (has_depth dataset); simpl; auto. }
  unfold query_columns in Hcols. unfold temporal_points.
  destruct (has_depth dataset) eqn:Hd.
  - destruct (has_columns_lookup df _ "Date" Hcols) as (dates & Hdates & Ldates);
      [set_solver|].
    destruct (has_columns_lookup df _ "Latitude" Hcols) as (lats & Hlats & Llats);
      [set_solver|].
    destruct (has_columns_lookup df _ "Longitude" Hcols) as (lons & Hlons & Llons);
      [set_solver|].
    destruct (has_columns_lookup df _ "Depth" Hcols) as (depths & Hdepths & Ldepths);
      [set_solver|].
    set (rows := zip (zip (zip dates lats) lons) depths).
    assert (length rows = nrows df) as Lrows.
    { unfold rows. rewrite !length_zip. lia. }
    destruct (sampled_columns (sample_3d dataset)
                (fun var row x => sampled_at dataset var
                   [("time", row.1.1.1); ("depth", row.2);
                    ("latitude", row.1.1.2); ("longitude", row.1.2)] x)
                variables rows) as (sampled & Hs & Hnames & Hall).
    { intros var [[[date lat] lon] depth] Hvar _.
      apply sample_3d_ok; auto. apply Hvars, list_elem_of_In, Hvar. }
    rewrite (traverse_ext _
               (fun var => col ← traverse (sample_3d dataset var) rows; ok (var, col))).
    2:{ intros var. rewrite (column_ok _ _ _ Hdates), bind_ret.
        rewrite (column_ok _ _ _ Hlats), bind_ret.
        rewrite (column_ok _ _ _ Hlons), bind_ret.
        rewrite (column_ok _ _ _ Hdepths), bind_ret. reflexivity. }
    rewrite Hs, bind_ret.
    destruct (temporal_points_finish dataset variables df dates sampled)
      as (df' & matched & Hdf' & Hrows & Hdd & Hml & Hmt & Hv); auto.
    { eapply Forall_impl; [exact Hall|]. intros c [Hc _]. congruence. }
    exists df', dates, matched. repeat (split; [assumption|]).
    intros var Hvar Hne. destruct (Hv var Hvar Hne) as (col & Hin & Hcol).
    exists col. split; [assumption|].
    rewrite Forall_forall in Hall. destruct (Hall _ Hin) as [Hlen Hval].
    split; [simpl in Hlen; congruence|].
    intros k x Hk. destruct (Hval k x Hk) as ([[[date lat] lon] depth] & Hrow & HP).
    unfold rows in Hrow.
    apply zip_lookup in Hrow as [Hrow Hde]. apply zip_lookup in Hrow as [Hrow Hlo].
    apply zip_lookup in Hrow as [Hda Hla].
    eexists. split; [|exact HP].
    unfold query_labels, cell. rewrite Hdates, Hlats, Hlons, Hdepths, Hd. simpl.
    rewrite Hda, Hla, Hlo, Hde. reflexivity.
  - destruct (has_columns_lookup df _ "Date" Hcols) as (dates & Hdates & Ldates);
      [set_solver|].
    destruct (has_columns_lookup df _ "Latitude" Hcols) as (lats & Hlats & Llats);
      [set_solver|].
    destruct (has_columns_lookup df _ "Longitude" Hcols) as (lons & Hlons & Llons);
      [set_solver|].
    set (rows := zip (zip dates lats) lons).
    assert (length rows = nrows df) as Lrows.
    { unfold rows. rewrite !length_zip. lia. }
    destruct (sampled_columns (sample_2d dataset)
                (fun var row x => sampled_at dataset var
                   [("time", row.1.1); ("latitude", row.1.2);
                    ("longitude", row.2)] x)
                variables rows) as (sampled & Hs & Hnames & Hall).
    { intros var [[date lat] lon] Hvar _.
      apply sample_2d_ok; auto. apply Hvars, list_elem_of_In, Hvar. }
    rewrite (traverse_ext _
               (fun var => col ← traverse (sample_2d dataset var) rows; ok (var, col))).
    2:{ intros var. rewrite (column_ok _ _ _ Hdates), bind_ret.
        rewrite (column_ok _ _ _ Hlats), bind_ret.
        rewrite (column_ok _ _ _ Hlons), bind_ret. reflexivity. }
    rewrite Hs, bind_ret.
    destruct (temporal_points_finish dataset variables df dates sampled)
      as (df' & matched & Hdf' & Hrows & Hdd & Hml & Hmt & Hv); auto.
    { eapply Forall_impl; [exact Hall|]. intros c [Hc _]. congruence. }
    exists df', dates, matched. repeat (split; [assumption|]).
    intros var Hvar Hne. destruct (Hv var Hvar Hne) as (col & Hin & Hcol).
    exists col. split; [assumption|].
    rewrite Forall_forall in Hall. destruct (Hall _ Hin) as [Hlen Hval].
    split; [simpl in Hlen; congruence|].
    intros k x Hk. destruct (Hval k x Hk) as ([[date lat] lon] & Hrow & HP).
    unfold rows in Hrow.
    apply zip_lookup in Hrow as [Hrow Hlo]. apply zip_lookup in Hrow as [Hda Hla].
    eexists. split; [|exact HP].
    unfold query_labels, cell. rewrite Hdates, Hlats, Hlons, Hd. simpl.
    rewrite Hda, Hla, Hlo. reflexivity.
Qed.

(** C6.  Whether the depth of a query is read is decided by the dataset.
    With a depth axis, sampling a variable for a table of points that has
    no "Depth" column fails: the column is looked up and the lookup
    raises.  Without a depth axis the column is never read: a table that
    has it gives the result of the table without it, the column carried
    along; and on a well-formed grid this result is a table, no error is
    raised for the depth that was supplied. *)
Theorem depth_decided_by_dataset (dataset : Dataset) (variables : list string)
    (df : DataFrame) :
  (has_depth dataset = true ->
   variables <> [] ->
   has_columns df ["Date"; "Latitude"; "Longitude"] = true ->
   columns df !! "Depth" = None ->
   temporal_points dataset variables df = raise (KeyError "Depth")) /\
  (has_depth dataset = false ->
   "Depth" ∉ variables ->
   forall depth,
     temporal_points dataset variables (with_column "Depth" depth df)
     = (df' ← temporal_points dataset variables df;
        ok (with_column "Depth" depth df'))) /\
  (has_depth dataset = false ->
   "Depth" ∉ variables ->
   well_formed dataset variables = true ->
   has_columns df ["Date"; "Latitude"; "Longitude"] = true ->
   forall depth, exists df',
     temporal_points dataset variables df = ok df' /\
     temporal_points dataset variables (with_column "Depth" depth df)
     = ok (with_column "Depth" depth df')).
Proof.
  assert (has_depth dataset = false ->
          "Depth" ∉ variables ->
          forall depth,
            temporal_points dataset variables (with_column "Depth" depth df)
            = (df' ← temporal_points dataset variables df;
               ok (with_column "Depth" depth df'))) as Hsame.
  { intros Hd Hno depth. unfold temporal_points. rewrite Hd.
    set (columns_of := fun (df : DataFrame) (var : string) =>
           date ← column df "Date";
           latitude ← column df "Latitude";
           longitude ← column df "Longitude";
           col ← traverse (sample_2d dataset var) (zip (zip date latitude) longitude);
           ok (var, col)).
    change (traverse _ variables ≫= ?k1 = (traverse _ variables ≫= ?k2) ≫= ?k3)
      with (traverse (columns_of (with_column "Depth" depth df)) variables ≫= k1
            = (traverse (columns_of df) variables ≫= k2) ≫= k3).
    rewrite (traverse_ext (columns_of (with_column "Depth" depth df)) (columns_of df)).
    2:{ intros var. unfold columns_of.
        rewrite !column_with_column by discriminate. reflexivity. }
    destruct (traverse (columns_of df) variables) as [e|sampled] eqn:Hs;
      [reflexivity|].
    assert (sampled.*1 = variables) as Hnames.
    { eapply traverse_fst; [|exact Hs]. intros var y Hy. unfold columns_of in Hy.
      repeat (apply bind_ok in Hy as (? & _ & Hy)). injection Hy as <-. reflexivity. }
    rewrite !bind_ret.
    rewrite assign_all_with_column by (rewrite Hnames; exact Hno).
    destruct (assign_all df sampled) as [e|df1]; [reflexivity|].
    rewrite !bind_ret. rewrite column_with_column by discriminate.
    destruct (column df1 "Date") as [e|dates]; [reflexivity|].
    rewrite !bind_ret.
    destruct (traverse (matched_time dataset) dates) as [e|matched]; [reflexivity|].
    rewrite !bind_ret. apply assign_with_column. discriminate. }
  split; [|split; [exact Hsame|]].
  - intros Hd Hvars Hcols Hdepth. unfold temporal_points. rewrite Hd.
    destruct variables as [|var vars]; [congruence|].
    destruct (has_columns_lookup df _ "Date" Hcols) as (dates & Hdates & _);
      [set_solver|].
    destruct (has_columns_lookup df _ "Latitude" Hcols) as (lats & Hlats & _);
      [set_solver|].
    destruct (has_columns_lookup df _ "Longitude" Hcols) as (lons & Hlons & _);
      [set_solver|].
    cbn [traverse].
    rewrite (column_ok _ _ _ Hdates), bind_ret.
    rewrite (column_ok _ _ _ Hlats), bind_ret.
    rewrite (column_ok _ _ _ Hlons), bind_ret.
    assert (column df "Depth" = raise (KeyError "Depth")) as ->.
    { unfold column. rewrite Hdepth. reflexivity. }
    reflexivity.
  - intros Hd Hno Hwf Hcols depth.
    destruct (temporal_points_succeeds dataset variables df Hwf) as [df' Hdf'].
    { unfold query_columns. rewrite Hd. exact Hcols. }
    exists df'. split; [exact Hdf'|].
    rewrite (Hsame Hd Hno depth), Hdf'. reflexivity.
Qed.

Lemma temporal_points_table_witness :
  exists df' dates matched,
    temporal_points grid_a ["uo"] points = ok df' /\
    nrows df' = nrows points /\
    columns points !! "Date" = Some dates /\
    columns df' !! "Date_dataset" = Some matched /\
    length matched = nrows points /\
    Forall2 (fun date t => exists ct i,
               coords grid_a !! "time" = Some ct /\ nearest_to ct date i /\
               ct !! i = Some t) dates matched /\
    forall var, var ∈ ["uo"] -> var <> "Date_dataset" ->
      exists col,
        columns df' !! var = Some col /\ length col = nrows points /\
        forall k x, col !! k = Some x ->
          exists labels,
            query_labels grid_a points k = Some labels /\
            sampled_at grid_a var labels x.
Proof.
  apply (temporal_points_table grid_a ["uo"] points).
  - vm_compute. reflexivity.
  - vm_compute. reflexivity.
  - intros H. apply list_elem_of_In in H. vm_compute in H.
    destruct H as [H|H]; [discriminate | exact H].
Defined.

Lemma depth_decided_by_dataset_witness :
  temporal_points grid_a ["uo"] points_no_depth = raise (KeyError "Depth") /\
  temporal_points scenario_normalized ["uo"] (with_column "Depth" [1; 7]%Q points_no_depth)
  = (df' ← temporal_points scenario_normalized ["uo"] points_no_depth;
     ok (with_column "Depth" [1; 7]%Q df')) /\
  (exists df',
     temporal_points scenario_normalized ["uo"] points_no_depth = ok df' /\
     temporal_points scenario_normalized ["uo"]
       (with_column "Depth" [1; 7]%Q points_no_depth)
     = ok (with_column "Depth" [1; 7]%Q df')).
Proof.
  assert ("Depth" ∉ ["uo"]) as Hno.
  { intros H. apply list_elem_of_In in H. vm_compute in H.
    destruct H as [H|H]; [discriminate | exact H]. }
  destruct (depth_decided_by_dataset grid_a ["uo"] points_no_depth) as (H1 & _ & _).
  destruct (depth_decided_by_dataset scenario_normalized ["uo"] points_no_depth)
    as (_ & H2 & H3).
  split; [|split].
  - apply H1.
    + vm_compute. reflexivity.
    + discriminate.
    + vm_compute. reflexivity.
    + vm_compute. reflexivity.
  - apply H2; [vm_compute; reflexivity | exact Hno].
  - apply H3; [vm_compute; reflexivity | exact Hno | vm_compute; reflexivity
              | vm_compute; reflexivity].
Defined.

(** ** The cells: the claims *)

Lemma temporal_round_spec (catalogue : string -> Result Dataset) (p : Parameters)
    (id output_name : string) (k : Kernel) :
  temporal_round catalogue p (id, output_name) k =
  match temporal_table catalogue p id with
  | inr table =>
      (mkKernel (Some id) (datset_id k) (opened k ++ [id])
                (files k ++ [(temporal_path p output_name, CsvTable table)]),
       inr tt)
  | inl e => (mkKernel (Some id) (datset_id k) (opened k ++ [id]) (files k), inl e)
  end.
Proof.
  unfold temporal_round, temporal_table, temporal_path.
  unfold mbind at 1 2 3 4 5, cell_bind. simpl.
  destruct (catalogue id) as [e|d]; [reflexivity|]. simpl.
  destruct (normalize d) as [e|d']; [reflexivity|]. simpl.
  destruct (temporal_points d' (variables p) (dataframe_coordinates p));
    reflexivity.
Qed.

Lemma for_each_cons {A} (x : A) (l : list A) (body : A -> Cell unit) (k : Kernel) :
  for_each (x :: l) body k =
  match body x k with
  | (k', inl e) => (k', inl e)
  | (k', inr _) => for_each l body k'
  end.
Proof. reflexivity. Qed.

(** Rounds that succeed: each opens its own dataset, once, and writes one
    table under its own output name. *)
Lemma temporal_rounds_ok (catalogue : string -> Result Dataset) (p : Parameters)
    (pre rest : list (string * string)) (k : Kernel) :
  Forall (fun entry => exists t, temporal_table catalogue p entry.1 = ok t) pre ->
  exists k',
    for_each (pre ++ rest) (temporal_round catalogue p) k
      = for_each rest (temporal_round catalogue p) k' /\
    opened k' = opened k ++ pre.*1 /\
    Forall2 (fun entry file =>
               exists t, temporal_table catalogue p entry.1 = ok t /\
                         file = (temporal_path p entry.2, CsvTable t))
            pre (drop (length (files k)) (files k')) /\
    take (length (files k)) (files k') = files k.
Proof.
  intros Hpre. revert k. induction Hpre as [|[id out] pre [t Ht] _ IH]; intros k.
  - exists k. simpl. rewrite app_nil_r, drop_all, firstn_all. repeat split. constructor.
  - simpl in Ht. cbn [app]. rewrite for_each_cons, temporal_round_spec, Ht.
    destruct (IH (mkKernel (Some id) (datset_id k) (opened k ++ [id])
                    (files k ++ [(temporal_path p out, CsvTable t)])))
      as (k' & Hrun & Hopened & Hfiles & Hkeep).
    simpl in *. exists k'. split; [exact Hrun|]. split.
    + rewrite Hopened, <- app_assoc. reflexivity.
    + rewrite length_app in Hfiles, Hkeep. simpl in *.
      assert (files k' = (files k ++ [(temporal_path p out, CsvTable t)])
                         ++ drop (length (files k) + 1) (files k')) as Hk'.
      { rewrite <- Hkeep at 1. symmetry. apply take_drop. }
      split.
      * rewrite Hk' at 1. rewrite <- app_assoc, drop_app_length. simpl.
        constructor; [eauto | exact Hfiles].
      * rewrite Hk'. rewrite <- app_assoc. apply take_app_length.
Qed.

(** C8, as the code has it.  The rounds of the "temporal points" cell are
    not guarded: when the table of a dataset cannot be computed, whatever
    the point or the variable at fault, the exception ends the cell.  The
    datasets before it have their tables, the failing one has none and the
    datasets after it are not even opened. *)
Theorem temporal_cell_aborts (catalogue : string -> Result Dataset) (p : Parameters)
    (pre rest : list (string * string)) (id output_name : string) (e : PyError) :
  zip (list_datasetID p) (output_names p) = pre ++ (id, output_name) :: rest ->
  Forall (fun entry => exists t, temporal_table catalogue p entry.1 = ok t) pre ->
  temporal_table catalogue p id = raise e ->
  exists k',
    temporal_cell catalogue p fresh = (k', raise e) /\
    opened k' = pre.*1 ++ [id] /\
    Forall2 (fun entry file =>
               exists t, temporal_table catalogue p entry.1 = ok t /\
                         file = (temporal_path p entry.2, CsvTable t))
            pre (files k').
Proof.
  intros Hzip Hpre Hid. unfold temporal_cell. rewrite Hzip.
  destruct (temporal_rounds_ok catalogue p pre ((id, output_name) :: rest) fresh Hpre)
    as (k1 & Hrun & Hopened & Hfiles & _).
  rewrite Hrun, for_each_cons, temporal_round_spec, Hid. unfold raise.
  eexists. split; [reflexivity|]. simpl in *.
  rewrite drop_0 in Hfiles. rewrite Hopened. auto.
Qed.

Lemma temporal_cell_aborts_witness :
  exists k',
    temporal_cell catalogue_ab parameters_absent fresh = (k', raise (KeyError "zz")) /\
    opened k' = [] ++ ["A"] /\
    Forall2 (fun entry file =>
               exists t, temporal_table catalogue_ab parameters_absent entry.1 = ok t /\
                         file = (temporal_path parameters_absent entry.2, CsvTable t))
            [] (files k').
Proof.
  apply (temporal_cell_aborts catalogue_ab parameters_absent [] [("B", "b_")] "A" "a_").
  - vm_compute. reflexivity.
  - constructor.
  - vm_compute. reflexivity.
Defined.

(** C8, as the claim has it: ten queries, one requested variable absent
    from the dataset, would give nine rows and one reported failure.  The
    cell stops at the first point sampled for the absent variable: no
    table is written, nothing is reported but the exception, and the second
    dataset is never opened. *)
Lemma temporal_cell_no_partial_result :
  nrows ten_points = 10%nat /\
  temporal_cell catalogue_ab parameters_absent fresh
  = (mkKernel (Some "A") None ["A"] [], raise (KeyError "zz")).
Proof. split; vm_compute; reflexivity. Qed.

(** In the "temporal points" cell every entry is served by its own
    dataset: when every round succeeds, the datasets opened are those of
    the list, in its order and once each, and the table written under an
    output name is the table of the dataset paired with it. *)
Lemma temporal_cell_ok (catalogue : string -> Result Dataset) (p : Parameters) :
  Forall (fun entry => exists t, temporal_table catalogue p entry.1 = ok t)
         (zip (list_datasetID p) (output_names p)) ->
  exists k',
    temporal_cell catalogue p fresh = (k', ok tt) /\
    opened k' = (zip (list_datasetID p) (output_names p)).*1 /\
    Forall2 (fun entry file =>
               exists t, temporal_table catalogue p entry.1 = ok t /\
                         file = (temporal_path p entry.2, CsvTable t))
            (zip (list_datasetID p) (output_names p)) (files k').
Proof.
  intros Hall. unfold temporal_cell.
  destruct (temporal_rounds_ok catalogue p _ [] fresh Hall)
    as (k1 & Hrun & Hopened & Hfiles & _).
  rewrite app_nil_r in Hrun. exists k1. simpl in *. rewrite drop_0 in Hfiles. auto.
Qed.

Lemma cell_bind_ok {A B} (m : Cell A) (f : A -> Cell B) (k k' : Kernel) (a : A) :
  m k = (k', inr a) -> (m ≫= f) k = f a k'.
Proof. intros H. unfold mbind, cell_bind. rewrite H. reflexivity. Qed.

Lemma write_step {A} (r : Result A) (c : A) (path : string) (content : A -> Output)
    (k : Kernel) :
  r = ok c ->
  (c ← lift r; to_csv path (content c)) k
  = (mkKernel (dataset_id k) (datset_id k) (opened k) (files k ++ [(path, content c)]),
     ok tt).
Proof. intros ->. reflexivity. Qed.

(** A loop that computes and writes one file per row. *)
Lemma for_each_write {R A} (rows : list R) (f : R -> Result A) (path : R -> string)
    (content : A -> Output) (k : Kernel) :
  Forall (fun row => exists c, f row = ok c) rows ->
  exists written,
    for_each rows (fun row => c ← lift (f row); to_csv (path row) (content c)) k
    = (mkKernel (dataset_id k) (datset_id k) (opened k) (files k ++ written), ok tt) /\
    Forall2 (fun row file => exists c, f row = ok c /\ file = (path row, content c))
            rows written.
Proof.
  intros Hrows. revert k. induction Hrows as [|row rows [c Hc] _ IH]; intros k.
  - exists []. rewrite app_nil_r. split; [destruct k; reflexivity | constructor].
  - destruct (IH (mkKernel (dataset_id k) (datset_id k) (opened k)
                    (files k ++ [(path row, content c)]))) as (written & Hrun & Hall).
    exists ((path row, content c) :: written). split.
    + rewrite for_each_cons, (write_step _ c _ _ _ Hc). unfold ok. rewrite Hrun.
      cbn [dataset_id datset_id opened files]. rewrite <- app_assoc. reflexivity.
    + constructor; eauto.
Qed.

(** The branch of the "timeseries" cell for datasets with depth: on a
    well-formed grid, the round opens the dataset that [dataset_id] is
    bound to and writes one series per point, the one that [series_3d]
    selects for it. *)
Lemma timeseries_round_3d (catalogue : string -> Result Dataset) (p : Parameters)
    (entry : string * string) (k : Kernel) (id : string) (d d' : Dataset) :
  dataset_id k = Some id -> catalogue id = ok d -> normalize d = ok d' ->
  has_depth d' = true -> well_formed d' (variables p) = true ->
  has_columns (dataframe_coordinates p)
    ["Start"; "End"; "Latitude"; "Longitude"; "Depth"] = true ->
  exists written,
    timeseries_round catalogue p entry k
    = (mkKernel (Some id) (Some entry.1) (opened k ++ [id]) (files k ++ written),
       ok tt) /\
    length written = nrows (dataframe_coordinates p) /\
    Forall (fun file => exists row point,
              series_3d d' (variables p) row = ok point /\
              file.2 = CsvSeries point) written.
Proof.
  intros Hid Hcat Hnorm Hd Hwf Hcols.
  set (df := dataframe_coordinates p) in *.
  destruct (has_columns_lookup df _ "Start" Hcols) as (starts & Hstarts & L1);
    [set_solver|].
  destruct (has_columns_lookup df _ "End" Hcols) as (stops & Hstops & L2);
    [set_solver|].
  destruct (has_columns_lookup df _ "Latitude" Hcols) as (lats & Hlats & L3);
    [set_solver|].
  destruct (has_columns_lookup df _ "Longitude" Hcols) as (lons & Hlons & L4);
    [set_solver|].
  destruct (has_columns_lookup df _ "Depth" Hcols) as (depths & Hdepths & L5);
    [set_solver|].
  set (rows := zip (zip (zip (zip (zip starts stops) lats) lons) depths)
                   (seq 0 (nrows df))).
  destruct (for_each_write rows (fun row => series_3d d' (variables p) row.1)
              (fun row => output_dir p +:+ entry.2 +:+ "point_" +:+ pretty row.2
                          +:+ ".csv")
              CsvSeries
              (mkKernel (Some id) (Some entry.1) (opened k ++ [id]) (files k)))
    as (written & Hrun & Hall).
  { apply Forall_forall. intros [[[[[start stop] lat] lon] depth] i] _.
    destruct (series_3d_ok d' (variables p) start stop lat lon depth Hd Hwf)
      as (point & _ & Hpoint & _). eauto. }
  exists written. split; [|split].
  - unfold timeseries_round.
    erewrite cell_bind_ok; [|reflexivity].
    erewrite cell_bind_ok;
      [|unfold read_dataset_id; cbn [dataset_id]; rewrite Hid; reflexivity].
    erewrite cell_bind_ok; [|unfold open_dataset; rewrite Hcat; reflexivity].
    erewrite cell_bind_ok; [|unfold lift; rewrite Hnorm; reflexivity].
    rewrite Hd. fold df.
    erewrite cell_bind_ok; [|unfold lift; rewrite (column_ok _ _ _ Hstarts); reflexivity].
    erewrite cell_bind_ok; [|unfold lift; rewrite (column_ok _ _ _ Hstops); reflexivity].
    erewrite cell_bind_ok; [|unfold lift; rewrite (column_ok _ _ _ Hlats); reflexivity].
    erewrite cell_bind_ok; [|unfold lift; rewrite (column_ok _ _ _ Hlons); reflexivity].
    erewrite cell_bind_ok; [|unfold lift; rewrite (column_ok _ _ _ Hdepths); reflexivity].
    exact Hrun.
  - rewrite <- (Forall2_length _ _ _ Hall). unfold rows.
    rewrite !length_zip, length_seq. lia.
  - apply Forall_forall. intros file Hfile.
    apply list_elem_of_lookup in Hfile as [i Hi].
    destruct (Forall2_lookup_r _ _ _ _ _ Hall Hi) as (row & _ & c & Hc & ->).
    exists row.1, c. auto.
Qed.

(** C9.  The claim fails on the code in the "timeseries" cell, whose loop
    binds [datset_id] and opens [dataset_id].  With the datasets "A" and
    "B" listed, in a kernel where the "temporal points" cell has run (it
    opened "A" then "B", and left [dataset_id] bound to "B"), both rounds
    of the "timeseries" cell open "B": the series written under the output
    name of "A" is that of "B".  In a kernel where no cell has run the
    name is unbound and the first round raises. *)
Theorem timeseries_cell_opens_stale_dataset :
  let k1 := (temporal_cell catalogue_ab parameters_ab fresh).1 in
  let k2 := (timeseries_cell catalogue_ab parameters_ab k1).1 in
  opened k1 = ["A"; "B"] /\
  dataset_id k1 = Some "B" /\
  opened k2 = ["A"; "B"; "B"; "B"] /\
  normalize grid_a = ok grid_a /\ normalize grid_b = ok grid_b /\
  (exists point,
      ("Dataframes/a_point_0.csv", CsvSeries point) ∈ files k2 /\
      series_3d grid_b ["uo"] (0, 10, 41, 6, 1)%Q = ok point /\
      series_3d grid_a ["uo"] (0, 10, 41, 6, 1)%Q <> ok point) /\
  timeseries_cell catalogue_ab parameters_ab fresh
  = (mkKernel None (Some "A") [] [], raise (NameError "dataset_id")).
Proof.
  cbv zeta.
  split; [vm_compute; reflexivity|]. split; [vm_compute; reflexivity|].
  split; [vm_compute; reflexivity|]. split; [vm_compute; reflexivity|].
  split; [vm_compute; reflexivity|]. split; [|vm_compute; reflexivity].
  exists (mkDataset (<["time" := [0; 10]%Q]> ∅)
            (<["uo" := mkDataArray ["time"] (Arr [Scalar 5012; Scalar 6012])]> ∅)).
  split; [|split].
  - apply list_elem_of_In. vm_compute. auto 10.
  - vm_compute. reflexivity.
  - vm_compute. discriminate.
Qed.

(** C4.  The claim fails on the code for a dataset without depth.  The
    selection is the one claimed (lemmas [series_3d_ok] and
    [series_2d_ok]) and the branch for datasets with depth writes it, one
    series per point (lemma [timeseries_round_3d]).  Here the selection is
    the one time step within the interval 0 to 10 for the first point, and
    an empty series for the second, whose interval 11 to 12 holds no time
    step.  The round then names the file after [row[5]], an entry that its
    rows of five do not have (the rows of the branch for datasets with
    depth have six), and raises at the first point: no series is
    written. *)
Theorem timeseries_cell_2d_raises :
  let k1 := (temporal_cell catalogue_ab parameters_2d fresh).1 in
  dataset_id k1 = Some "S" /\
  normalize scenario = ok scenario_normalized /\
  series_2d scenario_normalized ["uo"] (0, 10, 41, 6)%Q
  = ok (mkDataset (<["time" := [0]%Q]> ∅)
          (<["uo" := mkDataArray ["time"] (Arr [Scalar 4])]> ∅)) /\
  series_2d scenario_normalized ["uo"] (11, 12, 201 # 5, 1000)%Q
  = ok (mkDataset (<["time" := []]> ∅)
          (<["uo" := mkDataArray ["time"] (Arr [])]> ∅)) /\
  timeseries_cell catalogue_ab parameters_2d k1
  = (mkKernel (Some "S") (Some "S") ["S"; "S"] (files k1), raise IndexError).
Proof.
  cbv zeta. repeat split; vm_compute; reflexivity.
Qed.

(** * Further properties of the code *)

(** ** [sort_dimension] *)

Lemma ok_inj {A} (a b : A) : ok a = ok b -> a = b.
Proof. intros [= ->]. reflexivity. Qed.

Lemma sort_dimension_unfold (dataset : Dataset) (dim_name : string) (c0 : Q) (c : list Q) :
  coords dataset !! dim_name = Some (c0 :: c) ->
  sort_dimension dataset dim_name
  = if forallb (fun x => Qle_bool x c0) (removelast (c0 :: c))
    then sortby dataset dim_name else ok dataset.
Proof.
  intros Hc. unfold sort_dimension. rewrite Hc. cbn [from_option].
  rewrite bind_ret. reflexivity.
Qed.

Lemma sortby_unfold (dataset : Dataset) (dim_name : string) (c : list Q) :
  coords dataset !! dim_name = Some c ->
  sortby dataset dim_name
  = ok (mkDataset (<[dim_name := (sort_keys (enumerate c)).*1]> (coords dataset))
                  (isel_var dim_name (lexsort c) <$> data_vars dataset)).
Proof.
  intros Hc. unfold sortby. rewrite Hc. cbn [from_option]. rewrite bind_ret.
  rewrite sorted_values. reflexivity.
Qed.

Lemma sorted_axis_ascending (c : list Q) : ascending (sort_keys (enumerate c)).*1.
Proof. apply monotonic_increasing_sorted, sorted_is_monotonic, sort_keys_sorted. Qed.

Lemma sorted_axis_perm (c : list Q) : (sort_keys (enumerate c)).*1 ≡ₚ c.
Proof.
  rewrite sort_keys_perm. unfold enumerate. rewrite enumerate_from_fst. reflexivity.
Qed.

Lemma forallb_Qle (c0 : Q) (l : list Q) :
  forallb (fun x => Qle_bool x c0) l = true <-> Forall (fun x => (x <= c0)%Q) l.
Proof.
  induction l as [|x l IH]; simpl.
  - split; [constructor | reflexivity].
  - rewrite andb_true_iff, IH, Qle_bool_iff, Forall_cons. reflexivity.
Qed.

Lemma first_is_largest_test (c0 : Q) (c : list Q) :
  forallb (fun x => Qle_bool x c0) (removelast (c0 :: c)) = true
  <-> first_is_largest (c0 :: c).
Proof. unfold first_is_largest. apply forallb_Qle. Qed.

Lemma ascending_Sorted (c : list Q) : ascending c -> Sorted Qle c.
Proof. apply StronglySorted_Sorted. Qed.

(** X1.  What [sort_dimension] achieves: the axis it returns holds the
    coordinate values it was given, and it is in ascending order exactly
    when the given axis was already ascending or its first entry is at
    least every entry but the last (the test of the [if]). *)
Theorem sort_dimension_ascending_iff (dataset dataset' : Dataset) (dim_name : string)
    (c : list Q) :
  coords dataset !! dim_name = Some c ->
  sort_dimension dataset dim_name = ok dataset' ->
  exists c', coords dataset' !! dim_name = Some c' /\ c' ≡ₚ c /\
             (ascending c' <-> ascending c \/ first_is_largest c).
Proof.
  intros Hc Hsort. destruct c as [|c0 c].
  { unfold sort_dimension in Hsort. rewrite Hc in Hsort. discriminate. }
  rewrite (sort_dimension_unfold _ _ _ _ Hc) in Hsort.
  destruct (forallb _ _) eqn:Htest.
  - rewrite (sortby_unfold _ _ _ Hc) in Hsort. apply ok_inj in Hsort; subst dataset'.
    eexists. split; [apply lookup_insert_eq|]. split; [apply sorted_axis_perm|].
    split; [intros _; right; apply first_is_largest_test, Htest|].
    intros _. apply sorted_axis_ascending.
  - apply ok_inj in Hsort; subst dataset'. exists (c0 :: c). split; [exact Hc|]. split; [reflexivity|].
    split; [auto|]. intros [H|H]; [exact H|].
    apply first_is_largest_test in H. congruence.
Qed.

Lemma sort_dimension_ascending_iff_witness :
  exists c', coords zigzag !! "latitude" = Some c' /\ c' ≡ₚ [2; 3; 1]%Q /\
             (ascending c' <-> ascending [2; 3; 1]%Q \/ first_is_largest [2; 3; 1]%Q).
Proof.
  apply (sort_dimension_ascending_iff zigzag zigzag "latitude"); vm_compute; reflexivity.
Defined.

Lemma strictly_ascending_perm_eq (l1 l2 : list Q) :
  strictly_ascending l1 -> strictly_ascending l2 -> l1 ≡ₚ l2 -> l1 = l2.
Proof.
  revert l2. induction l1 as [|a l1 IH]; intros l2 H1 H2 Hp.
  - apply Permutation_nil_l in Hp. congruence.
  - destruct l2 as [|b l2]; [apply Permutation_nil_r in Hp; discriminate|].
    apply StronglySorted_inv in H1 as [H1 Ha]. apply StronglySorted_inv in H2 as [H2 Hb].
    assert (a = b) as ->.
    { assert (a ∈ b :: l2) as Hin1 by (rewrite <- Hp; left).
      assert (b ∈ a :: l1) as Hin2 by (rewrite Hp; left).
      apply elem_of_cons in Hin1 as [?|Hin1]; [assumption|].
      apply elem_of_cons in Hin2 as [?|Hin2]; [congruence|].
      rewrite Forall_forall in Ha, Hb.
      pose proof (Ha _ Hin2). pose proof (Hb _ Hin1). lra. }
    f_equal. apply IH; [assumption..|]. eapply Permutation_cons_inv, Hp.
Qed.

Lemma strictly_descending_reverse (c : list Q) :
  strictly_descending c -> strictly_ascending (reverse c).
Proof.
  induction 1 as [|a c Hc IH Ha]; [constructor|].
  rewrite reverse_cons. clear Hc. revert IH Ha.
  unfold strictly_ascending. generalize (reverse c) (Forall_reverse (fun y => (y < a)%Q) c).
  intros l Hl IH Ha. apply Hl in Ha. clear Hl.
  induction l as [|x l IHl]; simpl.
  - repeat constructor.
  - apply StronglySorted_inv in IH as [IH Hx]. apply Forall_cons in Ha as [Hxa Ha].
    constructor; [auto|]. apply Forall_app. split; [exact Hx|]. repeat constructor. exact Hxa.
Qed.

(** X2.  An axis stored in strictly descending order (latitude from north
    to south) is returned reversed, and every value of the dataset stays
    at its coordinates. *)
Theorem sort_dimension_reverses_descending (dataset : Dataset) (dim_name : string)
    (c : list Q) :
  consistent dataset ->
  coords dataset !! dim_name = Some c ->
  strictly_descending c ->
  c <> [] ->
  exists dataset',
    sort_dimension dataset dim_name = ok dataset' /\
    coords dataset' !! dim_name = Some (reverse c) /\
    strictly_ascending (reverse c) /\
    forall var point x,
      value_at dataset' var point = Some x <-> value_at dataset var point = Some x.
Proof.
  intros Hcons Hc Hdesc Hne. destruct c as [|c0 c]; [congruence|]. clear Hne.
  destruct (descending_passes_test c0 c Hdesc) as [Htest Hu].
  rewrite (sort_dimension_unfold _ _ _ _ Hc), Htest.
  pose proof (sortby_unfold _ _ _ Hc) as Hsort. eexists. split; [exact Hsort|].
  pose proof (strictly_descending_reverse _ Hdesc) as Hrev.
  assert ((sort_keys (enumerate (c0 :: c))).*1 = reverse (c0 :: c)) as Heq.
  { apply strictly_ascending_perm_eq; [|exact Hrev|].
    - apply ascending_of_checks.
      + rewrite <- sorted_values. apply is_unique_sorted, Hu.
      + apply sorted_is_monotonic, sort_keys_sorted.
    - rewrite sorted_axis_perm. symmetry. apply reverse_Permutation. }
  split; [cbn [coords]; rewrite lookup_insert_eq, Heq; reflexivity|].
  split; [exact Hrev|].
  intros var point x. split.
  - intros Hx.
    destruct (sortby_defined _ _ _ var point Hcons Hsort) as [y Hy]; [eauto|].
    pose proof (sortby_value_at _ _ _ _ _ _ _ Hcons Hc Hu Hsort Hy). congruence.
  - eapply sortby_value_at; eauto.
Qed.

Lemma sort_dimension_reverses_descending_witness :
  exists dataset',
    sort_dimension scenario "latitude" = ok dataset' /\
    coords dataset' !! "latitude" = Some (reverse [42; 41; 40]%Q) /\
    strictly_ascending (reverse [42; 41; 40]%Q) /\
    forall var point x,
      value_at dataset' var point = Some x <-> value_at scenario var point = Some x.
Proof.
  apply (sort_dimension_reverses_descending scenario "latitude").
  - apply (bool_decide_unpack _). vm_compute. exact I.
  - vm_compute. reflexivity.
  - repeat constructor.
  - discriminate.
Defined.

Lemma sort_dimension_twice (dataset dataset' : Dataset) (dim_name : string) :
  consistent dataset ->
  sort_dimension dataset dim_name = ok dataset' ->
  sort_dimension dataset' dim_name = ok dataset'.
Proof.
  intros Hcons Hsort.
  destruct (coords dataset !! dim_name) as [[|c0 c]|] eqn:Hc;
    [unfold sort_dimension in Hsort; rewrite Hc in Hsort; discriminate| |
     unfold sort_dimension in Hsort; rewrite Hc in Hsort; discriminate].
  pose proof Hsort as Hsort0.
  rewrite (sort_dimension_unfold _ _ _ _ Hc) in Hsort.
  destruct (forallb _ _) eqn:Htest; [|apply ok_inj in Hsort; subst dataset'; exact Hsort0].
  pose proof (sortby_consistent _ _ _ Hcons Hsort) as Hcons'.
  rewrite (sortby_unfold _ _ _ Hc) in Hsort.
  assert (coords dataset' !! dim_name = Some (sort_keys (enumerate (c0 :: c))).*1) as Hc'.
  { apply ok_inj in Hsort; subst dataset'. apply lookup_insert_eq. }
  destruct ((sort_keys (enumerate (c0 :: c))).*1) as [|s0 s] eqn:Hs.
  { pose proof (sorted_axis_perm (c0 :: c)) as Hp. rewrite Hs in Hp.
    apply Permutation_nil_l in Hp. discriminate. }
  rewrite (sort_dimension_unfold _ _ _ _ Hc').
  destruct (forallb _ (removelast (s0 :: s))); [|reflexivity].
  eapply sortby_sorted_id; [exact Hcons'|exact Hc'|].
  rewrite <- Hs. apply ascending_Sorted, sorted_axis_ascending.
Qed.

Lemma sort_dimension_inv (dataset dataset' : Dataset) (dim_name : string) :
  sort_dimension dataset dim_name = ok dataset' ->
  exists c0 c,
    coords dataset !! dim_name = Some (c0 :: c) /\
    (dataset' = dataset \/ sortby dataset dim_name = ok dataset').
Proof.
  intros Hsort.
  destruct (coords dataset !! dim_name) as [[|c0 c]|] eqn:Hc;
    [unfold sort_dimension in Hsort; rewrite Hc in Hsort; discriminate| |
     unfold sort_dimension in Hsort; rewrite Hc in Hsort; discriminate].
  exists c0, c. split; [reflexivity|].
  rewrite (sort_dimension_unfold _ _ _ _ Hc) in Hsort.
  destruct (forallb _ _); [right; exact Hsort|].
  left. apply ok_inj in Hsort. congruence.
Qed.

Lemma sort_dimension_consistent (dataset dataset' : Dataset) (dim_name : string) :
  consistent dataset -> sort_dimension dataset dim_name = ok dataset' ->
  consistent dataset'.
Proof.
  intros Hcons Hsort. apply sort_dimension_inv in Hsort as (c0 & c & _ & [->|Hsort]);
    eauto using sortby_consistent.
Qed.

(** X3.  Sorting keeps a dataset consistent and is idempotent: what
    [sort_dimension] returns, it returns unchanged when applied again,
    whether the first call sorted or not. *)
Theorem sort_dimension_idempotent (dataset dataset' : Dataset) (dim_name : string) :
  consistent dataset ->
  sort_dimension dataset dim_name = ok dataset' ->
  consistent dataset' /\ sort_dimension dataset' dim_name = ok dataset'.
Proof.
  intros Hcons Hsort. split.
  - eapply sort_dimension_consistent; eauto.
  - eapply sort_dimension_twice; eauto.
Qed.

Lemma sort_dimension_idempotent_witness :
  consistent scenario_normalized /\
  sort_dimension scenario_normalized "latitude" = ok scenario_normalized.
Proof.
  apply (sort_dimension_idempotent scenario).
  - apply (bool_decide_unpack _). vm_compute. exact I.
  - vm_compute. reflexivity.
Defined.

Lemma isel_var_dims (d : string) (p : list nat) (v : DataArray) :
  dims (isel_var d p v) = dims v.
Proof. unfold isel_var. destruct (axis_of d (dims v)); reflexivity. Qed.

Lemma axis_of_not_in (d : string) (ds : list string) : d ∉ ds -> axis_of d ds = None.
Proof.
  induction ds as [|d' ds IH]; [reflexivity|]. intros Hd. simpl.
  destruct (String.eqb_spec d d') as [->|Hne]; [exfalso; apply Hd; left|].
  rewrite IH; [reflexivity|]. intros H. apply Hd. right. exact H.
Qed.

(** X4.  What [sort_dimension] leaves alone: the other axes, the names
    and the dimensions of the variables, and every variable that does not
    have the dimension. *)
Theorem sort_dimension_frame (dataset dataset' : Dataset) (dim_name : string) :
  sort_dimension dataset dim_name = ok dataset' ->
  (forall d, d <> dim_name -> coords dataset' !! d = coords dataset !! d) /\
  (forall var, dims <$> data_vars dataset' !! var = dims <$> data_vars dataset !! var) /\
  (forall var v, data_vars dataset !! var = Some v -> dim_name ∉ dims v ->
     data_vars dataset' !! var = Some v).
Proof.
  intros Hsort.
  destruct (coords dataset !! dim_name) as [[|c0 c]|] eqn:Hc;
    [unfold sort_dimension in Hsort; rewrite Hc in Hsort; discriminate| |
     unfold sort_dimension in Hsort; rewrite Hc in Hsort; discriminate].
  rewrite (sort_dimension_unfold _ _ _ _ Hc) in Hsort.
  destruct (forallb _ _); [|apply ok_inj in Hsort; subst dataset'; auto].
  rewrite (sortby_unfold _ _ _ Hc) in Hsort. apply ok_inj in Hsort; subst dataset'.
  cbn [coords data_vars]. split; [|split].
  - intros d Hd. apply lookup_insert_ne. congruence.
  - intros var. rewrite lookup_fmap.
    destruct (data_vars dataset !! var) as [v|]; simpl; [|reflexivity].
    rewrite isel_var_dims. reflexivity.
  - intros var v Hv Hd. rewrite lookup_fmap, Hv. simpl. unfold isel_var.
    rewrite axis_of_not_in by assumption. reflexivity.
Qed.

Lemma sort_dimension_frame_witness :
  (forall d, d <> "latitude" ->
     coords scenario_normalized !! d = coords scenario !! d) /\
  (forall var, dims <$> data_vars scenario_normalized !! var
               = dims <$> data_vars scenario !! var) /\
  (forall var v, data_vars scenario !! var = Some v -> "latitude" ∉ dims v ->
     data_vars scenario_normalized !! var = Some v).
Proof.
  apply (sort_dimension_frame scenario scenario_normalized "latitude").
  vm_compute. reflexivity.
Defined.

(** ** The renaming loop *)

Lemma bind_ok_r {A} (m : Result A) : (m ≫= ok) = m.
Proof. destruct m; reflexivity. Qed.

Lemma fold_loop_app {A S} (f : S -> A -> Result S) (s : S) (l1 l2 : list A) :
  fold_loop f s (l1 ++ l2) = (s' ← fold_loop f s l1; fold_loop f s' l2).
Proof.
  revert s. induction l1 as [|a l1 IH]; intros s; simpl; [reflexivity|].
  destruct (f s a) as [e|s1]; simpl; [reflexivity|]. apply IH.
Qed.

Lemma rename_step_lon (dataset : Dataset) :
  rename_step dataset "lon" = rename dataset "lon" "longitude".
Proof. unfold rename_step. simpl. apply bind_ok_r. Qed.

Lemma rename_step_lat (dataset : Dataset) :
  rename_step dataset "lat" = rename dataset "lat" "latitude".
Proof. unfold rename_step. simpl. reflexivity. Qed.

Lemma rename_step_other (dataset : Dataset) (coordinate : string) :
  coordinate <> "lon" -> coordinate <> "lat" -> rename_step dataset coordinate = ok dataset.
Proof.
  intros H1 H2. unfold rename_step.
  apply String.eqb_neq in H1, H2. rewrite H1, H2. reflexivity.
Qed.

Lemma rename_loop_skip (dataset : Dataset) (l : list string) :
  "lon" ∉ l -> "lat" ∉ l -> fold_loop rename_step dataset l = ok dataset.
Proof.
  induction l as [|a l IH]; intros H1 H2; simpl; [reflexivity|].
  rewrite rename_step_other, bind_ret.
  - apply IH; intros H; [apply H1 | apply H2]; right; exact H.
  - intros ->. apply H1. left.
  - intros ->. apply H2. left.
Qed.

(** The loop over a list of names in which [a] occurs once. *)
Lemma rename_loop_one (dataset : Dataset) (l : list string) (a b : string) :
  NoDup l -> a ∈ l -> b ∉ l ->
  (a = "lon" /\ b = "lat" \/ a = "lat" /\ b = "lon") ->
  fold_loop rename_step dataset l = rename_step dataset a.
Proof.
  intros Hnd Ha Hb Hab. apply list_elem_of_split in Ha as (l1 & l2 & ->).
  apply NoDup_app in Hnd as (_ & Hdis & Hnd2). apply NoDup_cons in Hnd2 as [Ha2 _].
  assert (a ∉ l1) as Ha1 by (intros H; apply (Hdis _ H); left).
  assert ((b ∉ l1) /\ (b ∉ l2)) as [Hb1 Hb2].
  { split; intros H; apply Hb; apply elem_of_app; [left | right; right]; exact H. }
  rewrite fold_loop_app.
  assert (forall d l, a ∉ l -> b ∉ l -> fold_loop rename_step d l = ok d) as Hskip.
  { intros d l Hal Hbl. destruct Hab as [[-> ->]|[-> ->]]; apply rename_loop_skip; assumption. }
  rewrite Hskip, bind_ret by assumption. simpl.
  destruct (rename_step dataset a) as [e|d]; [reflexivity|]. simpl.
  apply Hskip; assumption.
Qed.

Lemma rename_loop_two (dataset : Dataset) (l : list string) (a b : string) :
  NoDup l -> a ∈ l -> b ∈ l -> a <> b ->
  (a = "lon" /\ b = "lat" \/ a = "lat" /\ b = "lon") ->
  fold_loop rename_step dataset l = (d ← rename_step dataset a; rename_step d b)
  \/ fold_loop rename_step dataset l = (d ← rename_step dataset b; rename_step d a).
Proof.
  intros Hnd Ha Hb Hne Hab.
  assert (forall x y l d, NoDup (x :: l) -> y ∈ l ->
            (x = "lon" /\ y = "lat" \/ x = "lat" /\ y = "lon") ->
            fold_loop rename_step d (x :: l) = (d' ← rename_step d x; rename_step d' y))
    as Hhead.
  { intros x y l' d Hnd' Hy Hxy. simpl. apply NoDup_cons in Hnd' as [Hx Hnd'].
    destruct (rename_step d x) as [e|d']; [reflexivity|]. simpl.
    apply rename_loop_one with (b := x); auto. tauto. }
  apply list_elem_of_split in Ha as (l1 & l2 & ->).
  apply elem_of_app in Hb as [Hb|Hb].
  - right. apply list_elem_of_split in Hb as (l3 & l4 & ->).
    rewrite <- app_assoc. simpl. rewrite <- app_assoc in Hnd. simpl in Hnd.
    apply NoDup_app in Hnd as (_ & Hdis & Hnd).
    pose proof Hnd as Hnd0. apply NoDup_cons in Hnd0 as [Hb4 _].
    rewrite fold_loop_app.
    rewrite rename_loop_skip, bind_ret.
    + apply Hhead; [exact Hnd| |tauto]. apply elem_of_app. right. left.
    + intros H. destruct Hab as [[-> ->]|[-> ->]].
      * apply (Hdis _ H). right. apply elem_of_app. right. left.
      * apply (Hdis _ H). left.
    + intros H. destruct Hab as [[-> ->]|[-> ->]].
      * apply (Hdis _ H). left.
      * apply (Hdis _ H). right. apply elem_of_app. right. left.
  - left. apply elem_of_cons in Hb as [Hb|Hb]; [congruence|].
    apply NoDup_app in Hnd as (_ & Hdis & Hnd).
    rewrite fold_loop_app. rewrite rename_loop_skip, bind_ret.
    + apply Hhead; assumption.
    + intros H. destruct Hab as [[-> ->]|[-> ->]].
      * apply (Hdis _ H). left.
      * apply (Hdis _ H). right. exact Hb.
    + intros H. destruct Hab as [[-> ->]|[-> ->]].
      * apply (Hdis _ H). right. exact Hb.
      * apply (Hdis _ H). left.
Qed.

Lemma rename_unfold (dataset : Dataset) (old new : string) (c : list Q) :
  coords dataset !! old = Some c ->
  rename dataset old new
  = if bool_decide (name_taken dataset new) then raise ValueError
    else ok (mkDataset
               (<[new := c]> (delete old (coords dataset)))
               ((fun v => mkDataArray (rename_dim old new <$> dims v) (values v))
                  <$> data_vars dataset)).
Proof.
  intros Hc. unfold rename, name_taken. rewrite Hc.
  destruct (bool_decide (is_Some (coords dataset !! new))) eqn:H1;
    destruct (bool_decide (is_Some (data_vars dataset !! new))) eqn:H2; simpl;
    [rewrite bool_decide_eq_true_2; [reflexivity|]..|rewrite bool_decide_eq_false_2; [reflexivity|]].
  - left. apply bool_decide_eq_true in H1. exact H1.
  - left. apply bool_decide_eq_true in H1. exact H1.
  - right. apply bool_decide_eq_true in H2. exact H2.
  - apply bool_decide_eq_false in H1, H2. tauto.
Qed.

Lemma rename_dim_comm (a a' b b' d : string) :
  a <> b -> a <> b' -> b <> a' ->
  rename_dim a a' (rename_dim b b' d) = rename_dim b b' (rename_dim a a' d).
Proof.
  intros H1 H2 H3. unfold rename_dim.
  destruct (String.eqb_spec d b); destruct (String.eqb_spec d a);
  repeat match goal with
         | |- context [String.eqb ?x ?y] => destruct (String.eqb_spec x y)
         end; congruence.
Qed.

(** Two renamings of distinct coordinates to distinct new names commute,
    failures included. *)
Lemma rename_comm (dataset : Dataset) (a a' b b' : string) :
  a <> b -> a <> b' -> b <> a' -> a' <> b' ->
  is_Some (coords dataset !! a) -> is_Some (coords dataset !! b) ->
  (d ← rename dataset a a'; rename d b b') = (d ← rename dataset b b'; rename d a a').
Proof.
  intros Hab Hab' Hba' Ha'b' [ca Ha] [cb Hb].
  assert (forall (x x' y y' : string) cx cy, x <> y -> x <> y' -> y <> x' -> x' <> y' ->
            coords dataset !! x = Some cx -> coords dataset !! y = Some cy ->
            (d ← rename dataset x x'; rename d y y')
            = if bool_decide (name_taken dataset x') || bool_decide (name_taken dataset y')
              then raise ValueError
              else ok (mkDataset
                         (<[y' := cy]> (delete y (<[x' := cx]> (delete x (coords dataset)))))
                         ((fun v => mkDataArray (rename_dim y y' <$> (rename_dim x x' <$> dims v))
                                                (values v))
                            <$> data_vars dataset))) as Hseq.
  { intros x x' y y' cx cy Hxy Hxy' Hyx' Hx'y' Hx Hy.
    rewrite (rename_unfold _ _ _ _ Hx).
    destruct (bool_decide (name_taken dataset x')) eqn:Hx'; [reflexivity|].
    rewrite bind_ret. simpl.
    erewrite rename_unfold;
      [|cbn [coords]; rewrite lookup_insert_ne, lookup_delete_ne by congruence; exact Hy].
    assert (bool_decide (name_taken
              {| coords := <[x':=cx]> (delete x (coords dataset));
                 data_vars := (fun v => mkDataArray (rename_dim x x' <$> dims v) (values v))
                                <$> data_vars dataset |} y')
            = bool_decide (name_taken dataset y')) as ->.
    { apply bool_decide_ext. unfold name_taken. cbn [coords data_vars].
      rewrite lookup_insert_ne, lookup_fmap, fmap_is_Some by congruence.
      destruct (decide (x = y')) as [->|Hne].
      - rewrite lookup_delete_eq. rewrite Hx. split; [|intros _].
        + intros [[? [=]]|?]; left; eauto.
        + exfalso. congruence.
      - rewrite lookup_delete_ne by congruence. reflexivity. }
    destruct (bool_decide (name_taken dataset y')); [reflexivity|].
    cbn [coords data_vars]. rewrite <- map_fmap_compose. reflexivity. }
  rewrite (Hseq a a' b b' ca cb), (Hseq b b' a a' cb ca) by congruence.
  rewrite (orb_comm (bool_decide (name_taken dataset b'))).
  destruct (_ || _); [reflexivity|]. f_equal. f_equal.
  - apply map_eq. intros d.
    destruct (decide (d = a')) as [->|Hda'];
      [rewrite lookup_insert_eq, lookup_insert_ne, lookup_delete_ne, lookup_insert_eq by congruence;
       reflexivity|].
    destruct (decide (d = b')) as [->|Hdb'];
      [rewrite lookup_insert_eq, lookup_insert_ne, lookup_delete_ne, lookup_insert_eq by congruence;
       reflexivity|].
    rewrite !lookup_insert_ne by congruence.
    destruct (decide (d = a)) as [->|Hda];
      [rewrite lookup_delete_eq, lookup_delete_ne, lookup_insert_ne, lookup_delete_eq by congruence;
       reflexivity|].
    destruct (decide (d = b)) as [->|Hdb];
      [rewrite lookup_delete_eq, lookup_delete_ne, lookup_insert_ne, lookup_delete_eq by congruence;
       reflexivity|].
    rewrite !lookup_delete_ne, !lookup_insert_ne, !lookup_delete_ne by congruence. reflexivity.
  - apply map_fmap_ext. intros var v _. f_equal.
    rewrite <- !list_fmap_compose. apply list_fmap_ext. intros i d _. simpl.
    apply rename_dim_comm; congruence.
Qed.

Lemma rename_keeps_other (dataset dataset' : Dataset) (old new d : string) :
  rename dataset old new = ok dataset' -> d <> old -> d <> new ->
  coords dataset' !! d = coords dataset !! d.
Proof.
  intros Hren H1 H2. unfold rename in Hren.
  destruct (coords dataset !! old) as [c|]; [|discriminate].
  destruct (_ || _); [discriminate|]. apply ok_inj in Hren. subst dataset'.
  cbn [coords]. rewrite lookup_insert_ne, lookup_delete_ne by congruence. reflexivity.
Qed.

Lemma rename_if_present_Some (dataset : Dataset) (old new : string) :
  is_Some (coords dataset !! old) ->
  rename_if_present old new dataset = rename dataset old new.
Proof. intros H. unfold rename_if_present. rewrite bool_decide_eq_true_2; auto. Qed.

Lemma rename_if_present_None (dataset : Dataset) (old new : string) :
  ~ is_Some (coords dataset !! old) ->
  rename_if_present old new dataset = ok dataset.
Proof. intros H. unfold rename_if_present. rewrite bool_decide_eq_false_2; auto. Qed.

(** The loop does what two renamings in a fixed order do, whatever the
    order in which the coordinates are visited. *)
Lemma rename_axes_unfold (dataset : Dataset) :
  rename_axes dataset
  = (d ← rename_if_present "lon" "longitude" dataset;
     rename_if_present "lat" "latitude" d).
Proof.
  unfold rename_axes.
  set (keys := (map_to_list (coords dataset)).*1).
  assert (NoDup keys) as Hnd by apply NoDup_fst_map_to_list.
  assert (forall k, k ∈ keys <-> is_Some (coords dataset !! k)) as Hkeys.
  { intros k. unfold keys. rewrite list_elem_of_fmap. split.
    - intros ([k' c] & -> & H). apply elem_of_map_to_list in H. eauto.
    - intros [c H]. exists (k, c). split; [reflexivity|]. apply elem_of_map_to_list, H. }
  destruct (decide ("lon" ∈ keys)) as [Hlon|Hlon];
    destruct (decide ("lat" ∈ keys)) as [Hla|Hla].
  - rewrite (rename_if_present_Some dataset "lon") by (apply Hkeys, Hlon).
    assert ((d ← rename dataset "lon" "longitude"; rename_if_present "lat" "latitude" d)
            = (d ← rename dataset "lon" "longitude"; rename d "lat" "latitude")) as ->.
    { destruct (rename dataset "lon" "longitude") as [e|d] eqn:Hren; [reflexivity|].
      simpl. apply rename_if_present_Some.
      rewrite (rename_keeps_other _ _ _ _ _ Hren) by discriminate. apply Hkeys, Hla. }
    destruct (rename_loop_two dataset keys "lon" "lat") as [->| ->];
      [auto; try discriminate..| |].
    + rewrite rename_step_lon.
      destruct (rename dataset "lon" "longitude"); [reflexivity|]. simpl.
      apply rename_step_lat.
    + rewrite rename_step_lat.
      rewrite (rename_comm dataset "lon" "longitude" "lat" "latitude");
        [|discriminate..|apply Hkeys, Hlon|apply Hkeys, Hla].
      destruct (rename dataset "lat" "latitude"); [reflexivity|]. simpl.
      apply rename_step_lon.
  - rewrite (rename_if_present_Some dataset "lon") by (apply Hkeys, Hlon).
    rewrite (rename_loop_one dataset keys "lon" "lat") by auto.
    rewrite rename_step_lon.
    destruct (rename dataset "lon" "longitude") as [e|d] eqn:Hren; [reflexivity|].
    simpl. symmetry. apply rename_if_present_None.
    rewrite (rename_keeps_other _ _ _ _ _ Hren) by discriminate.
    intros H. apply Hla, Hkeys, H.
  - rewrite (rename_if_present_None dataset "lon") by (intros H; apply Hlon, Hkeys, H).
    rewrite bind_ret.
    rewrite (rename_if_present_Some dataset "lat") by (apply Hkeys, Hla).
    rewrite (rename_loop_one dataset keys "lat" "lon") by auto.
    apply rename_step_lat.
  - rewrite (rename_if_present_None dataset "lon") by (intros H; apply Hlon, Hkeys, H).
    rewrite bind_ret.
    rewrite (rename_if_present_None dataset "lat") by (intros H; apply Hla, Hkeys, H).
    apply rename_loop_skip; assumption.
Qed.

Lemma canonical_name_unfold (d : string) :
  canonical_name d = rename_dim "lat" "latitude" (rename_dim "lon" "longitude" d).
Proof.
  unfold canonical_name, rename_dim.
  destruct (String.eqb_spec d "lon") as [->|]; [reflexivity|]. reflexivity.
Qed.

Lemma rename_if_present_spec (dataset dataset' : Dataset) (old new : string) :
  old <> new ->
  rename_if_present old new dataset = ok dataset' ->
  coords dataset' !! old = None /\
  (forall d c, coords dataset !! d = Some c ->
     coords dataset' !! rename_dim old new d = Some c) /\
  (forall d, d <> old -> d <> new -> coords dataset' !! d = coords dataset !! d) /\
  (forall var v, data_vars dataset !! var = Some v ->
     Forall (fun d => is_Some (coords dataset !! d)) (dims v) ->
     data_vars dataset' !! var
     = Some (mkDataArray (rename_dim old new <$> dims v) (values v))) /\
  (forall var, data_vars dataset' !! var = None <-> data_vars dataset !! var = None).
Proof.
  intros Hne H. unfold rename_if_present in H.
  destruct (bool_decide (is_Some (coords dataset !! old))) eqn:Hold.
  - apply bool_decide_eq_true in Hold as [c Hold].
    rewrite (rename_unfold _ _ _ _ Hold) in H.
    destruct (bool_decide (name_taken dataset new)) eqn:Hnew; [discriminate|].
    apply ok_inj in H. subst dataset'. cbn [coords data_vars].
    split; [|split; [|split; [|split]]].
    + rewrite lookup_insert_ne, lookup_delete_eq by congruence. reflexivity.
    + intros d c0 Hd. unfold rename_dim.
      destruct (String.eqb_spec d old) as [->|Hd'].
      * rewrite lookup_insert_eq. congruence.
      * apply bool_decide_eq_false in Hnew.
        rewrite lookup_insert_ne, lookup_delete_ne by (try congruence; intros <-;
          apply Hnew; left; eauto). exact Hd.
    + intros d H1 H2. rewrite lookup_insert_ne, lookup_delete_ne by congruence. reflexivity.
    + intros var v Hv _. rewrite lookup_fmap, Hv. reflexivity.
    + intros var. rewrite lookup_fmap, fmap_None. reflexivity.
  - apply bool_decide_eq_false in Hold. apply ok_inj in H. subst dataset'.
    assert (coords dataset !! old = None) as Hnone.
    { destruct (coords dataset !! old); [exfalso; eauto|reflexivity]. }
    split; [exact Hnone|]. split; [|split; [|split]].
    + intros d c Hd. unfold rename_dim.
      destruct (String.eqb_spec d old) as [->|]; [congruence|exact Hd].
    + reflexivity.
    + intros var v Hv Hdims. rewrite Hv. f_equal.
      destruct v as [ds a]. simpl in *. f_equal. clear Hv.
      induction Hdims as [|d ds Hd Hds IH]; [reflexivity|]. rewrite fmap_cons, <- IH.
      f_equal. unfold rename_dim.
      destruct (String.eqb_spec d old) as [->|]; [|reflexivity].
      rewrite Hnone in Hd. destruct Hd. discriminate.
    + reflexivity.
Qed.

Lemma rename_if_present_back (dataset dataset' : Dataset) (old new name : string)
    (c : list Q) :
  rename_if_present old new dataset = ok dataset' ->
  coords dataset' !! name = Some c ->
  exists d, coords dataset !! d = Some c /\ rename_dim old new d = name.
Proof.
  intros H Hn. unfold rename_if_present in H.
  destruct (bool_decide (is_Some (coords dataset !! old))) eqn:Hold.
  - apply bool_decide_eq_true in Hold as [c0 Hold].
    rewrite (rename_unfold _ _ _ _ Hold) in H.
    destruct (bool_decide (name_taken dataset new)); [discriminate|].
    apply ok_inj in H. subst dataset'. cbn [coords] in Hn.
    destruct (decide (name = new)) as [->|Hne].
    + rewrite lookup_insert_eq in Hn. exists old. split; [congruence|].
      unfold rename_dim. rewrite String.eqb_refl. reflexivity.
    + rewrite lookup_insert_ne in Hn by congruence.
      apply lookup_delete_Some in Hn as [Hno Hn]. exists name. split; [exact Hn|].
      unfold rename_dim. destruct (String.eqb_spec name old); [congruence|reflexivity].
  - apply bool_decide_eq_false in Hold. apply ok_inj in H. subst dataset'.
    exists name. split; [exact Hn|]. unfold rename_dim.
    destruct (String.eqb_spec name old) as [->|]; [|reflexivity].
    exfalso. apply Hold. eauto.
Qed.

Lemma rename_axes_back (dataset dataset' : Dataset) (name : string) (c : list Q) :
  rename_axes dataset = ok dataset' ->
  coords dataset' !! name = Some c ->
  exists d, coords dataset !! d = Some c /\ canonical_name d = name.
Proof.
  rewrite rename_axes_unfold. intros H Hn. apply bind_ok in H as (d1 & H1 & H2).
  destruct (rename_if_present_back _ _ _ _ _ _ H2 Hn) as (n1 & Hn1 & E1).
  destruct (rename_if_present_back _ _ _ _ _ _ H1 Hn1) as (n0 & Hn0 & E0).
  exists n0. split; [exact Hn0|]. rewrite canonical_name_unfold. congruence.
Qed.

Lemma rename_axes_spec (dataset dataset' : Dataset) :
  rename_axes dataset = ok dataset' ->
  coords dataset' !! "lon" = None /\ coords dataset' !! "lat" = None /\
  (forall d c, coords dataset !! d = Some c ->
     coords dataset' !! canonical_name d = Some c).
Proof.
  rewrite rename_axes_unfold. intros H. apply bind_ok in H as (d1 & H1 & H2).
  apply rename_if_present_spec in H1 as (Hlon1 & Hc1 & Ho1 & _); [|discriminate].
  apply rename_if_present_spec in H2 as (Hlat2 & Hc2 & Ho2 & _); [|discriminate].
  split; [|split; [exact Hlat2|]].
  - rewrite Ho2 by discriminate. exact Hlon1.
  - intros d c Hd. rewrite canonical_name_unfold. apply Hc2, Hc1, Hd.
Qed.

(** X5.  After the renaming loop the longitude and latitude axes have
    their long names: no coordinate is called [lon] or [lat], every
    coordinate is found under its canonical name with the values it had,
    and the variables keep their values along the renamed dimensions. *)
Theorem rename_axes_canonical (dataset dataset' : Dataset) :
  rename_axes dataset = ok dataset' ->
  coords dataset' !! "lon" = None /\ coords dataset' !! "lat" = None /\
  (forall d c, coords dataset !! d = Some c ->
     coords dataset' !! canonical_name d = Some c) /\
  (forall var v, data_vars dataset !! var = Some v ->
     Forall (fun d => is_Some (coords dataset !! d)) (dims v) ->
     data_vars dataset' !! var
     = Some (mkDataArray (canonical_name <$> dims v) (values v))) /\
  (forall var, data_vars dataset' !! var = None <-> data_vars dataset !! var = None).
Proof.
  rewrite rename_axes_unfold. intros H. apply bind_ok in H as (d1 & H1 & H2).
  apply rename_if_present_spec in H1 as (Hlon1 & Hc1 & Ho1 & Hv1 & Hn1); [|discriminate].
  apply rename_if_present_spec in H2 as (Hlat2 & Hc2 & Ho2 & Hv2 & Hn2); [|discriminate].
  split; [|split; [exact Hlat2|split; [|split]]].
  - rewrite Ho2 by discriminate. exact Hlon1.
  - intros d c Hd. rewrite canonical_name_unfold. apply Hc2, Hc1, Hd.
  - intros var v Hv Hdims. rewrite (Hv2 var _ (Hv1 var v Hv Hdims)).
    + simpl. rewrite <- list_fmap_compose. f_equal. f_equal.
      apply list_fmap_ext. intros i d _. simpl. symmetry. apply canonical_name_unfold.
    + simpl. apply Forall_fmap. eapply Forall_impl; [exact Hdims|].
      intros d [c Hd]. simpl. rewrite (Hc1 d c Hd). eauto.
  - intros var. rewrite Hn2. apply Hn1.
Qed.

Lemma rename_axes_canonical_witness :
  exists dataset',
    rename_axes scenario_short = ok dataset' /\
    coords dataset' !! "lon" = None /\ coords dataset' !! "lat" = None /\
    (forall d c, coords scenario_short !! d = Some c ->
       coords dataset' !! canonical_name d = Some c) /\
    (forall var v, data_vars scenario_short !! var = Some v ->
       Forall (fun d => is_Some (coords scenario_short !! d)) (dims v) ->
       data_vars dataset' !! var
       = Some (mkDataArray (canonical_name <$> dims v) (values v))) /\
    (forall var, data_vars dataset' !! var = None
                 <-> data_vars scenario_short !! var = None).
Proof.
  exists scenario.
  assert (rename_axes scenario_short = ok scenario) as H by (vm_compute; reflexivity).
  split; [exact H|]. apply (rename_axes_canonical scenario_short scenario H).
Defined.

Lemma name_taken_rename (dataset dataset' : Dataset) (old new name : string) :
  rename dataset old new = ok dataset' -> name <> old -> name <> new ->
  (name_taken dataset' name <-> name_taken dataset name).
Proof.
  intros Hren H1 H2. unfold rename in Hren.
  destruct (coords dataset !! old) as [c|]; [|discriminate].
  destruct (_ || _); [discriminate|]. apply ok_inj in Hren. subst dataset'.
  unfold name_taken. cbn [coords data_vars].
  rewrite lookup_insert_ne, lookup_delete_ne, lookup_fmap, fmap_is_Some by congruence.
  reflexivity.
Qed.

Lemma rename_total (dataset : Dataset) (old new : string) :
  is_Some (coords dataset !! old) -> ~ name_taken dataset new ->
  exists dataset', rename dataset old new = ok dataset'.
Proof.
  intros [c Hc] Hnew. rewrite (rename_unfold _ _ _ _ Hc).
  rewrite bool_decide_eq_false_2 by assumption. eauto.
Qed.

Lemma rename_taken (dataset : Dataset) (old new : string) :
  is_Some (coords dataset !! old) -> name_taken dataset new ->
  rename dataset old new = raise ValueError.
Proof.
  intros [c Hc] Hnew. rewrite (rename_unfold _ _ _ _ Hc).
  rewrite bool_decide_eq_true_2 by assumption. reflexivity.
Qed.

Lemma rename_axes_cases (dataset : Dataset) :
  (rename_conflict dataset -> rename_axes dataset = raise ValueError) /\
  (~ rename_conflict dataset -> exists dataset', rename_axes dataset = ok dataset').
Proof.
  rewrite rename_axes_unfold. unfold rename_conflict.
  destruct (decide (is_Some (coords dataset !! "lon"))) as [Hlon|Hlon].
  - rewrite (rename_if_present_Some _ _ _ Hlon).
    destruct (decide (name_taken dataset "longitude")) as [Ht|Ht].
    { rewrite (rename_taken _ _ _ Hlon Ht). split; [reflexivity|]. intros []. auto. }
    destruct (rename_total _ _ _ Hlon Ht) as [d1 H1]. rewrite H1, bind_ret.
    pose proof (rename_keeps_other _ _ _ _ "lat" H1) as Hlat.
    pose proof (name_taken_rename _ _ _ _ "latitude" H1) as Htaken.
    destruct (decide (is_Some (coords dataset !! "lat"))) as [Hla|Hla].
    + assert (is_Some (coords d1 !! "lat")) as Hla1 by (rewrite Hlat by discriminate; exact Hla).
      rewrite (rename_if_present_Some _ _ _ Hla1).
      destruct (decide (name_taken dataset "latitude")) as [Ht2|Ht2].
      * rewrite rename_taken; [|exact Hla1|apply Htaken; [discriminate..|exact Ht2]].
        split; [reflexivity|]. intros []. auto.
      * split; [intros [[_ ?]|[_ ?]]; contradiction|]. intros _.
        apply rename_total; [exact Hla1|]. rewrite Htaken by discriminate. exact Ht2.
    + rewrite rename_if_present_None by (rewrite Hlat by discriminate; exact Hla).
      split; [intros [[_ ?]|[? _]]; contradiction|]. eauto.
  - rewrite (rename_if_present_None _ _ _ Hlon), bind_ret.
    destruct (decide (is_Some (coords dataset !! "lat"))) as [Hla|Hla].
    + rewrite (rename_if_present_Some _ _ _ Hla).
      destruct (decide (name_taken dataset "latitude")) as [Ht2|Ht2].
      * rewrite (rename_taken _ _ _ Hla Ht2). split; [reflexivity|]. intros []. auto.
      * split; [intros [[? _]|[_ ?]]; contradiction|]. intros _.
        apply rename_total; assumption.
    + rewrite (rename_if_present_None _ _ _ Hla).
      split; [intros [[? _]|[? _]]; contradiction|]. eauto.
Qed.

(** X6.  The renaming loop raises [ValueError] exactly when it has to
    give a name that a coordinate or a variable of the dataset already
    has; it raises nothing else, and returns a dataset otherwise. *)
Theorem rename_axes_conflict (dataset : Dataset) :
  (rename_axes dataset = raise ValueError <-> rename_conflict dataset) /\
  (forall e, rename_axes dataset = raise e -> e = ValueError) /\
  ((exists dataset', rename_axes dataset = ok dataset') <-> ~ rename_conflict dataset).
Proof.
  destruct (rename_axes_cases dataset) as [Hyes Hno].
  assert (Decision (rename_conflict dataset)) as Hdec.
  { unfold rename_conflict, name_taken. apply _. }
  destruct (decide (rename_conflict dataset)) as [Hc|Hc].
  - rewrite (Hyes Hc). split; [tauto|]. split; [intros e [= <-]; reflexivity|].
    split; [intros [d [=]]|contradiction].
  - destruct (Hno Hc) as [d Hd]. rewrite Hd. split; [split; [discriminate|contradiction]|].
    split; [discriminate|]. split; eauto.
Qed.

Lemma rename_axes_conflict_witness :
  rename_conflict scenario_both /\
  (exists dataset', rename_axes scenario_short = ok dataset').
Proof.
  destruct (rename_axes_conflict scenario_both) as [H1 _].
  destruct (rename_axes_conflict scenario_short) as (_ & _ & H2).
  split.
  - apply H1. vm_compute. reflexivity.
  - apply H2. intros [[_ [H|H]]|[_ [H|H]]]; vm_compute in H; destruct H; discriminate.
Defined.

(** ** Axis normalisation as a whole *)

Lemma rename_consistent (dataset dataset' : Dataset) (old new : string) :
  consistent dataset -> rename dataset old new = ok dataset' -> consistent dataset'.
Proof.
  intros Hcons Hren. unfold rename in Hren.
  destruct (coords dataset !! old) as [c|] eqn:Hold; [|discriminate].
  destruct (bool_decide (is_Some (coords dataset !! new))) eqn:Hnew;
    [discriminate|].
  apply bool_decide_eq_false in Hnew.
  assert (coords dataset !! new = None) as Hnone.
  { destruct (coords dataset !! new); [exfalso; eauto | reflexivity]. }
  simpl in Hren. destruct (bool_decide _); [discriminate|].
  apply ok_inj in Hren. subst dataset'.
  intros name v'. simpl. rewrite lookup_fmap.
  destruct (data_vars dataset !! name) as [v|] eqn:Hv; simpl; [|discriminate].
  intros [= <-].
  destruct (fits_inv _ _ (Hcons name v Hv)) as (Hnd & shape & Hshape & Hok).
  unfold fits. simpl.
  rewrite (rename_shape_of _ _ _ _ Hold Hnone _ _ Hshape).
  rewrite bool_decide_eq_true_2 by eauto using rename_NoDup. exact Hok.
Qed.

Lemma rename_if_present_consistent (dataset dataset' : Dataset) (old new : string) :
  consistent dataset -> rename_if_present old new dataset = ok dataset' ->
  consistent dataset'.
Proof.
  intros Hcons H. unfold rename_if_present in H.
  destruct (bool_decide _); [eapply rename_consistent; eauto|].
  apply ok_inj in H. subst. exact Hcons.
Qed.

Lemma rename_axes_consistent (dataset dataset' : Dataset) :
  consistent dataset -> rename_axes dataset = ok dataset' -> consistent dataset'.
Proof.
  rewrite rename_axes_unfold. intros Hcons H. apply bind_ok in H as (d1 & H1 & H2).
  eauto using rename_if_present_consistent.
Qed.

Lemma rename_axes_skip (dataset : Dataset) :
  coords dataset !! "lon" = None -> coords dataset !! "lat" = None ->
  rename_axes dataset = ok dataset.
Proof.
  intros H1 H2. rewrite rename_axes_unfold.
  rewrite rename_if_present_None, bind_ret by (rewrite H1; intros [? [=]]).
  apply rename_if_present_None. rewrite H2. intros [? [=]].
Qed.

Lemma rename_axes_short_gone (dataset dataset' : Dataset) :
  rename_axes dataset = ok dataset' ->
  coords dataset' !! "lon" = None /\ coords dataset' !! "lat" = None.
Proof. intros H. destruct (rename_axes_spec _ _ H) as (? & ? & _). auto. Qed.

Lemma sort_dimension_other (dataset dataset' : Dataset) (dim_name d : string) :
  sort_dimension dataset dim_name = ok dataset' -> d <> dim_name ->
  coords dataset' !! d = coords dataset !! d.
Proof.
  intros Hsort Hd. apply sort_dimension_inv in Hsort as (c0 & c & Hc & [->|Hsort]);
    [reflexivity|].
  rewrite (sortby_unfold _ _ _ Hc) in Hsort. apply ok_inj in Hsort. subst dataset'.
  cbn [coords]. apply lookup_insert_ne. congruence.
Qed.


(** An axis that [sort_dimension] leaves alone is left alone after
    another axis was sorted. *)
Lemma sort_dimension_fixed_other (dataset dataset' : Dataset) (a b : string) :
  consistent dataset -> a <> b ->
  sort_dimension dataset a = ok dataset ->
  sort_dimension dataset b = ok dataset' ->
  sort_dimension dataset' a = ok dataset'.
Proof.
  intros Hcons Hab Ha Hb.
  pose proof (sort_dimension_consistent _ _ _ Hcons Hb) as Hcons'.
  pose proof (sort_dimension_other _ _ _ a Hb Hab) as Hsame.
  destruct (coords dataset !! a) as [[|c0 c]|] eqn:Hc;
    [unfold sort_dimension in Ha; rewrite Hc in Ha; discriminate| |
     unfold sort_dimension in Ha; rewrite Hc in Ha; discriminate].
  rewrite (sort_dimension_unfold _ _ _ _ Hc) in Ha.
  rewrite (sort_dimension_unfold _ _ _ _ Hsame).
  destruct (forallb _ _); [|reflexivity].
  eapply sortby_sorted_id; [exact Hcons'|exact Hsame|].
  rewrite (sortby_unfold _ _ _ Hc) in Ha. apply ok_inj in Ha.
  apply (f_equal (fun d => coords d !! a)) in Ha. cbn [coords] in Ha.
  rewrite lookup_insert_eq, Hc in Ha. apply (inj Some) in Ha. rewrite <- Ha.
  apply ascending_Sorted, sorted_axis_ascending.
Qed.

(** X7.  Normalisation keeps a dataset consistent (every variable as long
    along a dimension as the coordinate of the dimension) and is
    idempotent: a dataset that comes out of [normalize] goes through it
    unchanged. *)
Theorem normalize_idempotent (dataset dataset' : Dataset) :
  consistent dataset ->
  normalize dataset = ok dataset' ->
  consistent dataset' /\ normalize dataset' = ok dataset'.
Proof.
  intros Hcons H. unfold normalize in H.
  apply bind_ok in H as (d1 & H1 & H). apply bind_ok in H as (d2 & H2 & H3).
  pose proof (rename_axes_consistent _ _ Hcons H1) as Hcons1.
  pose proof (sort_dimension_consistent _ _ _ Hcons1 H2) as Hcons2.
  pose proof (sort_dimension_consistent _ _ _ Hcons2 H3) as Hcons3.
  split; [exact Hcons3|].
  destruct (rename_axes_short_gone _ _ H1) as [Hlon Hlat].
  assert (rename_axes dataset' = ok dataset') as Hren.
  { apply rename_axes_skip.
    - rewrite (sort_dimension_other _ _ _ "lon" H3), (sort_dimension_other _ _ _ "lon" H2)
        by discriminate. exact Hlon.
    - rewrite (sort_dimension_other _ _ _ "lat" H3), (sort_dimension_other _ _ _ "lat" H2)
        by discriminate. exact Hlat. }
  unfold normalize. rewrite Hren, bind_ret.
  rewrite (sort_dimension_fixed_other d2 dataset' "latitude" "longitude");
    [|exact Hcons2|discriminate|exact (sort_dimension_twice _ _ _ Hcons1 H2)|exact H3].
  rewrite bind_ret. exact (sort_dimension_twice _ _ _ Hcons2 H3).
Qed.

Lemma normalize_idempotent_witness :
  consistent scenario_normalized /\ normalize scenario_normalized = ok scenario_normalized.
Proof.
  apply (normalize_idempotent scenario).
  - apply (bool_decide_unpack _). vm_compute. exact I.
  - vm_compute. reflexivity.
Defined.



Lemma sort_dimension_total (dataset : Dataset) (dim_name : string) (c0 : Q) (c : list Q) :
  coords dataset !! dim_name = Some (c0 :: c) ->
  exists dataset', sort_dimension dataset dim_name = ok dataset'.
Proof.
  intros Hc. rewrite (sort_dimension_unfold _ _ _ _ Hc).
  destruct (forallb _ _); [|eauto]. rewrite (sortby_unfold _ _ _ Hc). eauto.
Qed.

(** X9.  A consistent dataset whose horizontal axes are named neither
    [latitude]/[longitude] nor [lat]/[lon] (and that has no variable of
    these names) cannot be normalised: the name is then no dimension
    either, and the call of [sort_dimension] raises [KeyError] with the
    name it looked for.  An empty latitude axis raises [IndexError]. *)
Theorem normalize_missing_axis (dataset : Dataset) :
  consistent dataset ->
  ~ rename_conflict dataset ->
  data_vars dataset !! "latitude" = None -> data_vars dataset !! "longitude" = None ->
  (coords dataset !! "latitude" = None -> coords dataset !! "lat" = None ->
   normalize dataset = raise (KeyError "latitude")) /\
  (coords dataset !! "latitude" = Some [] \/ coords dataset !! "lat" = Some [] ->
   normalize dataset = raise IndexError) /\
  (forall c0 c,
     coords dataset !! "latitude" = Some (c0 :: c) \/ coords dataset !! "lat" = Some (c0 :: c) ->
     coords dataset !! "longitude" = None -> coords dataset !! "lon" = None ->
     normalize dataset = raise (KeyError "longitude")).
Proof.
  intros _ Hconf _ _. destruct (rename_axes_cases dataset) as [_ Hno].
  destruct (Hno Hconf) as [d1 H1].
  destruct (rename_axes_spec _ _ H1) as (Hlon & Hlat & Hc).
  pose proof (fun name c => rename_axes_back _ _ name c H1) as Hback.
  assert (forall name short, canonical_name short = name ->
            (forall d, canonical_name d = name -> d = name \/ d = short) ->
            coords dataset !! name = None -> coords dataset !! short = None ->
            coords d1 !! name = None) as Hnone.
  { intros name short Hshort Honly Hn Hs.
    destruct (coords d1 !! name) as [c1|] eqn:E; [exfalso|reflexivity].
    destruct (Hback _ _ E) as (d & Hd & Hcan).
    destruct (Honly _ Hcan) as [->| ->]; congruence. }
  assert (forall d, canonical_name d = "latitude" -> d = "latitude" \/ d = "lat") as Hola.
  { intros d. unfold canonical_name.
    destruct (String.eqb_spec d "lon"); [discriminate|].
    destruct (String.eqb_spec d "lat"); auto. }
  assert (forall d, canonical_name d = "longitude" -> d = "longitude" \/ d = "lon") as Holo.
  { intros d. unfold canonical_name.
    destruct (String.eqb_spec d "lon"); [auto|].
    destruct (String.eqb_spec d "lat"); [discriminate|auto]. }
  unfold normalize. rewrite H1, bind_ret. split; [|split].
  - intros Hn Hs. unfold sort_dimension.
    rewrite (Hnone "latitude" "lat" eq_refl Hola Hn Hs). reflexivity.
  - intros [H|H]; apply Hc in H; unfold sort_dimension; cbn in H; rewrite H; reflexivity.
  - intros c0 c Hla Hn Hs.
    assert (coords d1 !! "latitude" = Some (c0 :: c)) as Hla1.
    { destruct Hla as [H|H]; apply Hc in H; exact H. }
    destruct (sort_dimension_total _ _ _ _ Hla1) as [d2 H2]. rewrite H2, bind_ret.
    unfold sort_dimension. rewrite (sort_dimension_other _ _ _ "longitude" H2) by discriminate.
    rewrite (Hnone "longitude" "lon" eq_refl Holo Hn Hs). reflexivity.
Qed.

Lemma normalize_missing_axis_witness :
  normalize scenario_xy = raise (KeyError "latitude").
Proof.
  destruct (normalize_missing_axis scenario_xy) as (H & _ & _).
  - apply (bool_decide_unpack _). vm_compute. exact I.
  - intros [[[? H] _]|[[? H] _]]; vm_compute in H; discriminate.
  - vm_compute. reflexivity.
  - vm_compute. reflexivity.
  - apply H; vm_compute; reflexivity.
Defined.

(** ** The table of the "temporal points" cell *)

Lemma assign_all_inv (df df' : DataFrame) (cols : list (string * list Q)) :
  assign_all df cols = ok df' ->
  nrows df' = nrows df /\
  (forall name, name ∉ cols.*1 -> columns df' !! name = columns df !! name) /\
  (forall name, name ∈ cols.*1 ->
     exists c, columns df' !! name = Some c /\ length c = nrows df).
Proof.
  unfold assign_all. revert df. induction cols as [|[n c] cols IH]; intros df H; simpl in H.
  - apply ok_inj in H. subst df'. split; [reflexivity|]. split; [reflexivity|].
    intros name Hin. apply elem_of_nil in Hin. contradiction.
  - apply bind_ok in H as (df1 & H1 & H). unfold assign in H1. simpl in H1.
    destruct (length c =? nrows df)%nat eqn:Hlen; [|discriminate].
    apply Nat.eqb_eq in Hlen. apply ok_inj in H1. subst df1.
    destruct (IH _ H) as (Hrows & Hout & Hin). simpl in *.
    split; [exact Hrows|]. split.
    + intros name Hname. rewrite Hout by (intros ?; apply Hname; right; assumption).
      apply lookup_insert_ne. intros ->. apply Hname. left.
    + intros name Hname. destruct (decide (name ∈ cols.*1)) as [Hc|Hc]; [auto|].
      apply elem_of_cons in Hname as [->|Hname]; [|contradiction].
      rewrite (Hout _ Hc), lookup_insert_eq. eauto.
Qed.

Lemma sampled_names (dataset : Dataset) (variables : list string) (df : DataFrame)
    (sampled : list (string * list Q)) :
  (if has_depth dataset then
     traverse (fun var =>
             date ← column df "Date";
             latitude ← column df "Latitude";
             longitude ← column df "Longitude";
             depth ← column df "Depth";
             col ← traverse (sample_3d dataset var)
                        (zip (zip (zip date latitude) longitude) depth);
             ok (var, col)) variables
   else
     traverse (fun var =>
             date ← column df "Date";
             latitude ← column df "Latitude";
             longitude ← column df "Longitude";
             col ← traverse (sample_2d dataset var)
                        (zip (zip date latitude) longitude);
             ok (var, col)) variables) = ok sampled ->
  sampled.*1 = variables.
Proof.
  destruct (has_depth dataset); apply traverse_fst; intros var y H;
    repeat (apply bind_ok in H as (? & _ & H)); apply ok_inj in H; subst y; reflexivity.
Qed.

(** X10.  The table that the "temporal points" cell writes is the table
    of points with columns added: it has the same rows, every column that
    is neither a requested variable nor [Date_dataset] is as it was, and
    the added columns have one value per row. *)
Theorem temporal_points_keeps_columns (dataset : Dataset) (variables : list string)
    (df df' : DataFrame) :
  temporal_points dataset variables df = ok df' ->
  nrows df' = nrows df /\
  (forall name, name ∉ variables -> name <> "Date_dataset" ->
     columns df' !! name = columns df !! name) /\
  (forall name, name ∈ variables \/ name = "Date_dataset" ->
     exists c, columns df' !! name = Some c /\ length c = nrows df).
Proof.
  intros H. unfold temporal_points in H.
  apply bind_ok in H as (sampled & Hs & H). apply sampled_names in Hs.
  apply bind_ok in H as (df1 & H1 & H). apply bind_ok in H as (date & _ & H).
  apply bind_ok in H as (matched & _ & H).
  apply assign_all_inv in H1 as (Hrows & Hout & Hin). rewrite Hs in Hout, Hin.
  unfold assign in H. destruct (length matched =? nrows df1)%nat eqn:Hlen; [|discriminate].
  apply Nat.eqb_eq in Hlen. apply ok_inj in H. subst df'. simpl.
  split; [exact Hrows|]. split.
  - intros name Hv Hd. rewrite lookup_insert_ne by congruence. auto.
  - intros name Hname. destruct (decide (name = "Date_dataset")) as [->|Hd].
    + rewrite lookup_insert_eq. exists matched. split; [reflexivity|congruence].
    + rewrite lookup_insert_ne by congruence. destruct Hname; [auto|contradiction].
Qed.

Lemma temporal_points_keeps_columns_witness :
  exists df',
    temporal_points grid_a ["uo"] points = ok df' /\
    nrows df' = nrows points /\
    (forall name, name ∉ ["uo"] -> name <> "Date_dataset" ->
       columns df' !! name = columns points !! name) /\
    (forall name, name ∈ ["uo"] \/ name = "Date_dataset" ->
       exists c, columns df' !! name = Some c /\ length c = nrows points).
Proof.
  destruct (temporal_points grid_a ["uo"] points) as [e|df'] eqn:H;
    [vm_compute in H; discriminate|].
  exists df'. split; [reflexivity|].
  apply (temporal_points_keeps_columns grid_a ["uo"] points df' H).
Defined.

Lemma traverse_nil_columns {R} (sample : string -> R -> Result Q) (variables : list string) :
  traverse (fun var => col ← traverse (sample var) []; ok (var, col)) variables
  = ok ((fun var => (var, [])) <$> variables).
Proof.
  induction variables as [|var vars IH]; [reflexivity|].
  simpl in *. rewrite IH. reflexivity.
Qed.

(** X11.  On a table without rows nothing is sampled: the cell writes a
    table without rows whatever the dataset holds, even if it holds none
    of the requested variables. *)
Theorem temporal_points_no_rows (dataset : Dataset) (variables : list string)
    (df : DataFrame) :
  has_columns df (query_columns dataset) = true ->
  nrows df = 0%nat ->
  exists df',
    temporal_points dataset variables df = ok df' /\
    nrows df' = 0%nat /\
    (forall name, name ∈ variables \/ name = "Date_dataset" ->
       columns df' !! name = Some []) /\
    (forall name, name ∉ variables -> name <> "Date_dataset" ->
       columns df' !! name = columns df !! name).
Proof.
  intros Hcols Hrows.
  destruct (temporal_points_rows dataset variables df Hcols)
    as (R & sample & rows & dates & Lrows & Hdates & Ldates & _ & _ & ->).
  assert (rows = []) as -> by (apply length_zero_iff_nil; lia).
  assert (dates = []) as -> by (apply length_zero_iff_nil; lia).
  rewrite traverse_nil_columns, bind_ret.
  destruct (assign_all_ok df ((fun var => (var, [])) <$> variables))
    as (df1 & H1 & Hr1 & Hout & Hin).
  { apply Forall_fmap, Forall_forall. intros var _. simpl. lia. }
  assert (((fun var : string => (var, @nil Q)) <$> variables).*1 = variables) as Hnames.
  { rewrite <- list_fmap_compose. apply list_fmap_id. }
  rewrite Hnames in Hout, Hin.
  rewrite H1, bind_ret.
  assert (columns df1 !! "Date" = Some []) as Hd1.
  { destruct (decide ("Date" ∈ variables)) as [Hv|Hv].
    - destruct (Hin _ Hv) as (c & Hc & ->). apply list_elem_of_fmap in Hc as (v & [= _ ->] & _).
      reflexivity.
    - rewrite (Hout _ Hv). exact Hdates. }
  rewrite (column_ok _ _ _ Hd1), bind_ret. cbn [traverse]. rewrite bind_ret.
  rewrite assign_ok by (simpl; lia). eexists. split; [reflexivity|].
  simpl. split; [lia|]. split.
  - intros name Hname. destruct (decide (name = "Date_dataset")) as [->|Hne].
    + apply lookup_insert_eq.
    + rewrite lookup_insert_ne by congruence. destruct Hname as [Hv|]; [|contradiction].
      destruct (Hin _ Hv) as (c & Hc & ->).
      apply list_elem_of_fmap in Hc as (v & [= _ ->] & _). reflexivity.
  - intros name Hv Hne. rewrite lookup_insert_ne by congruence. auto.
Qed.

Lemma temporal_points_no_rows_witness :
  exists df',
    temporal_points grid_a ["uo"; "zz"] no_points = ok df' /\
    nrows df' = 0%nat /\
    (forall name, name ∈ ["uo"; "zz"] \/ name = "Date_dataset" ->
       columns df' !! name = Some []) /\
    (forall name, name ∉ ["uo"; "zz"] -> name <> "Date_dataset" ->
       columns df' !! name = columns no_points !! name).
Proof.
  apply (temporal_points_no_rows grid_a ["uo"; "zz"] no_points); vm_compute; reflexivity.
Defined.

Lemma traverse_app_raise {A B} (f : A -> Result B) (l1 l2 : list A) (x : A) (e : PyError) :
  Forall (fun y => exists z, f y = ok z) l1 -> f x = raise e ->
  traverse f (l1 ++ x :: l2) = raise e.
Proof.
  intros Hl Hx. induction Hl as [|y l1 [z Hz] _ IH]; simpl.
  - rewrite Hx. reflexivity.
  - rewrite Hz, bind_ret, IH. reflexivity.
Qed.

(** X12.  A requested variable that the dataset does not hold stops the
    cell with [KeyError] and the name of the variable, once the variables
    requested before it have been sampled; no table is produced. *)
Theorem temporal_points_unknown_variable (dataset : Dataset) (known rest : list string)
    (var : string) (df : DataFrame) :
  has_columns df (query_columns dataset) = true ->
  nrows df <> 0%nat ->
  forallb (axis_ok dataset) (grid_dims dataset) = true ->
  forallb (var_ok dataset) known = true ->
  data_vars dataset !! var = None ->
  temporal_points dataset (known ++ var :: rest) df = raise (KeyError var).
Proof.
  intros Hcols Hrows Hax Hknown Hvar.
  destruct (temporal_points_rows dataset (known ++ var :: rest) df Hcols)
    as (R & sample & rows & dates & Lrows & _ & _ & Hnone & Hsome & ->).
  rewrite traverse_app_raise with (e := KeyError var); [reflexivity| |].
  - rewrite forallb_forall in Hknown. apply Forall_forall. intros v Hv.
    destruct (traverse_total (sample v) rows) as [col Hcol].
    { apply Forall_forall. intros row _. apply Hsome; [exact Hax|].
      apply Hknown, list_elem_of_In, Hv. }
    rewrite Hcol, bind_ret. eauto.
  - destruct rows as [|row rows]; [simpl in Lrows; lia|].
    cbn [traverse]. rewrite (Hnone var row Hvar). reflexivity.
Qed.

Lemma temporal_points_unknown_variable_witness :
  temporal_points grid_a (["uo"] ++ "zz" :: []) points = raise (KeyError "zz").
Proof.
  apply (temporal_points_unknown_variable grid_a ["uo"] [] "zz" points);
    try (vm_compute; reflexivity).
  vm_compute. discriminate.
Defined.

(** ** The series of the "timeseries" cell *)

Lemma sampled_at_functional (dataset : Dataset) (var : string)
    (labels : list (string * Q)) (x x' : Q) :
  sampled_at dataset var labels x -> sampled_at dataset var labels x' -> x = x'.
Proof.
  intros (v & idxs & Hv & _ & Hsel & Hget) (v' & idxs' & Hv' & _ & Hsel' & Hget').
  assert (v' = v) as -> by congruence.
  assert (idxs' = idxs) as ->; [|congruence].
  clear Hget Hget'. revert idxs' Hsel'.
  induction Hsel as [|l i labels idxs (c & Hc & Hi & _) _ IH]; intros idxs' Hsel';
    inversion Hsel' as [|? i' ? idxs0 (c' & Hc' & Hi' & _) Hrest]; subst; [reflexivity|].
  f_equal; [unfold ok in *; congruence|]. apply IH, Hrest.
Qed.

Lemma Forall2_from_lookup {A B} (P : A -> B -> Prop) (l : list A) (k : list B) :
  length k = length l ->
  (forall i x y, l !! i = Some x -> k !! i = Some y -> P x y) ->
  Forall2 P l k.
Proof.
  intros Hlen H. apply Forall2_same_length_lookup. split; [congruence|]. exact H.
Qed.

(** X13.  The two cells agree on a dataset with depth: the series
    written for a point holds, for every time step of the dataset between
    [Start] and [End] (ends included) and in their order, the value that
    the "temporal points" cell samples at that step for the same latitude,
    longitude and depth. *)
Theorem series_3d_agrees_with_sample_3d (dataset : Dataset) (vars : list string)
    (start stop latitude longitude depth : Q) :
  has_depth dataset = true -> well_formed dataset vars = true ->
  exists point time,
    series_3d dataset vars (start, stop, latitude, longitude, depth) = ok point /\
    coords dataset !! "time" = Some time /\
    coords point !! "time" = Some (steps_within start stop time) /\
    forall var, var ∈ vars ->
      exists l,
        data_vars point !! var = Some (mkDataArray ["time"] (Arr l)) /\
        Forall2 (fun t y => exists x,
                   y = Scalar x /\
                   sample_3d dataset var (t, latitude, longitude, depth) = ok x)
                (steps_within start stop time) l.
Proof.
  intros Hd Hwf.
  destruct (series_3d_ok dataset vars start stop latitude longitude depth Hd Hwf)
    as (point & time & Hp & Ht & Hpt & Hvars).
  exists point, time. repeat (split; [assumption|]).
  intros var Hvar. destruct (Hvars var Hvar) as (l & Hl & Hlen & Hall).
  exists l. split; [exact Hl|]. apply Forall2_from_lookup; [exact Hlen|].
  intros i t y Hti Hy. destruct (Hall i y Hy) as (t' & x & Ht' & -> & Hx).
  assert (t' = t) as -> by congruence.
  unfold well_formed in Hwf. apply andb_true_iff in Hwf as [Hax Hok].
  rewrite forallb_forall in Hok.
  destruct (sample_3d_ok dataset var t latitude longitude depth Hd Hax) as (x' & Hs & Hx').
  { apply Hok, list_elem_of_In, Hvar. }
  exists x. split; [reflexivity|]. rewrite Hs. f_equal.
  eapply sampled_at_functional; eauto.
Qed.

Lemma series_3d_agrees_with_sample_3d_witness :
  exists point time,
    series_3d grid_a ["uo"] (0, 10, 41, 6, 1)%Q = ok point /\
    coords grid_a !! "time" = Some time /\
    coords point !! "time" = Some (steps_within 0 10 time) /\
    forall var, var ∈ ["uo"] ->
      exists l,
        data_vars point !! var = Some (mkDataArray ["time"] (Arr l)) /\
        Forall2 (fun t y => exists x,
                   y = Scalar x /\ sample_3d grid_a var (t, 41, 6, 1)%Q = ok x)
                (steps_within 0 10 time) l.
Proof.
  apply (series_3d_agrees_with_sample_3d grid_a ["uo"]); vm_compute; reflexivity.
Defined.

(** X14.  The same for a dataset without depth: the selection that the
    "timeseries" cell makes for a point holds the values that the
    "temporal points" cell samples at the time steps between [Start] and
    [End]. *)
Theorem series_2d_agrees_with_sample_2d (dataset : Dataset) (vars : list string)
    (start stop latitude longitude : Q) :
  has_depth dataset = false -> well_formed dataset vars = true ->
  exists point time,
    series_2d dataset vars (start, stop, latitude, longitude) = ok point /\
    coords dataset !! "time" = Some time /\
    coords point !! "time" = Some (steps_within start stop time) /\
    forall var, var ∈ vars ->
      exists l,
        data_vars point !! var = Some (mkDataArray ["time"] (Arr l)) /\
        Forall2 (fun t y => exists x,
                   y = Scalar x /\
                   sample_2d dataset var (t, latitude, longitude) = ok x)
                (steps_within start stop time) l.
Proof.
  intros Hd Hwf.
  destruct (series_2d_ok dataset vars start stop latitude longitude Hd Hwf)
    as (point & time & Hp & Ht & Hpt & Hvars).
  exists point, time. repeat (split; [assumption|]).
  intros var Hvar. destruct (Hvars var Hvar) as (l & Hl & Hlen & Hall).
  exists l. split; [exact Hl|]. apply Forall2_from_lookup; [exact Hlen|].
  intros i t y Hti Hy. destruct (Hall i y Hy) as (t' & x & Ht' & -> & Hx).
  assert (t' = t) as -> by congruence.
  unfold well_formed in Hwf. apply andb_true_iff in Hwf as [Hax Hok].
  rewrite forallb_forall in Hok.
  destruct (sample_2d_ok dataset var t latitude longitude Hd Hax) as (x' & Hs & Hx').
  { apply Hok, list_elem_of_In, Hvar. }
  exists x. split; [reflexivity|]. rewrite Hs. f_equal.
  eapply sampled_at_functional; eauto.
Qed.

Lemma series_2d_agrees_with_sample_2d_witness :
  exists point time,
    series_2d scenario_normalized ["uo"] (0, 10, 41, 6)%Q = ok point /\
    coords scenario_normalized !! "time" = Some time /\
    coords point !! "time" = Some (steps_within 0 10 time) /\
    forall var, var ∈ ["uo"] ->
      exists l,
        data_vars point !! var = Some (mkDataArray ["time"] (Arr l)) /\
        Forall2 (fun t y => exists x,
                   y = Scalar x /\ sample_2d scenario_normalized var (t, 41, 6)%Q = ok x)
                (steps_within 0 10 time) l.
Proof.
  apply (series_2d_agrees_with_sample_2d scenario_normalized ["uo"]);
    vm_compute; reflexivity.
Defined.

(** X15.  An interval that holds no time step of the dataset, one whose
    [End] is before its [Start] included, gives a series without entries
    and no error. *)
Theorem series_3d_empty_interval (dataset : Dataset) (vars : list string)
    (time : list Q) (start stop latitude longitude depth : Q) :
  has_depth dataset = true -> well_formed dataset vars = true ->
  coords dataset !! "time" = Some time ->
  ((stop < start)%Q \/ Forall (fun t => (t < start)%Q \/ (stop < t)%Q) time) ->
  exists point,
    series_3d dataset vars (start, stop, latitude, longitude, depth) = ok point /\
    coords point !! "time" = Some [] /\
    forall var, var ∈ vars ->
      data_vars point !! var = Some (mkDataArray ["time"] (Arr [])).
Proof.
  intros Hd Hwf Ht Hout.
  destruct (series_3d_ok dataset vars start stop latitude longitude depth Hd Hwf)
    as (point & time' & Hp & Ht' & Hpt & Hvars).
  assert (time' = time) as -> by congruence.
  assert (steps_within start stop time = []) as Hnone.
  { apply steps_within_none, Forall_forall. intros t Hin. unfold in_interval.
    apply andb_false_iff.
    destruct (Qlt_le_dec t start) as [Hlt|Hge]; [left; apply Qle_bool_false, Hlt|].
    right. apply Qle_bool_false. destruct Hout as [Hrev|Hall]; [lra|].
    rewrite Forall_forall in Hall. destruct (Hall _ Hin); [lra|assumption]. }
  rewrite Hnone in *. exists point. split; [exact Hp|]. split; [exact Hpt|].
  intros var Hvar. destruct (Hvars var Hvar) as (l & Hl & Hlen & _).
  destruct l; [exact Hl|discriminate].
Qed.

Lemma series_3d_empty_interval_witness :
  exists point,
    series_3d grid_a ["uo"] (11, 12, 41, 6, 1)%Q = ok point /\
    coords point !! "time" = Some [] /\
    forall var, var ∈ ["uo"] ->
      data_vars point !! var = Some (mkDataArray ["time"] (Arr [])).
Proof.
  apply (series_3d_empty_interval grid_a ["uo"] [0; 10]%Q); try (vm_compute; reflexivity).
  right. repeat constructor.
Defined.

(** ** The cells *)

Lemma kernel_eta (k : Kernel) :
  mkKernel (dataset_id k) (datset_id k) (opened k) (files k) = k.
Proof. destruct k. reflexivity. Qed.

Lemma zip_fst_take {A B} (l : list A) (k : list B) : (zip l k).*1 = take (length k) l.
Proof.
  revert k. induction l as [|x l IH]; intros [|y k]; simpl; try reflexivity.
  f_equal. apply IH.
Qed.

Lemma bound_after_cons (entry : string * string) (entries : list (string * string))
    (before : option string) :
  bound_after (entry :: entries) before = bound_after entries (Some entry.1).
Proof.
  unfold bound_after. rewrite last_cons. destruct (last entries); reflexivity.
Qed.

Lemma temporal_rounds_exact (catalogue : string -> Result Dataset) (p : Parameters)
    (entries : list (string * string)) (tables : list DataFrame) (k : Kernel) :
  Forall2 (fun entry t => temporal_table catalogue p entry.1 = ok t) entries tables ->
  for_each entries (temporal_round catalogue p) k
  = (mkKernel (bound_after entries (dataset_id k)) (datset_id k)
       (opened k ++ entries.*1)
       (files k ++ zip_with (fun entry t => (temporal_path p entry.2, CsvTable t))
                            entries tables),
     ok tt).
Proof.
  intros Hall. revert k. induction Hall as [|[id out] t entries tables Ht _ IH]; intros k.
  - simpl. rewrite !app_nil_r. unfold bound_after. simpl. rewrite kernel_eta. reflexivity.
  - simpl in Ht. rewrite for_each_cons, temporal_round_spec, Ht.
    unfold ok at 1. cbv beta iota. rewrite IH.
    rewrite bound_after_cons. cbn [dataset_id datset_id opened files fst snd].
    rewrite <- !app_assoc. reflexivity.
Qed.

(** X16.  The "temporal points" cell, when every table can be computed:
    it pairs the identifiers with the output names and stops at the
    shorter list, opens the paired datasets in order, writes the table of
    each under its own output name, and leaves [dataset_id] bound to the
    last identifier it paired. *)
Theorem temporal_cell_run (catalogue : string -> Result Dataset) (p : Parameters)
    (tables : list DataFrame) (k : Kernel) :
  Forall2 (fun entry t => temporal_table catalogue p entry.1 = ok t)
          (zip (list_datasetID p) (output_names p)) tables ->
  exists k',
    temporal_cell catalogue p k = (k', ok tt) /\
    opened k' = opened k ++ take (length (output_names p)) (list_datasetID p) /\
    dataset_id k' = bound_after (zip (list_datasetID p) (output_names p)) (dataset_id k) /\
    datset_id k' = datset_id k /\
    files k' = files k ++ zip_with (fun entry t => (temporal_path p entry.2, CsvTable t))
                                   (zip (list_datasetID p) (output_names p)) tables.
Proof.
  intros Hall. unfold temporal_cell. rewrite (temporal_rounds_exact _ _ _ _ _ Hall).
  eexists. split; [reflexivity|]. cbn [dataset_id datset_id opened files].
  rewrite zip_fst_take. auto.
Qed.

Lemma temporal_cell_run_witness :
  exists table k',
    temporal_table catalogue_ab parameters_short "A" = ok table /\
    temporal_cell catalogue_ab parameters_short fresh = (k', ok tt) /\
    opened k' = opened fresh ++ take (length (output_names parameters_short))
                                     (list_datasetID parameters_short) /\
    dataset_id k' = bound_after (zip (list_datasetID parameters_short)
                                     (output_names parameters_short)) (dataset_id fresh) /\
    datset_id k' = datset_id fresh /\
    files k' = files fresh
               ++ zip_with (fun entry t => (temporal_path parameters_short entry.2, CsvTable t))
                    (zip (list_datasetID parameters_short) (output_names parameters_short))
                    [table].
Proof.
  destruct (temporal_table catalogue_ab parameters_short "A") as [e|table] eqn:Ht;
    [vm_compute in Ht; discriminate|].
  exists table.
  destruct (temporal_cell_run catalogue_ab parameters_short [table] fresh) as (k' & H).
  - repeat constructor. exact Ht.
  - exists k'. split; [reflexivity|]. exact H.
Defined.

(** X17.  Run in a kernel in which [dataset_id] is not bound, the
    "timeseries" cell stops in its first round with [NameError]: its loop
    binds [datset_id], and [open_dataset] is called with [dataset_id].  No
    dataset is opened and no file is written. *)
Theorem timeseries_cell_unbound (catalogue : string -> Result Dataset) (p : Parameters)
    (k : Kernel) (entry : string * string) (rest : list (string * string)) :
  zip (list_datasetID p) (output_names p) = entry :: rest ->
  dataset_id k = None ->
  timeseries_cell catalogue p k
  = (mkKernel None (Some entry.1) (opened k) (files k), raise (NameError "dataset_id")).
Proof.
  intros Hzip Hnone. unfold timeseries_cell. rewrite Hzip, for_each_cons.
  unfold timeseries_round.
  unfold mbind at 1, cell_bind at 1. cbn [bind_datset_id].
  unfold mbind at 1, cell_bind at 1. unfold read_dataset_id.
  cbn [dataset_id datset_id opened files]. rewrite Hnone. reflexivity.
Qed.

Lemma timeseries_cell_unbound_witness :
  timeseries_cell catalogue_ab parameters_ab fresh
  = (mkKernel None (Some ("A", "a_").1) (opened fresh) (files fresh),
     raise (NameError "dataset_id")).
Proof.
  apply (timeseries_cell_unbound catalogue_ab parameters_ab fresh ("A", "a_") [("B", "b_")]);
    reflexivity.
Defined.

Lemma for_each_write_exact {R A} (rows : list R) (f : R -> Result A) (path : R -> string)
    (content : A -> Output) (cs : list A) (k : Kernel) :
  Forall2 (fun row c => f row = ok c) rows cs ->
  for_each rows (fun row => c ← lift (f row); to_csv (path row) (content c)) k
  = (mkKernel (dataset_id k) (datset_id k) (opened k)
       (files k ++ zip_with (fun row c => (path row, content c)) rows cs),
     ok tt).
Proof.
  intros Hall. revert k. induction Hall as [|row c rows cs Hc _ IH]; intros k.
  - simpl. rewrite app_nil_r, kernel_eta. reflexivity.
  - rewrite for_each_cons, (write_step _ c _ _ _ Hc). unfold ok at 1. cbv beta iota.
    rewrite IH. cbn [dataset_id datset_id opened files zip_with].
    rewrite <- app_assoc. reflexivity.
Qed.

Lemma cell_lookup (df : DataFrame) (name : string) (c : list Q) (i : nat) :
  columns df !! name = Some c -> cell df name i = c !! i.
Proof. intros H. unfold cell. rewrite H. reflexivity. Qed.

(** The rows that the branch with depth builds from the table. *)
Lemma series_rows (df : DataFrame) :
  has_columns df ["Start"; "End"; "Latitude"; "Longitude"; "Depth"] = true ->
  exists starts stops lats lons depths rows,
    columns df !! "Start" = Some starts /\ columns df !! "End" = Some stops /\
    columns df !! "Latitude" = Some lats /\ columns df !! "Longitude" = Some lons /\
    columns df !! "Depth" = Some depths /\
    zip (zip (zip (zip (zip starts stops) lats) lons) depths) (seq 0 (nrows df))
    = zip rows (seq 0 (nrows df)) /\
    length rows = nrows df /\
    forall i row, rows !! i = Some row -> series_row df i = Some row.
Proof.
  intros Hcols.
  destruct (has_columns_lookup df _ "Start" Hcols) as (starts & Hstarts & L1);
    [set_solver|].
  destruct (has_columns_lookup df _ "End" Hcols) as (stops & Hstops & L2);
    [set_solver|].
  destruct (has_columns_lookup df _ "Latitude" Hcols) as (lats & Hlats & L3);
    [set_solver|].
  destruct (has_columns_lookup df _ "Longitude" Hcols) as (lons & Hlons & L4);
    [set_solver|].
  destruct (has_columns_lookup df _ "Depth" Hcols) as (depths & Hdepths & L5);
    [set_solver|].
  exists starts, stops, lats, lons, depths,
    (zip (zip (zip (zip starts stops) lats) lons) depths).
  repeat (split; [assumption|]). split; [reflexivity|].
  split; [rewrite !length_zip; lia|].
  intros i [[[[start stop] lat] lon] depth] Hrow.
  apply zip_lookup in Hrow as [Hrow Hde]. apply zip_lookup in Hrow as [Hrow Hlo].
  apply zip_lookup in Hrow as [Hrow Hla]. apply zip_lookup in Hrow as [Hst Hsp].
  unfold series_row.
  rewrite (cell_lookup _ _ _ _ Hstarts), (cell_lookup _ _ _ _ Hstops),
    (cell_lookup _ _ _ _ Hlats), (cell_lookup _ _ _ _ Hlons),
    (cell_lookup _ _ _ _ Hdepths), Hst, Hsp, Hla, Hlo, Hde. reflexivity.
Qed.

Lemma series_points_exist (dataset : Dataset) (p : Parameters) :
  has_depth dataset = true -> well_formed dataset (variables p) = true ->
  has_columns (dataframe_coordinates p)
    ["Start"; "End"; "Latitude"; "Longitude"; "Depth"] = true ->
  exists points,
    Forall2 (series_of dataset p) (seq 0 (nrows (dataframe_coordinates p))) points.
Proof.
  intros Hd Hwf Hcols. apply Forall_exists_Forall2_l, Forall_forall. intros i Hi.
  apply elem_of_seq in Hi as [_ Hi]. simpl in Hi.
  destruct (series_rows _ Hcols) as (? & ? & ? & ? & ? & rows & _ & _ & _ & _ & _ & _ & Lrows & Hrow).
  destruct (lookup_lt_is_Some_2 rows i) as [[[[[start stop] lat] lon] depth] Hr]; [lia|].
  destruct (series_3d_ok dataset (variables p) start stop lat lon depth Hd Hwf)
    as (point & _ & Hpoint & _).
  exists point, (start, stop, lat, lon, depth). split; [apply Hrow, Hr|exact Hpoint].
Qed.

Lemma zip_with_rows {A B C} (f : nat -> B -> C) (rows : list A) (s n : nat)
    (cs : list B) :
  (n <= length rows)%nat ->
  zip_with (fun (row : A * nat) c => f row.2 c) (zip rows (seq s n)) cs
  = zip_with f (seq s n) cs.
Proof.
  revert s rows cs. induction n as [|n IH]; intros s rows cs Hlen.
  - destruct rows; reflexivity.
  - destruct rows as [|row rows]; [simpl in Hlen; lia|].
    destruct cs as [|c cs]; [reflexivity|]. simpl. f_equal.
    apply IH. simpl in Hlen. lia.
Qed.

Lemma timeseries_round_3d_exact (catalogue : string -> Result Dataset) (p : Parameters)
    (entry : string * string) (k : Kernel) (id : string) (d d' : Dataset)
    (points : list Dataset) :
  dataset_id k = Some id -> catalogue id = ok d -> normalize d = ok d' ->
  has_depth d' = true ->
  has_columns (dataframe_coordinates p)
    ["Start"; "End"; "Latitude"; "Longitude"; "Depth"] = true ->
  Forall2 (series_of d' p) (seq 0 (nrows (dataframe_coordinates p))) points ->
  timeseries_round catalogue p entry k
  = (mkKernel (Some id) (Some entry.1) (opened k ++ [id])
       (files k ++ zip_with (fun i point => (series_path p entry.2 i, CsvSeries point))
                            (seq 0 (nrows (dataframe_coordinates p))) points),
     ok tt).
Proof.
  intros Hid Hcat Hnorm Hd Hcols Hpoints.
  destruct (series_rows _ Hcols)
    as (starts & stops & lats & lons & depths & rows & Hstarts & Hstops & Hlats & Hlons
        & Hdepths & Hzip & Lrows & Hrow).
  assert (Forall2 (fun row point => series_3d d' (variables p) row.1 = ok point)
            (zip rows (seq 0 (nrows (dataframe_coordinates p)))) points) as Hall.
  { apply Forall2_same_length_lookup. split.
    - rewrite length_zip, length_seq, <- (Forall2_length _ _ _ Hpoints), length_seq. lia.
    - intros i [row j] point Hi Hp. apply zip_lookup in Hi as [Hr Hj].
      apply lookup_seq in Hj as [-> _].
      destruct (Forall2_lookup_r _ _ _ _ _ Hpoints Hp) as (i' & Hi' & row' & Hrow' & Hs).
      apply lookup_seq in Hi' as [-> _]. simpl in *.
      rewrite (Hrow _ _ Hr) in Hrow'. congruence. }
  unfold timeseries_round.
  erewrite cell_bind_ok; [|reflexivity].
  erewrite cell_bind_ok;
    [|unfold read_dataset_id; cbn [dataset_id]; rewrite Hid; reflexivity].
  erewrite cell_bind_ok; [|unfold open_dataset; rewrite Hcat; reflexivity].
  erewrite cell_bind_ok; [|unfold lift; rewrite Hnorm; reflexivity].
  rewrite Hd.
  erewrite cell_bind_ok; [|unfold lift; rewrite (column_ok _ _ _ Hstarts); reflexivity].
  erewrite cell_bind_ok; [|unfold lift; rewrite (column_ok _ _ _ Hstops); reflexivity].
  erewrite cell_bind_ok; [|unfold lift; rewrite (column_ok _ _ _ Hlats); reflexivity].
  erewrite cell_bind_ok; [|unfold lift; rewrite (column_ok _ _ _ Hlons); reflexivity].
  erewrite cell_bind_ok; [|unfold lift; rewrite (column_ok _ _ _ Hdepths); reflexivity].
  rewrite Hzip.
  rewrite (for_each_write_exact _ (fun row => series_3d d' (variables p) row.1)
             (fun row => output_dir p +:+ entry.2 +:+ "point_" +:+ pretty row.2 +:+ ".csv")
             CsvSeries points _ Hall).
  cbn [dataset_id datset_id opened files]. do 3 f_equal.
  apply (zip_with_rows (fun i point => (series_path p entry.2 i, CsvSeries point))). lia.
Qed.

Lemma timeseries_rounds_exact (catalogue : string -> Result Dataset) (p : Parameters)
    (entries : list (string * string)) (k : Kernel) (id : string) (d d' : Dataset)
    (points : list Dataset) :
  dataset_id k = Some id -> catalogue id = ok d -> normalize d = ok d' ->
  has_depth d' = true ->
  has_columns (dataframe_coordinates p)
    ["Start"; "End"; "Latitude"; "Longitude"; "Depth"] = true ->
  Forall2 (series_of d' p) (seq 0 (nrows (dataframe_coordinates p))) points ->
  for_each entries (timeseries_round catalogue p) k
  = (mkKernel (Some id) (bound_after entries (datset_id k))
       (opened k ++ replicate (length entries) id)
       (files k ++ concat ((fun entry : string * string =>
                              zip_with (fun i point =>
                                          (series_path p entry.2 i, CsvSeries point))
                                       (seq 0 (nrows (dataframe_coordinates p))) points)
                             <$> entries)),
     ok tt).
Proof.
  intros Hid Hcat Hnorm Hd Hcols Hpoints. revert k Hid.
  induction entries as [|entry entries IH]; intros k Hid.
  - simpl. rewrite !app_nil_r. unfold bound_after. simpl. rewrite <- Hid.
    rewrite kernel_eta. reflexivity.
  - rewrite for_each_cons.
    rewrite (timeseries_round_3d_exact _ _ _ _ _ _ _ _ Hid Hcat Hnorm Hd Hcols Hpoints).
    unfold ok at 1. cbv beta iota. rewrite IH by reflexivity.
    rewrite bound_after_cons. cbn [dataset_id datset_id opened files fst snd].
    rewrite fmap_cons, concat_cons. cbn [length replicate].
    rewrite <- !app_assoc. reflexivity.
Qed.

(** X18.  The "timeseries" cell reads one dataset only: the one that
    [dataset_id] is bound to when the cell starts.  On a well-formed
    dataset with depth it opens that dataset once for every pair of the
    loop and writes, under each output name, the same series, one per
    point of the table, whatever identifiers the list holds. *)
Theorem timeseries_cell_reads_bound_dataset (catalogue : string -> Result Dataset)
    (p : Parameters) (k : Kernel) (id : string) (d d' : Dataset) :
  dataset_id k = Some id -> catalogue id = ok d -> normalize d = ok d' ->
  has_depth d' = true -> well_formed d' (variables p) = true ->
  has_columns (dataframe_coordinates p)
    ["Start"; "End"; "Latitude"; "Longitude"; "Depth"] = true ->
  exists points,
    Forall2 (series_of d' p) (seq 0 (nrows (dataframe_coordinates p))) points /\
    timeseries_cell catalogue p k
    = (mkKernel (Some id)
         (bound_after (zip (list_datasetID p) (output_names p)) (datset_id k))
         (opened k ++ replicate (length (zip (list_datasetID p) (output_names p))) id)
         (files k ++ concat ((fun entry : string * string =>
                                zip_with (fun i point =>
                                            (series_path p entry.2 i, CsvSeries point))
                                         (seq 0 (nrows (dataframe_coordinates p))) points)
                               <$> zip (list_datasetID p) (output_names p))),
       ok tt).
Proof.
  intros Hid Hcat Hnorm Hd Hwf Hcols.
  destruct (series_points_exist d' p Hd Hwf Hcols) as [points Hpoints].
  exists points. split; [exact Hpoints|].
  apply (timeseries_rounds_exact _ _ _ _ _ _ _ _ Hid Hcat Hnorm Hd Hcols Hpoints).
Qed.

Lemma timeseries_cell_reads_bound_dataset_witness :
  exists points,
    Forall2 (series_of grid_b parameters_ab) (seq 0 (nrows (dataframe_coordinates parameters_ab)))
            points /\
    timeseries_cell catalogue_ab parameters_ab (mkKernel (Some "B") None [] [])
    = (mkKernel (Some "B")
         (bound_after (zip (list_datasetID parameters_ab) (output_names parameters_ab)) None)
         ([] ++ replicate (length (zip (list_datasetID parameters_ab)
                                       (output_names parameters_ab))) "B")
         ([] ++ concat ((fun entry : string * string =>
                           zip_with (fun i point =>
                                       (series_path parameters_ab entry.2 i, CsvSeries point))
                                    (seq 0 (nrows (dataframe_coordinates parameters_ab))) points)
                          <$> zip (list_datasetID parameters_ab) (output_names parameters_ab))),
       ok tt).
Proof.
  apply (timeseries_cell_reads_bound_dataset catalogue_ab parameters_ab
           (mkKernel (Some "B") None [] []) "B" grid_b grid_b);
    vm_compute; reflexivity.
Defined.

Lemma string_length_app (s t : string) :
  String.length (s +:+ t) = (String.length s + String.length t)%nat.
Proof. induction s as [|a s IH]; simpl; [reflexivity|]. rewrite IH. reflexivity. Qed.

Lemma string_app_inj_r (s1 s2 t : string) : s1 +:+ t = s2 +:+ t -> s1 = s2.
Proof.
  revert s2. induction s1 as [|a s1 IH]; intros [|b s2] H.
  - reflexivity.
  - apply (f_equal String.length) in H. rewrite !string_length_app in H. simpl in H. lia.
  - apply (f_equal String.length) in H. rewrite !string_length_app in H. simpl in H. lia.
  - change (String a (s1 +:+ t) = String b (s2 +:+ t)) in H.
    injection H as -> H. f_equal. apply IH, H.
Qed.

Lemma series_path_inj (p : Parameters) (output_name : string) (i j : nat) :
  series_path p output_name i = series_path p output_name j -> i = j.
Proof.
  unfold series_path. intros H. do 3 apply String.app_inj in H.
  apply string_app_inj_r in H. apply pretty_nat_inj in H. exact H.
Qed.

(** X19.  The files that one round of the "timeseries" cell writes have
    pairwise different names, one per row of the table: no series of a
    round overwrites another. *)
Theorem timeseries_round_files_distinct (catalogue : string -> Result Dataset)
    (p : Parameters) (entry : string * string) (k : Kernel) (id : string)
    (d d' : Dataset) :
  dataset_id k = Some id -> catalogue id = ok d -> normalize d = ok d' ->
  has_depth d' = true -> well_formed d' (variables p) = true ->
  has_columns (dataframe_coordinates p)
    ["Start"; "End"; "Latitude"; "Longitude"; "Depth"] = true ->
  exists written,
    timeseries_round catalogue p entry k
    = (mkKernel (Some id) (Some entry.1) (opened k ++ [id]) (files k ++ written), ok tt) /\
    length written = nrows (dataframe_coordinates p) /\
    NoDup written.*1.
Proof.
  intros Hid Hcat Hnorm Hd Hwf Hcols.
  destruct (series_points_exist d' p Hd Hwf Hcols) as [points Hpoints].
  eexists. split; [|split].
  - apply (timeseries_round_3d_exact _ _ _ _ _ _ _ _ Hid Hcat Hnorm Hd Hcols Hpoints).
  - rewrite length_zip_with, <- (Forall2_length _ _ _ Hpoints), length_seq. lia.
  - assert (forall (l : list nat) (ps : list Dataset), length l = length ps ->
              (zip_with (fun i point => (series_path p entry.2 i, CsvSeries point)) l ps).*1
              = series_path p entry.2 <$> l) as Hfst.
    { induction l as [|i l IH]; intros [|pt ps] Hlen; simpl in *; try lia; [reflexivity|].
      f_equal. apply IH. lia. }
    rewrite Hfst by exact (Forall2_length _ _ _ Hpoints).
    apply NoDup_fmap_2; [|apply NoDup_seq].
    intros i j. apply series_path_inj.
Qed.

Lemma timeseries_round_files_distinct_witness :
  exists written,
    timeseries_round catalogue_ab parameters_ab ("A", "a_") (mkKernel (Some "A") None [] [])
    = (mkKernel (Some "A") (Some ("A", "a_").1) ([] ++ ["A"]) ([] ++ written), ok tt) /\
    length written = nrows (dataframe_coordinates parameters_ab) /\
    NoDup written.*1.
Proof.
  apply (timeseries_round_files_distinct catalogue_ab parameters_ab ("A", "a_")
           (mkKernel (Some "A") None [] []) "A" grid_a grid_a);
    vm_compute; reflexivity.
Defined.

Lemma for_each_never_writes {R A} (rows : list R) (f : R -> Result A) (path : R -> string)
    (content : A -> Output) (k : Kernel) :
  for_each rows
    (fun row => c ← lift (f row); _ ← lift (raise IndexError : Result unit);
                to_csv (path row) (content c)) k
  = match rows with
    | [] => (k, ok tt)
    | row :: _ => (k, match f row with inl e => inl e | inr _ => inl IndexError end)
    end.
Proof.
  destruct rows as [|row rows]; [reflexivity|]. rewrite for_each_cons.
  unfold mbind, cell_bind, lift. destruct (f row); reflexivity.
Qed.

Lemma timeseries_round_2d (catalogue : string -> Result Dataset) (p : Parameters)
    (entry : string * string) (k : Kernel) (id : string) (d d' : Dataset) :
  dataset_id k = Some id -> catalogue id = ok d -> normalize d = ok d' ->
  has_depth d' = false ->
  timeseries_round catalogue p entry k
  = (let k1 := mkKernel (Some id) (Some entry.1) (opened k ++ [id]) (files k) in
     let df := dataframe_coordinates p in
     (start ← lift (column df "Start");
      stop ← lift (column df "End");
      latitude ← lift (column df "Latitude");
      longitude ← lift (column df "Longitude");
      for_each (zip (zip (zip (zip start stop) latitude) longitude)
                    (seq 0 (nrows df)))
        (fun row =>
           dataset_point ← lift (series_2d d' (variables p) row.1);
           _ ← lift (raise IndexError : Result unit);
           to_csv (output_dir p +:+ entry.2 +:+ "point_" +:+ pretty row.2
                   +:+ ".csv")
                  (CsvSeries dataset_point))) k1).
Proof.
  intros Hid Hcat Hnorm Hd. unfold timeseries_round.
  erewrite cell_bind_ok; [|reflexivity].
  erewrite cell_bind_ok;
    [|unfold read_dataset_id; cbn [dataset_id]; rewrite Hid; reflexivity].
  erewrite cell_bind_ok; [|unfold open_dataset; rewrite Hcat; reflexivity].
  erewrite cell_bind_ok; [|unfold lift; rewrite Hnorm; reflexivity].
  rewrite Hd. reflexivity.
Qed.

Lemma timeseries_round_2d_state (catalogue : string -> Result Dataset) (p : Parameters)
    (entry : string * string) (k : Kernel) (id : string) (d d' : Dataset) :
  dataset_id k = Some id -> catalogue id = ok d -> normalize d = ok d' ->
  has_depth d' = false ->
  exists r,
    timeseries_round catalogue p entry k
    = (mkKernel (Some id) (Some entry.1) (opened k ++ [id]) (files k), r).
Proof.
  intros Hid Hcat Hnorm Hd.
  rewrite (timeseries_round_2d _ _ _ _ _ _ _ Hid Hcat Hnorm Hd). cbv zeta.
  unfold mbind at 1, cell_bind at 1, lift at 1.
  destruct (column _ "Start") as [?|start]; [eauto|].
  unfold mbind at 1, cell_bind at 1, lift at 1.
  destruct (column _ "End") as [?|stop]; [eauto|].
  unfold mbind at 1, cell_bind at 1, lift at 1.
  destruct (column _ "Latitude") as [?|lat]; [eauto|].
  unfold mbind at 1, cell_bind at 1, lift at 1.
  destruct (column _ "Longitude") as [?|lon]; [eauto|].
  rewrite for_each_never_writes.
  match goal with
  | |- context [match ?l with [] => _ | _ :: _ => _ end] => destruct l
  end; eauto.
Qed.

(** X20.  On a dataset without depth the "timeseries" cell writes no
    file, whatever the dataset and the table hold: the name of the file
    reads [row[5]] of a row of five entries.  On a well-formed dataset and
    a table with at least one row the cell stops with [IndexError] in its
    first round, after the series of the first point was selected. *)
Theorem timeseries_cell_without_depth (catalogue : string -> Result Dataset)
    (p : Parameters) (k : Kernel) (id : string) (d d' : Dataset) :
  dataset_id k = Some id -> catalogue id = ok d -> normalize d = ok d' ->
  has_depth d' = false ->
  files (timeseries_cell catalogue p k).1 = files k /\
  (forall entry rest,
     zip (list_datasetID p) (output_names p) = entry :: rest ->
     well_formed d' (variables p) = true ->
     has_columns (dataframe_coordinates p)
       ["Start"; "End"; "Latitude"; "Longitude"] = true ->
     nrows (dataframe_coordinates p) <> 0%nat ->
     timeseries_cell catalogue p k
     = (mkKernel (Some id) (Some entry.1) (opened k ++ [id]) (files k), raise IndexError)).
Proof.
  intros Hid Hcat Hnorm Hd. split.
  - unfold timeseries_cell. generalize (zip (list_datasetID p) (output_names p)).
    intros entries. revert k Hid. induction entries as [|entry entries IH]; intros k Hid.
    + reflexivity.
    + rewrite for_each_cons.
      destruct (timeseries_round_2d_state catalogue p entry k id d d' Hid Hcat Hnorm Hd)
        as [r ->].
      destruct r as [e|[]]; [reflexivity|]. rewrite IH by reflexivity. reflexivity.
  - intros entry rest Hzip Hwf Hcols Hrows.
    unfold timeseries_cell. rewrite Hzip, for_each_cons.
    rewrite (timeseries_round_2d _ _ _ _ _ _ _ Hid Hcat Hnorm Hd). cbv zeta.
    destruct (has_columns_lookup _ _ "Start" Hcols) as (starts & Hstarts & L1);
      [set_solver|].
    destruct (has_columns_lookup _ _ "End" Hcols) as (stops & Hstops & L2);
      [set_solver|].
    destruct (has_columns_lookup _ _ "Latitude" Hcols) as (lats & Hlats & L3);
      [set_solver|].
    destruct (has_columns_lookup _ _ "Longitude" Hcols) as (lons & Hlons & L4);
      [set_solver|].
    erewrite cell_bind_ok; [|unfold lift; rewrite (column_ok _ _ _ Hstarts); reflexivity].
    erewrite cell_bind_ok; [|unfold lift; rewrite (column_ok _ _ _ Hstops); reflexivity].
    erewrite cell_bind_ok; [|unfold lift; rewrite (column_ok _ _ _ Hlats); reflexivity].
    erewrite cell_bind_ok; [|unfold lift; rewrite (column_ok _ _ _ Hlons); reflexivity].
    rewrite for_each_never_writes.
    destruct (nrows (dataframe_coordinates p)) as [|n] eqn:Hn; [congruence|].
    destruct starts as [|start starts]; [simpl in L1; lia|].
    destruct stops as [|stop stops]; [simpl in L2; lia|].
    destruct lats as [|lat lats]; [simpl in L3; lia|].
    destruct lons as [|lon lons]; [simpl in L4; lia|].
    cbn [zip zip_with seq fst].
    destruct (series_2d_ok d' (variables p) start stop lat lon Hd Hwf)
      as (point & _ & Hpoint & _).
    rewrite Hpoint. reflexivity.
Qed.

Lemma timeseries_cell_without_depth_witness :
  files (timeseries_cell catalogue_ab parameters_2d (mkKernel (Some "S") None [] [])).1 = [] /\
  timeseries_cell catalogue_ab parameters_2d (mkKernel (Some "S") None [] [])
  = (mkKernel (Some "S") (Some ("S", "s_").1) ([] ++ ["S"]) [], raise IndexError).
Proof.
  destruct (timeseries_cell_without_depth catalogue_ab parameters_2d
              (mkKernel (Some "S") None [] []) "S" scenario scenario_normalized)
    as [H1 H2]; try (vm_compute; reflexivity).
  split; [exact H1|].
  apply (H2 ("S", "s_") []); try (vm_compute; reflexivity). vm_compute. discriminate.
Defined.

(** X21.  The two cells run one after the other: once the "temporal
    points" cell has written its tables, [dataset_id] is bound to the last
    identifier of the loop, and the "timeseries" cell takes every series
    from that dataset.  With one dataset in the list, as in the notebook,
    this is the dataset of the list. *)
Theorem timeseries_after_temporal (catalogue : string -> Result Dataset) (p : Parameters)
    (tables : list DataFrame) (k : Kernel) (entry : string * string) (d d' : Dataset) :
  Forall2 (fun entry t => temporal_table catalogue p entry.1 = ok t)
          (zip (list_datasetID p) (output_names p)) tables ->
  last (zip (list_datasetID p) (output_names p)) = Some entry ->
  catalogue entry.1 = ok d -> normalize d = ok d' ->
  has_depth d' = true -> well_formed d' (variables p) = true ->
  has_columns (dataframe_coordinates p)
    ["Start"; "End"; "Latitude"; "Longitude"; "Depth"] = true ->
  exists k1 k2 points,
    temporal_cell catalogue p k = (k1, ok tt) /\
    timeseries_cell catalogue p k1 = (k2, ok tt) /\
    Forall2 (series_of d' p) (seq 0 (nrows (dataframe_coordinates p))) points /\
    opened k2 = opened k1
                ++ replicate (length (zip (list_datasetID p) (output_names p))) entry.1 /\
    files k2 = files k1
               ++ concat ((fun entry : string * string =>
                             zip_with (fun i point =>
                                         (series_path p entry.2 i, CsvSeries point))
                                      (seq 0 (nrows (dataframe_coordinates p))) points)
                            <$> zip (list_datasetID p) (output_names p)).
Proof.
  intros Hall Hlast Hcat Hnorm Hd Hwf Hcols.
  destruct (series_points_exist d' p Hd Hwf Hcols) as [points Hpoints].
  unfold temporal_cell, timeseries_cell.
  rewrite (temporal_rounds_exact _ _ _ _ _ Hall).
  eexists _, _, points. split; [reflexivity|].
  erewrite (timeseries_rounds_exact _ _ _ _ entry.1 d d' points);
    [|unfold bound_after; cbn [dataset_id]; rewrite Hlast; reflexivity|assumption..].
  split; [reflexivity|]. split; [exact Hpoints|]. split; reflexivity.
Qed.

Lemma timeseries_after_temporal_witness :
  exists table k1 k2 points,
    temporal_table catalogue_ab parameters_a "A" = ok table /\
    temporal_cell catalogue_ab parameters_a fresh = (k1, ok tt) /\
    timeseries_cell catalogue_ab parameters_a k1 = (k2, ok tt) /\
    Forall2 (series_of grid_a parameters_a)
            (seq 0 (nrows (dataframe_coordinates parameters_a))) points /\
    opened k2 = opened k1
                ++ replicate (length (zip (list_datasetID parameters_a)
                                          (output_names parameters_a))) ("A", "a_").1 /\
    files k2 = files k1
               ++ concat ((fun entry : string * string =>
                             zip_with (fun i point =>
                                         (series_path parameters_a entry.2 i, CsvSeries point))
                                      (seq 0 (nrows (dataframe_coordinates parameters_a)))
                                      points)
                            <$> zip (list_datasetID parameters_a) (output_names parameters_a)).
Proof.
  destruct (temporal_table catalogue_ab parameters_a "A") as [e|table] eqn:Ht;
    [vm_compute in Ht; discriminate|].
  exists table.
  destruct (timeseries_after_temporal catalogue_ab parameters_a [table] fresh
              ("A", "a_") grid_a grid_a) as (k1 & k2 & points & H);
    try (vm_compute; reflexivity).
  - repeat constructor. exact Ht.
  - exists k1, k2, points. split; [reflexivity|]. exact H.
Defined.

(** ** The table of fake points *)

Lemma fmap_seq_bounds (f : nat -> Q) (lo hi : Q) (s n i : nat) (x : Q) :
  (forall j, lo <= f j /\ f j <= hi)%Q ->
  (f <$> seq s n) !! i = Some x -> (lo <= x /\ x <= hi)%Q.
Proof.
  intros Hf Hx. rewrite list_lookup_fmap in Hx.
  destruct (seq s n !! i) as [j|]; [|discriminate]. injection Hx as <-. apply Hf.
Qed.

(** X22.  The table of fake points is an input that both cells can read:
    it has the six columns they use, each with one value per point; every
    point lies between 40 and 42 degrees of latitude, 4 and 8 degrees of
    longitude and 0 and 5 metres of depth, and its [Date] is its
    [Start]. *)
Theorem fake_coords_in_box (random : nat -> Q) (to_datetime : string -> Q) (n : nat) :
  (forall i, 0 <= random i /\ random i < 1)%Q ->
  let df := fake_coords random to_datetime n in
  nrows df = n /\
  has_columns df ["Date"; "Latitude"; "Longitude"; "Depth"; "Start"; "End"] = true /\
  (forall i latitude longitude depth,
     cell df "Latitude" i = Some latitude -> cell df "Longitude" i = Some longitude ->
     cell df "Depth" i = Some depth ->
     (40 <= latitude /\ latitude <= 42)%Q /\ (4 <= longitude /\ longitude <= 8)%Q /\
     (0 <= depth /\ depth <= 5)%Q) /\
  (forall i, (i < n)%nat -> cell df "Date" i = cell df "Start" i /\
                            is_Some (cell df "Date" i)).
Proof.
  intros Hr df. split; [reflexivity|]. split; [|split].
  - unfold has_columns, df, fake_coords. cbn [forallb columns nrows].
    repeat (rewrite lookup_insert_eq || rewrite lookup_insert_ne by discriminate).
    rewrite !length_fmap, !length_seq, !length_replicate, Nat.eqb_refl. reflexivity.
  - intros i la lo de. unfold cell, df, fake_coords. cbn [columns].
    repeat (rewrite lookup_insert_eq || rewrite lookup_insert_ne by discriminate).
    simpl. intros Hla Hlo Hde. split; [|split].
    + apply (fmap_seq_bounds (fun i => 40 + 2 * random i)%Q 40 42 _ _ _ _) in Hla;
        [exact Hla|]. intros j. pose proof (Hr j). lra.
    + apply (fmap_seq_bounds (fun i => 4 + 4 * random i)%Q 4 8 _ _ _ _) in Hlo;
        [exact Hlo|]. intros j. pose proof (Hr j). lra.
    + apply (fmap_seq_bounds (fun i => 5 * random i)%Q 0 5 _ _ _ _) in Hde;
        [exact Hde|]. intros j. pose proof (Hr j). lra.
  - intros i Hi. unfold cell, df, fake_coords. cbn [columns].
    repeat (rewrite lookup_insert_eq || rewrite lookup_insert_ne by discriminate).
    simpl. rewrite list_lookup_fmap, !lookup_replicate_2 by assumption. eauto.
Qed.

Lemma fake_coords_in_box_witness :
  let df := fake_coords (fun _ => 1 # 2)%Q (fun _ => 0%Q) 10 in
  nrows df = 10%nat /\
  has_columns df ["Date"; "Latitude"; "Longitude"; "Depth"; "Start"; "End"] = true /\
  (forall i latitude longitude depth,
     cell df "Latitude" i = Some latitude -> cell df "Longitude" i = Some longitude ->
     cell df "Depth" i = Some depth ->
     (40 <= latitude /\ latitude <= 42)%Q /\ (4 <= longitude /\ longitude <= 8)%Q /\
     (0 <= depth /\ depth <= 5)%Q) /\
  (forall i, (i < 10)%nat -> cell df "Date" i = cell df "Start" i /\
                             is_Some (cell df "Date" i)).
Proof.
  apply (fake_coords_in_box (fun _ => 1 # 2)%Q (fun _ => 0%Q) 10).
  intros _. split; [discriminate|reflexivity].
Defined.

(** ** Sampling at a grid point *)

Lemma positions_cons (cs : gmap string (list Q)) (d : string) (ds : list string)
    (label : Q) (point : list Q) (idxs : list nat) :
  positions cs (d :: ds) (label :: point) = Some idxs ->
  exists c i rest,
    cs !! d = Some c /\ index_of c label = Some i /\
    positions cs ds point = Some rest /\ idxs = i :: rest.
Proof.
  simpl. destruct (cs !! d) as [c|] eqn:Hc; simpl; [|discriminate].
  destruct (index_of c label) as [i|] eqn:Hi; simpl; [|discriminate].
  destruct (positions cs ds point) as [rest|] eqn:Hrest; simpl; [|discriminate].
  intros [= <-]. exists c, i, rest. auto.
Qed.

Lemma sampled_at_exact (dataset : Dataset) (var : string) (labels : list (string * Q))
    (x y : Q) :
  forallb (axis_ok dataset) labels.*1 = true ->
  sampled_at dataset var labels x ->
  value_at dataset var labels.*2 = Some y ->
  x = y.
Proof.
  intros Hax (v & idxs & Hv & Hdims & Hsel & Hget) Hval.
  unfold value_at in Hval. rewrite Hv in Hval. simpl in Hval. rewrite Hdims in Hval.
  destruct (positions (coords dataset) labels.*1 labels.*2) as [idxs'|] eqn:Hpos;
    simpl in Hval; [|discriminate].
  assert (idxs = idxs') as ->; [|congruence].
  clear Hget Hval Hv Hdims. revert idxs' Hpos Hax.
  induction Hsel as [|[d q] i labels idxs (c & Hc & _ & Hnear) _ IH]; intros idxs' Hpos Hax.
  - simpl in Hpos. congruence.
  - rewrite !fmap_cons in Hpos. simpl in Hpos, Hc, Hnear.
    apply positions_cons in Hpos as (c' & j & rest & Hc' & Hj & Hrest & ->).
    assert (c' = c) as -> by congruence.
    rewrite fmap_cons in Hax. simpl in Hax. apply andb_true_iff in Hax as [Hd Hax].
    apply axis_ok_inv in Hd as (c0 & Hc0 & Hasc & _).
    assert (c0 = c) as -> by congruence.
    apply index_of_lookup in Hj as (z & Hz & Hzq). apply Qeq_bool_iff in Hzq.
    f_equal; [eapply nearest_to_exact; eauto|]. apply IH; assumption.
Qed.

(** X23.  Sampling at a grid point returns the value of the grid there,
    however the axes of the dataset were stored and named: a value that
    the opened dataset holds at a time, depth, latitude and longitude is
    what the "temporal points" cell samples, after normalisation, for a
    point with exactly these coordinates. *)
Theorem sample_at_grid_point (dataset dataset' : Dataset) (var : string)
    (date depth latitude longitude x : Q) :
  consistent dataset -> unique_coords dataset ->
  normalize dataset = ok dataset' ->
  well_formed dataset' [var] = true ->
  (has_depth dataset' = true ->
   value_at dataset var [date; depth; latitude; longitude] = Some x ->
   sample_3d dataset' var (date, latitude, longitude, depth) = ok x) /\
  (has_depth dataset' = false ->
   value_at dataset var [date; latitude; longitude] = Some x ->
   sample_2d dataset' var (date, latitude, longitude) = ok x).
Proof.
  intros Hcons Hu Hnorm Hwf.
  destruct (normalize_kept _ _ Hcons Hu Hnorm) as (_ & _ & Hval & _).
  unfold well_formed in Hwf. apply andb_true_iff in Hwf as [Hax Hvar].
  simpl in Hvar. rewrite andb_true_r in Hvar.
  split; intros Hd Hx; apply Hval in Hx.
  - destruct (sample_3d_ok dataset' var date latitude longitude depth Hd Hax Hvar)
      as (x' & Hs & Hx').
    rewrite Hs. f_equal.
    apply (sampled_at_exact dataset' var
             [("time", date); ("depth", depth); ("latitude", latitude);
              ("longitude", longitude)]); [|exact Hx'|exact Hx].
    unfold grid_dims in Hax. rewrite Hd in Hax. exact Hax.
  - destruct (sample_2d_ok dataset' var date latitude longitude Hd Hax Hvar)
      as (x' & Hs & Hx').
    rewrite Hs. f_equal.
    apply (sampled_at_exact dataset' var
             [("time", date); ("latitude", latitude); ("longitude", longitude)]);
      [|exact Hx'|exact Hx].
    unfold grid_dims in Hax. rewrite Hd in Hax. exact Hax.
Qed.

Lemma sample_at_grid_point_witness :
  sample_2d scenario_normalized "uo" (0, 42, 6)%Q = ok (3 # 2)%Q.
Proof.
  destruct (sample_at_grid_point scenario_short scenario_normalized "uo" 0 0 42 6 (3 # 2))
    as [_ H].
  - apply (bool_decide_unpack _). vm_compute. exact I.
  - apply (bool_decide_unpack _). vm_compute. exact I.
  - vm_compute. reflexivity.
  - vm_compute. reflexivity.
  - apply H; vm_compute; reflexivity.
Defined.
